(** * StatArbDash analytics engine: a shallow embedding

    The analytics code of the dashboard (analytics/metrics.py,
    analytics/spread.py, analytics/scanner.py and the pair enumeration,
    bars-since-breach helper and sorting of pages/3_Pair_Explorer.py) is
    embedded function by function, and with it the symbol normalisation,
    the trimming and the health report of data/ccxt_data.py, the counts
    and tables of pages/2_Basket_Explorer.py and the breach flag of
    pages/4_Pair_Deep_Dive.py.

    Numbers.  Python floats are modelled as extended reals: a real number,
    one of the two infinities, or NaN, with the IEEE rules for the special
    values (comparisons with NaN are false, 0/0 is NaN, x/0 is an infinity
    for x <> 0).  Rounding is not modelled: finite arithmetic is exact.
    Where rounding decides an outcome, the computation is replayed on
    IEEE doubles (module [Binary64]).

    Tables.  A pandas Series is a sequence of (label, value) pairs; a
    DataFrame is an index together with named columns.  Every Series the
    analytics code combines is derived from one table and carries its index,
    so the label alignment of binary operations is positional.

    Exceptions.  Fallible code returns [result]; [try_except] is the
    try/except block. *)

From Stdlib Require Import Reals Lra Lia String Ascii Bool Arith ZArith.
From Stdlib Require Import List Permutation Sorted Finite.
From Stdlib Require PrimFloat.
Import ListNotations.

Set Implicit Arguments.

(** ** Exceptions *)

Inductive exn : Type :=
| ValueError
| IndexError
| KeyError
| TypeError.

Inductive result (A : Type) : Type :=
| Ok (a : A)
| Raise (e : exn).

Arguments Ok {A} a.
Arguments Raise {A} e.

Definition bind {A B : Type} (c : result A) (k : A -> result B) : result B :=
  match c with
  | Ok a => k a
  | Raise e => Raise e
  end.

Notation "x <- c ;; k" := (bind c (fun x => k))
  (at level 61, c at next level, right associativity).

Definition raises {A : Type} (c : result A) : Prop :=
  exists e, c = Raise e.

(** ** Python floats *)

Module Float.

Inductive float : Type :=
| NaN
| PInf
| NInf
| Fin (r : R).

Definition Rltb (x y : R) : bool := if Rlt_dec x y then true else false.
Definition Reqb (x y : R) : bool := if Req_dec_T x y then true else false.

Definition isnan (x : float) : bool :=
  match x with NaN => true | _ => false end.

Definition isinf (x : float) : bool :=
  match x with PInf | NInf => true | _ => false end.

Definition isfinite (x : float) : bool :=
  match x with Fin _ => true | _ => false end.

(** [x < y]; false as soon as one side is NaN. *)
Definition flt (x y : float) : bool :=
  match x, y with
  | NaN, _ | _, NaN => false
  | _, NInf => false
  | NInf, _ => true
  | PInf, _ => false
  | _, PInf => true
  | Fin a, Fin b => Rltb a b
  end.

Definition fgt (x y : float) : bool := flt y x.

(** [x == y]; false as soon as one side is NaN. *)
Definition feq (x y : float) : bool :=
  match x, y with
  | PInf, PInf | NInf, NInf => true
  | Fin a, Fin b => Reqb a b
  | _, _ => false
  end.

Definition fge (x y : float) : bool := fgt x y || feq x y.

Definition fneg (x : float) : float :=
  match x with
  | NaN => NaN
  | PInf => NInf
  | NInf => PInf
  | Fin a => Fin (- a)
  end.

Definition fadd (x y : float) : float :=
  match x, y with
  | NaN, _ | _, NaN => NaN
  | PInf, NInf | NInf, PInf => NaN
  | PInf, _ | _, PInf => PInf
  | NInf, _ | _, NInf => NInf
  | Fin a, Fin b => Fin (a + b)
  end.

Definition fsub (x y : float) : float := fadd x (fneg y).

(** Sign of a real as an infinity, for products and quotients with an
    infinite or zero operand; NaN at zero. *)
Definition inf_of_sign (a : R) : float :=
  if Rltb 0 a then PInf else if Rltb a 0 then NInf else NaN.

Definition fmul (x y : float) : float :=
  match x, y with
  | NaN, _ | _, NaN => NaN
  | Fin a, Fin b => Fin (a * b)
  | PInf, PInf | NInf, NInf => PInf
  | PInf, NInf | NInf, PInf => NInf
  | PInf, Fin a | Fin a, PInf => inf_of_sign a
  | NInf, Fin a | Fin a, NInf => fneg (inf_of_sign a)
  end.

(** numpy division: no exception; x/0 is an infinity of the sign of x and
    0/0 is NaN. *)
Definition fdiv (x y : float) : float :=
  match x, y with
  | NaN, _ | _, NaN => NaN
  | PInf, PInf | PInf, NInf | NInf, PInf | NInf, NInf => NaN
  | Fin _, PInf | Fin _, NInf => Fin 0
  | PInf, Fin b => if Rltb b 0 then NInf else PInf
  | NInf, Fin b => if Rltb b 0 then PInf else NInf
  | Fin a, Fin b => if Reqb b 0 then inf_of_sign a else Fin (a / b)
  end.

Definition fabs (x : float) : float :=
  match x with
  | NaN => NaN
  | PInf | NInf => PInf
  | Fin a => Fin (Rabs a)
  end.

(** [np.log] *)
Definition flog (x : float) : float :=
  match x with
  | NaN | NInf => NaN
  | PInf => PInf
  | Fin a => if Rltb 0 a then Fin (ln a) else if Reqb a 0 then NInf else NaN
  end.

(** [x ** 0.5] *)
Definition fsqrt (x : float) : float :=
  match x with
  | NaN | NInf => NaN
  | PInf => PInf
  | Fin a => if Rltb a 0 then NaN else Fin (sqrt a)
  end.

End Float.
Export Float.

(** ** The pandas operations the analytics code calls *)

Module Pandas.

(** A Series: (label, value) pairs in positional order.  Labels are
    timestamps. *)
Definition Series (A : Type) : Type := list (Z * A).

Definition index {A : Type} (s : Series A) : list Z := map fst s.
Definition values {A : Type} (s : Series A) : list A := map snd s.

(** [s.empty] *)
Definition empty {A : Type} (s : list A) : bool :=
  match s with [] => true | _ => false end.

(** [l[-1]] on a Python sequence *)
Definition last_opt {A : Type} (l : list A) : option A :=
  match rev l with
  | [] => None
  | x :: _ => Some x
  end.

(** [s.iloc[-1]]: IndexError on an empty Series. *)
Definition iloc_last {A : Type} (s : Series A) : result A :=
  match last_opt (values s) with
  | Some x => Ok x
  | None => Raise IndexError
  end.

(** Elementwise unary and binary operations.  The binary one pairs the
    operands by position: all call sites pass Series over one index. *)
Definition smap {A B : Type} (f : A -> B) (s : Series A) : Series B :=
  map (fun p => (fst p, f (snd p))) s.

Definition szip {A B C : Type} (f : A -> B -> C) (s1 : Series A) (s2 : Series B)
  : Series C :=
  map (fun p => (fst (fst p), f (snd (fst p)) (snd (snd p)))) (combine s1 s2).

(** [s[mask].index] for a boolean Series used as its own mask. *)
Definition true_labels (s : Series bool) : list Z :=
  index (filter (fun p => snd p) s).

(** [Index.get_loc]: the position of a label that occurs once; KeyError for
    an absent label; for a repeated label the result is a slice or a mask,
    not an integer. *)
Inductive loc : Type :=
| LocInt (n : nat)
| LocSlice.

Fixpoint positions_from (n : nat) (lbl : Z) (idx : list Z) : list nat :=
  match idx with
  | [] => []
  | x :: rest =>
      if Z.eqb x lbl then n :: positions_from (S n) lbl rest
      else positions_from (S n) lbl rest
  end.

Definition get_loc (idx : list Z) (lbl : Z) : result loc :=
  match positions_from 0 lbl idx with
  | [] => Raise KeyError
  | [p] => Ok (LocInt p)
  | _ => Ok LocSlice
  end.

(** [float(p - q)] on two [get_loc] results: TypeError unless both are
    integers. *)
Definition loc_diff (p q : loc) : result float :=
  match p, q with
  | LocInt a, LocInt b => Ok (Fin (IZR (Z.of_nat a - Z.of_nat b)))
  | _, _ => Raise TypeError
  end.

Fixpoint zip_with {A B C : Type} (f : A -> B -> C) (l1 : list A) (l2 : list B)
  : list C :=
  match l1, l2 with
  | x :: r1, y :: r2 => f x y :: zip_with f r1 r2
  | _, _ => []
  end.

(** [s.tail(n)] *)
Definition tail {A : Type} (n : nat) (l : list A) : list A :=
  skipn (length l - n) l.

(** [s.shift(1)] on the values *)
Definition shift1 (xs : list float) : list float :=
  match xs with
  | [] => []
  | _ => NaN :: removelast xs
  end.

(** *** Reductions *)

Definition Rsum (l : list R) : R := fold_right Rplus 0%R l.

Definition mean_R (l : list R) : R := (Rsum l / INR (length l))%R.

(** Sample variance (ddof = 1). *)
Definition var_R (l : list R) : R :=
  (Rsum (map (fun x => (x - mean_R l) * (x - mean_R l)) l) / (INR (length l) - 1))%R.

(** The finite observations of a window; [None] when one is missing.
    Rolling aggregations treat an infinity as missing. *)
Fixpoint all_finite (l : list float) : option (list R) :=
  match l with
  | [] => Some []
  | Fin a :: rest =>
      match all_finite rest with
      | Some rs => Some (a :: rs)
      | None => None
      end
  | _ :: rest => None
  end.

Definition agg_mean (obs : list R) : float :=
  match obs with
  | [] => NaN
  | _ => Fin (mean_R obs)
  end.

Definition agg_var (obs : list R) : float :=
  if length obs <=? 1 then NaN else Fin (var_R obs).

Definition agg_std (obs : list R) : float := fsqrt (agg_var obs).

(** *** Rolling windows

    [s.rolling(window=w)] with the default [min_periods = w]: the window at
    position [i] holds the rows [i+1-w .. i]; the aggregate is NaN unless
    the window is full and every observation in it is finite.  Each window
    is aggregated from its own values.  pandas keeps running accumulators
    and updates them as the window slides, which is the same number in
    exact arithmetic and can differ in the last digits on doubles; module
    [Binary64] has the accumulators. *)

Definition window {A : Type} (w i : nat) (xs : list A) : list A :=
  skipn (i + 1 - w) (firstn (i + 1) xs).

Definition roll_at (agg : list R -> float) (w : nat) (xs : list float) (i : nat)
  : float :=
  if i + 1 <? w then NaN
  else match all_finite (window w i xs) with
       | Some obs => agg obs
       | None => NaN
       end.

Definition roll (agg : list R -> float) (w : nat) (xs : list float) : list float :=
  map (roll_at agg w xs) (seq 0 (length xs)).

Definition rolling (agg : list R -> float) (w : nat) (s : Series float)
  : Series float :=
  combine (index s) (roll agg w (values s)).

Definition rolling_mean := rolling agg_mean.
Definition rolling_std := rolling agg_std.

(** [x.rolling(w).corr(y)]: both operands are first masked by each other's
    missing values ([x + 0*y]); the result is
    [(E[xy] - E[x]E[y]) * n/(n-1) / sqrt(var x * var y)]. *)
Definition roll_count (w : nat) (xs : list float) (i : nat) : float :=
  Fin (INR (length (filter (fun x => negb (isnan x)) (window w i xs)))).

Definition rolling_corr_values (w : nat) (xs ys : list float) : list float :=
  let x_array := zip_with (fun x y => fadd x (fmul (Fin 0) y)) xs ys in
  let y_array := zip_with (fun x y => fadd y (fmul (Fin 0) x)) xs ys in
  let x_y := zip_with fmul x_array y_array in
  map (fun i =>
         let mean_x_y := roll_at agg_mean w x_y i in
         let mean_x := roll_at agg_mean w x_array i in
         let mean_y := roll_at agg_mean w y_array i in
         let count_x_y := roll_count w (zip_with fadd x_array y_array) i in
         let x_var := roll_at agg_var w x_array i in
         let y_var := roll_at agg_var w y_array i in
         let numerator :=
           fmul (fsub mean_x_y (fmul mean_x mean_y))
                (fdiv count_x_y (fsub count_x_y (Fin 1))) in
         let denominator := fsqrt (fmul x_var y_var) in
         fdiv numerator denominator)
      (seq 0 (length x_array)).

Definition rolling_corr_series (w : nat) (x y : Series float) : Series float :=
  combine (index x) (rolling_corr_values w (values x) (values y)).

(** *** Whole-series reductions, [skipna=True] *)

Definition dropna (l : list float) : list float :=
  filter (fun x => negb (isnan x)) l.

(** [s.std()] *)
Definition nanstd (l : list float) : float :=
  match all_finite (dropna l) with
  | Some obs => agg_std obs
  | None => NaN
  end.

(** [s.sum()]: 0 for an all-missing Series. *)
Definition nansum (l : list float) : float :=
  fold_left fadd (dropna l) (Fin 0).

(** [s.mean()] *)
Definition nanmean (l : list float) : float :=
  match dropna l with
  | [] => NaN
  | obs => fdiv (fold_left fadd obs (Fin 0)) (Fin (INR (length obs)))
  end.

(** *** DataFrames *)

Record DataFrame : Type := mkDataFrame {
  df_index : list Z;
  df_columns : list (string * list float)
}.

Definition columns (df : DataFrame) : list string := map fst (df_columns df).

(** [t in df.columns] *)
Definition in_columns (t : string) (df : DataFrame) : bool :=
  existsb (String.eqb t) (columns df).

(** [len(df)] *)
Definition nrows (df : DataFrame) : nat := length (df_index df).

Definition lookup_column (df : DataFrame) (a : string) : option (list float) :=
  match find (fun c => String.eqb (fst c) a) (df_columns df) with
  | Some c => Some (snd c)
  | None => None
  end.

(** [df[a]]: KeyError for an absent column.  Column names are unique in a
    price table. *)
Definition getitem (df : DataFrame) (a : string) : result (Series float) :=
  match lookup_column df a with
  | Some xs => Ok (combine (df_index df) xs)
  | None => Raise KeyError
  end.

(** [df[tickers]] for a list of names: the named columns in the order
    asked. *)
Fixpoint select_columns (df : DataFrame) (tickers : list string)
  : result (list (string * list float)) :=
  match tickers with
  | [] => Ok []
  | t :: rest =>
      match lookup_column df t with
      | Some xs => cols <- select_columns df rest ;; Ok ((t, xs) :: cols)
      | None => Raise KeyError
      end
  end.

Definition getitems (df : DataFrame) (tickers : list string) : result DataFrame :=
  cols <- select_columns df tickers ;;
  Ok (mkDataFrame (df_index df) cols).

Definition map_columns (f : list float -> list float) (df : DataFrame) : DataFrame :=
  mkDataFrame (df_index df) (map (fun c => (fst c, f (snd c))) (df_columns df)).

(** [df.tail(n)] *)
Definition df_tail (n : nat) (df : DataFrame) : DataFrame :=
  mkDataFrame (tail n (df_index df)) (map (fun c => (fst c, tail n (snd c))) (df_columns df)).

(** [df.empty] *)
Definition df_empty (df : DataFrame) : bool :=
  empty (df_index df) || empty (df_columns df).

(** The cells of row [i], column by column. *)
Definition row_at (df : DataFrame) (i : nat) : list float :=
  map (fun c => nth i (snd c) NaN) (df_columns df).

(** [df.mean(axis=1)] *)
Definition mean_axis1 (df : DataFrame) : Series float :=
  combine (df_index df) (map (fun i => nanmean (row_at df i)) (seq 0 (nrows df))).

(** *** Sorting *)

(** A stable insertion sort; [le x y] says that [x] may stand before [y]. *)
Fixpoint insert_by {A : Type} (le : A -> A -> bool) (x : A) (l : list A) : list A :=
  match l with
  | [] => [x]
  | y :: rest => if le x y then x :: l else y :: insert_by le x rest
  end.

Definition sort_by {A : Type} (le : A -> A -> bool) (l : list A) : list A :=
  fold_right (insert_by le) [] l.

(** [<=] on floats that are not NaN. *)
Definition fle (x y : float) : bool := flt x y || feq x y.

(** [nargsort]: the order [sort_values] gives rows for one key column.  Rows
    with a missing key are set apart and keep their order; the others are
    sorted ascending, for a descending sort by reversing before and after. *)
Definition nargsort {A : Type} (key : A -> float) (ascending na_last : bool)
  (rows : list A) : list A :=
  let non_nans := filter (fun r => negb (isnan (key r))) rows in
  let nans := filter (fun r => isnan (key r)) rows in
  let by_key := fun r1 r2 => fle (key r1) (key r2) in
  let sorted :=
    if ascending then sort_by by_key non_nans
    else rev (sort_by by_key (rev non_nans)) in
  if na_last then sorted ++ nans else nans ++ sorted.

(** The code [lexsort_indexer] gives a key of a descending column with
    missing values last: larger keys get smaller codes, NaN the largest.
    [desc_code_le x y] is [code x <= code y]. *)
Definition desc_code_le (x y : float) : bool :=
  match isnan x, isnan y with
  | true, true => true
  | true, false => false
  | false, true => true
  | false, false => fge x y
  end.

Definition desc_code_lt (x y : float) : bool := negb (desc_code_le y x).

(** Keyword arguments of a call. *)
Inductive kwval : Type :=
| KBool (b : bool)
| KStr (s : string).

Definition sort_values_keywords : list string :=
  ["by"; "axis"; "ascending"; "inplace"; "kind"; "na_position";
   "ignore_index"; "key"]%string.

Definition kw_lookup (name : string) (kwargs : list (string * kwval)) : option kwval :=
  match find (fun kw => String.eqb (fst kw) name) kwargs with
  | Some kw => Some (snd kw)
  | None => None
  end.

(** [df.sort_values(col, **kwargs)] for one key column.  A keyword the
    method does not have is a TypeError; [na_position] must be "first" or
    "last" (the default). *)
Definition sort_values {A : Type} (key : A -> float) (kwargs : list (string * kwval))
  (rows : list A) : result (list A) :=
  if negb (forallb (fun kw => existsb (String.eqb (fst kw)) sort_values_keywords) kwargs)
  then Raise TypeError
  else
    let ascending :=
      match kw_lookup "ascending" kwargs with
      | Some (KBool b) => b
      | _ => true
      end in
    match kw_lookup "na_position" kwargs with
    | None => Ok (nargsort key ascending true rows)
    | Some (KStr p) =>
        if String.eqb p "last" then Ok (nargsort key ascending true rows)
        else if String.eqb p "first" then Ok (nargsort key ascending false rows)
        else Raise ValueError
    | Some _ => Raise ValueError
    end.

(** [itertools.combinations(l, 2)] *)
Fixpoint combinations2 {A : Type} (l : list A) : list (A * A) :=
  match l with
  | [] => []
  | x :: rest => map (pair x) rest ++ combinations2 rest
  end.

(** [sorted(l)] on strings *)
Definition sorted (l : list string) : list string := sort_by String.leb l.

End Pandas.
Export Pandas.

(** Handler of [try: ... except Exception: ...] *)
Definition try_except {A : Type} (body : result A) (handler : A) : A :=
  match body with
  | Ok a => a
  | Raise _ => handler
  end.

(** ** data/ccxt_data.py: symbol normalisation *)

Module CcxtData.

Definition code (c : ascii) : nat := nat_of_ascii c.

(** [str.isspace] on ASCII characters *)
Definition is_space (c : ascii) : bool :=
  ((9 <=? code c) && (code c <=? 13)) || ((28 <=? code c) && (code c <=? 32)).

(** [str.upper] on ASCII characters *)
Definition upper_char (c : ascii) : ascii :=
  if (97 <=? code c) && (code c <=? 122) then ascii_of_nat (code c - 32) else c.

Fixpoint lstrip (l : list ascii) : list ascii :=
  match l with
  | c :: rest => if is_space c then lstrip rest else l
  | [] => []
  end.

Definition strip (l : list ascii) : list ascii := rev (lstrip (rev (lstrip l))).

Definition ascii_eqb_list (l1 l2 : list ascii) : bool :=
  String.eqb (string_of_list_ascii l1) (string_of_list_ascii l2).

(** [s.endswith(suffix)] *)
Definition endswith (s suffix : list ascii) : bool :=
  (length suffix <=? length s)
  && ascii_eqb_list (skipn (length s - length suffix) s) suffix.

(** [s[:-k]] *)
Definition drop_last (k : nat) (s : list ascii) : list ascii :=
  firstn (length s - k) s.

Definition chars (s : string) : list ascii := list_ascii_of_string s.

Definition to_ccxt_symbol (raw : string) : string :=
  let s := map upper_char (strip (chars raw)) in
  if existsb (Ascii.eqb "/"%char) s then string_of_list_ascii s
  else if endswith s (chars "BTC") && (3 <? length s)
  then string_of_list_ascii (drop_last 3 s ++ chars "/BTC")
  else if endswith s (chars "USDT")
  then string_of_list_ascii (drop_last 4 s ++ chars "/USDT:USDT")
  else if endswith s (chars "USD")
  then string_of_list_ascii (drop_last 3 s ++ chars "/USDT:USDT")
  else string_of_list_ascii s.

Definition normalize_symbols (symbols : list string) : list string :=
  map to_ccxt_symbol symbols.

End CcxtData.

(** ** config/settings.py

    The fields the analytics code reads.  Window sizes are counts of bars,
    so they are natural numbers here. *)

Record Settings : Type := mkSettings {
  z_window : nat;
  analytics_window : nat;
  boll_k : float;
  z_entry : float
}.

(** ** analytics/metrics.py *)

Module Metrics.

Definition log_returns (prices_wide : DataFrame) : DataFrame :=
  map_columns (fun xs => map flog (zip_with fdiv xs (shift1 xs))) prices_wide.

Definition rolling_vol (logret : DataFrame) (w : nat) : DataFrame :=
  map_columns (roll agg_std w) logret.

Definition basket_return (logret : DataFrame) (tickers : list string)
  : result (Series float) :=
  let missing := filter (fun t => negb (in_columns t logret)) tickers in
  if negb (empty missing) then Raise ValueError
  else
    selected <- getitems logret tickers ;;
    Ok (mean_axis1 selected).

Definition basket_vol (basket_ret : Series float) : float :=
  nanstd (values basket_ret).

Definition rolling_corr (logret : DataFrame) (a b : string) (w : nat)
  : result (Series float) :=
  let missing := filter (fun col => negb (in_columns col logret)) [a; b] in
  if negb (empty missing) then Raise ValueError
  else
    x <- getitem logret a ;;
    y <- getitem logret b ;;
    Ok (rolling_corr_series w x y).

Definition pair_corr_latest (logret : DataFrame) (a b : string) (w : nat)
  : result float :=
  rolling_corr_series <- rolling_corr logret a b w ;;
  iloc_last rolling_corr_series.

End Metrics.

(** ** analytics/spread.py *)

Module Spread.

Definition spread_series (prices_wide : DataFrame) (a b : string)
  : result (Series float) :=
  pa <- getitem prices_wide a ;;
  let log_a := smap flog pa in
  pb <- getitem prices_wide b ;;
  let log_b := smap flog pb in
  Ok (szip fsub log_a log_b).

Definition zscore (series : Series float) (w : nat) : Series float :=
  let rolling_mean := rolling_mean w series in
  let rolling_std := rolling_std w series in
  szip fdiv (szip fsub series rolling_mean) rolling_std.

Definition bollinger_bands (series : Series float) (w : nat) (k : float)
  : Series float * Series float * Series float :=
  let rolling_mean := rolling_mean w series in
  let rolling_std := rolling_std w series in
  let upper_band := szip fadd rolling_mean (smap (fmul k) rolling_std) in
  let lower_band := szip fsub rolling_mean (smap (fmul k) rolling_std) in
  (rolling_mean, upper_band, lower_band).

Definition latest_boll_breach (series upper lower : Series float) : result bool :=
  if empty series || empty upper || empty lower then Ok false
  else
    latest_spread <- iloc_last series ;;
    latest_upper <- iloc_last upper ;;
    latest_lower <- iloc_last lower ;;
    if isnan latest_spread || isnan latest_upper || isnan latest_lower
    then Ok false
    else Ok (fgt latest_spread latest_upper || flt latest_spread latest_lower).

(** [series.diff().dropna()] on the values *)
Definition diff_dropna (xs : list float) : list float :=
  dropna (zip_with fsub xs (shift1 xs)).

Definition spread_vol (series : Series float) (w : nat) : float :=
  if length series <? 2 then NaN
  else
    let diff_series := diff_dropna (values series) in
    if length diff_series <? w
    then (if 1 <? length diff_series then nanstd diff_series else NaN)
    else nanstd (tail w diff_series).

End Spread.

(** ** analytics/scanner.py *)

Module Scanner.

Definition _compute_spread (prices_wide : DataFrame) (a b : string)
  : result (Series float) :=
  pa <- getitem prices_wide a ;;
  let log_a := smap flog pa in
  pb <- getitem prices_wide b ;;
  let log_b := smap flog pb in
  Ok (szip fsub log_a log_b).

Definition _compute_zscore (spread : Series float) (w : nat) : Series float :=
  let rolling_mean := rolling_mean w spread in
  let rolling_std := rolling_std w spread in
  szip fdiv (szip fsub spread rolling_mean) rolling_std.

Definition _compute_bollinger_bands (spread : Series float) (w : nat) (k : float)
  : Series float * Series float :=
  let rolling_mean := rolling_mean w spread in
  let rolling_std := rolling_std w spread in
  let upper_band := szip fadd rolling_mean (smap (fmul k) rolling_std) in
  let lower_band := szip fsub rolling_mean (smap (fmul k) rolling_std) in
  (upper_band, lower_band).

Definition _detect_bollinger_breach (spread upper_band lower_band : Series float)
  : Series bool :=
  szip orb (szip fgt spread upper_band) (szip flt spread lower_band).

(** [_compute_bars_since_breach]; the handler of its try block catches
    KeyError and TypeError only. *)
Definition _compute_bars_since_breach (breach_series : Series bool) : result float :=
  if empty breach_series then Ok NaN
  else
    cur <- iloc_last breach_series ;;
    if (cur : bool) then Ok (Fin 0)
    else
      let last_true_indices := true_labels breach_series in
      match last_opt last_true_indices, last_opt (index breach_series) with
      | None, _ => Ok NaN
      | Some _, None => Raise IndexError
      | Some last_breach_idx, Some current_idx =>
          match (last_breach_pos <- get_loc (index breach_series) last_breach_idx ;;
                 current_pos <- get_loc (index breach_series) current_idx ;;
                 loc_diff current_pos last_breach_pos) with
          | Ok v => Ok v
          | Raise KeyError | Raise TypeError => Ok NaN
          | Raise e => Raise e
          end
      end.

(** *** scan_baskets *)

Record BasketRow : Type := mkBasketRow {
  basket : string;
  n_tickers : nat;
  basket_vol : float;
  opp_count : nat;
  top_movers : string
}.

(** The body of the try block that computes the basket volatility. *)
Definition basket_vol_body (logret : DataFrame) (valid_tickers : list string)
  (settings : Settings) : result float :=
  basket_ret <- Metrics.basket_return logret valid_tickers ;;
  if analytics_window settings <=? length basket_ret then
    let recent_basket_ret := tail (analytics_window settings) basket_ret in
    Ok (if 1 <? length recent_basket_ret then nanstd (values recent_basket_ret) else NaN)
  else if 1 <? length basket_ret then Ok (nanstd (values basket_ret))
  else Ok NaN.

(** The body of the try block of one pair: [true] when the pair counts as
    an opportunity. *)
Definition pair_opportunity (prices_wide : DataFrame) (settings : Settings)
  (ab : string * string) : result bool :=
  spread <- Spread.spread_series prices_wide (fst ab) (snd ab) ;;
  let zscore_series := Spread.zscore spread (z_window settings) in
  let '(mid, upper_band, lower_band) :=
    Spread.bollinger_bands spread (z_window settings) (boll_k settings) in
  latest_breach <- Spread.latest_boll_breach spread upper_band lower_band ;;
  if empty zscore_series then Ok false
  else
    latest_z <- iloc_last zscore_series ;;
    if isnan latest_z then Ok false
    else Ok (fge (fabs latest_z) (z_entry settings) && latest_breach).

Definition count_opportunities (prices_wide : DataFrame) (settings : Settings)
  (pairs : list (string * string)) : nat :=
  fold_left
    (fun opp_count ab =>
       if try_except (pair_opportunity prices_wide settings ab) false
       then opp_count + 1 else opp_count)
    pairs 0.

(** [s.nlargest(n)] on (name, value) entries: the [n] largest in
    descending order, the first of equal values first. *)
Definition nlargest (n : nat) (entries : list (string * float)) : list (string * float) :=
  firstn n (nargsort snd false true entries).

(** The body of the try block that names the top movers. *)
Definition top_movers_body (logret : DataFrame) (valid_tickers : list string)
  (lookback_bars : nat) : result string :=
  selected <- getitems logret valid_tickers ;;
  let recent_logret :=
    if lookback_bars <=? nrows logret then df_tail lookback_bars selected
    else selected in
  if negb (df_empty recent_logret) && (0 <? nrows recent_logret) then
    let abs_returns :=
      map (fun c => (fst c, nansum (map fabs (snd c)))) (df_columns recent_logret) in
    let top_3 := nlargest 3 abs_returns in
    Ok (String.concat ", " (map fst top_3))
  else Ok EmptyString.

(** The normalised tickers of a basket that are columns of the price
    table. *)
Definition valid_tickers (prices_wide : DataFrame) (tickers_raw : list string)
  : list string :=
  let normalized_tickers := CcxtData.normalize_symbols tickers_raw in
  filter (fun t => in_columns t prices_wide) normalized_tickers.

(** One iteration of the loop over the baskets. *)
Definition scan_basket (prices_wide logret : DataFrame) (settings : Settings)
  (lookback_bars : nat) (basket_name : string) (tickers_raw : list string)
  : BasketRow :=
  let valid_tickers := valid_tickers prices_wide tickers_raw in
  let n_tickers := length valid_tickers in
  if n_tickers <? 2 then
    mkBasketRow basket_name n_tickers NaN 0 EmptyString
  else
    let basket_vol_value :=
      try_except (basket_vol_body logret valid_tickers settings) NaN in
    let pairs := combinations2 valid_tickers in
    let has_enough_data := z_window settings <=? nrows prices_wide in
    let opp_count :=
      if has_enough_data then count_opportunities prices_wide settings pairs
      else 0 in
    let top_movers := try_except (top_movers_body logret valid_tickers lookback_bars) EmptyString in
    mkBasketRow basket_name n_tickers basket_vol_value opp_count top_movers.

(** The order of [sort_values(["basket_vol", "opp_count"],
    ascending=[False, False], na_position="last")]: a stable sort on the
    pair of codes of the two key columns. *)
Definition basket_code_le (r1 r2 : BasketRow) : bool :=
  desc_code_lt (basket_vol r1) (basket_vol r2)
  || (desc_code_le (basket_vol r1) (basket_vol r2) && (opp_count r2 <=? opp_count r1)).

(** The rows before the final sort, one per basket in dict order. *)
Definition scan_baskets_rows (prices_wide : DataFrame)
  (baskets : list (string * list string)) (settings : Settings) (lookback_bars : nat)
  : list BasketRow :=
  let logret := Metrics.log_returns prices_wide in
  map (fun kv => scan_basket prices_wide logret settings lookback_bars (fst kv) (snd kv))
      baskets.

Definition scan_baskets (prices_wide : DataFrame)
  (baskets : list (string * list string)) (settings : Settings) (lookback_bars : nat)
  : list BasketRow :=
  let results := scan_baskets_rows prices_wide baskets settings lookback_bars in
  if negb (empty results) then sort_by basket_code_le results else results.

(** *** scan_pairs_in_basket *)

Record PairRow : Type := mkPairRow {
  a : string;
  b : string;
  z : float;
  boll_breach : bool;
  bars_since_breach : float;
  corr : float;
  spread_vol : float
}.

(** [float(s.iloc[-1]) if not s.empty and not np.isnan(s.iloc[-1]) else np.nan] *)
Definition latest_or_nan (s : Series float) : result float :=
  if empty s then Ok NaN
  else
    v <- iloc_last s ;;
    Ok (if isnan v then NaN else v).

(** [bool(breach.iloc[-1]) if not breach.empty else False] *)
Definition latest_breach_of (breach : Series bool) : result bool :=
  if empty breach then Ok false else iloc_last breach.

(** The body of the try block of one pair. *)
Definition pair_metrics (prices_wide logret : DataFrame) (settings : Settings)
  (ab : string * string) : result PairRow :=
  spread <- _compute_spread prices_wide (fst ab) (snd ab) ;;
  let zscore := _compute_zscore spread (z_window settings) in
  latest_z <- latest_or_nan zscore ;;
  let '(upper_band, lower_band) :=
    _compute_bollinger_bands spread (z_window settings) (boll_k settings) in
  let breach := _detect_bollinger_breach spread upper_band lower_band in
  latest_breach <- latest_breach_of breach ;;
  bars_since <- _compute_bars_since_breach breach ;;
  corr_value <- Metrics.pair_corr_latest logret (fst ab) (snd ab) (analytics_window settings) ;;
  let rolling_std := rolling_std (analytics_window settings) spread in
  spread_vol_value <- latest_or_nan rolling_std ;;
  Ok (mkPairRow (fst ab) (snd ab) latest_z latest_breach bars_since corr_value
        spread_vol_value).

(** The loop over the pairs: a pair with an absent ticker is skipped, and so
    is a pair whose body raises. *)
Fixpoint pair_results (prices_wide logret : DataFrame) (settings : Settings)
  (pairs : list (string * string)) : list PairRow :=
  match pairs with
  | [] => []
  | ab :: rest =>
      if negb (in_columns (fst ab) prices_wide) || negb (in_columns (snd ab) prices_wide)
      then pair_results prices_wide logret settings rest
      else
        match pair_metrics prices_wide logret settings ab with
        | Ok row => row :: pair_results prices_wide logret settings rest
        | Raise _ => pair_results prices_wide logret settings rest
        end
  end.

(** [list(combinations(basket_tickers, 2))] *)
Definition pairs (basket_tickers : list string) : list (string * string) :=
  combinations2 basket_tickers.

Definition scan_pairs_in_basket (prices_wide : DataFrame)
  (basket_tickers : list string) (settings : Settings) : result (list PairRow) :=
  let logret := Metrics.log_returns prices_wide in
  let pairs := pairs basket_tickers in
  let results := pair_results prices_wide logret settings pairs in
  if negb (empty results) then
    sort_values (fun row => fabs (z row))
      [("ascending", KBool false); ("na_last", KBool true)]%string results
  else Ok results.

End Scanner.

(** ** pages/3_Pair_Explorer.py *)

Module PairExplorer.

Definition compute_bars_since_breach (breach_series : Series bool) : result float :=
  if empty breach_series then Ok NaN
  else
    cur <- iloc_last breach_series ;;
    if (cur : bool) then Ok (Fin 0)
    else
      let last_true_indices := true_labels breach_series in
      match last_opt last_true_indices, last_opt (index breach_series) with
      | None, _ => Ok NaN
      | Some _, None => Raise IndexError
      | Some last_breach_idx, Some current_idx =>
          match (last_breach_pos <- get_loc (index breach_series) last_breach_idx ;;
                 current_pos <- get_loc (index breach_series) current_idx ;;
                 loc_diff current_pos last_breach_pos) with
          | Ok v => Ok v
          | Raise KeyError | Raise TypeError => Ok NaN
          | Raise e => Raise e
          end
      end.

(** The tickers of the basket that are columns of the price table. *)
Definition valid_tickers (prices_wide : DataFrame) (basket_tickers_raw : list string)
  : list string :=
  filter (fun t => in_columns t prices_wide)
         (CcxtData.normalize_symbols basket_tickers_raw).

(** [combinations(sorted(valid_tickers), 2)] *)
Definition pairs (valid_tickers : list string) : list (string * string) :=
  combinations2 (sorted valid_tickers).

(** A row of the page's table; [error] says that the row stands for a pair
    whose computation raised (the page keeps the message). *)
Record ViewRow : Type := mkViewRow {
  a : string;
  b : string;
  z : float;
  boll_breach : bool;
  bars_since_breach : float;
  corr : float;
  spread_vol : float;
  opportunity : bool;
  error : bool
}.

(** The body of the try block of one pair. *)
Definition pair_row (prices_wide logret : DataFrame) (settings : Settings)
  (ab : string * string) : result ViewRow :=
  spread <- Spread.spread_series prices_wide (fst ab) (snd ab) ;;
  let zscore_series := Spread.zscore spread (z_window settings) in
  latest_z <- Scanner.latest_or_nan zscore_series ;;
  let '(mid, upper_band, lower_band) :=
    Spread.bollinger_bands spread (z_window settings) (boll_k settings) in
  let breach_series := szip orb (szip fgt spread upper_band) (szip flt spread lower_band) in
  boll_breach_latest <- Spread.latest_boll_breach spread upper_band lower_band ;;
  bars_since <- compute_bars_since_breach breach_series ;;
  corr <- Metrics.pair_corr_latest logret (fst ab) (snd ab) (analytics_window settings) ;;
  let spread_vol_value := Spread.spread_vol spread (analytics_window settings) in
  let opportunity :=
    negb (isnan latest_z) && fge (fabs latest_z) (z_entry settings) && boll_breach_latest in
  Ok (mkViewRow (fst ab) (snd ab) latest_z boll_breach_latest bars_since corr
        spread_vol_value opportunity false).

(** The loop over the pairs: a pair whose body raises gets an error row. *)
Definition pairs_data (prices_wide : DataFrame) (settings : Settings)
  (pairs : list (string * string)) : list ViewRow :=
  let logret := Metrics.log_returns prices_wide in
  map (fun ab =>
         try_except (pair_row prices_wide logret settings ab)
           (mkViewRow (fst ab) (snd ab) NaN false NaN NaN NaN false true))
      pairs.

Inductive sort_key : Type :=
| AbsZDesc
| MostRecentBreach
| CorrDesc
| SpreadVolDesc.

(** The selectbox opens on its first option. *)
Definition default_sort_key : sort_key := AbsZDesc.

Record Controls : Type := mkControls {
  only_opportunities : bool;
  sort_by_key : sort_key;
  min_correlation : float;
  min_abs_z : float
}.

Definition apply_filters (c : Controls) (df_all : list ViewRow) : list ViewRow :=
  let df_view := df_all in
  let df_view :=
    if only_opportunities c then filter (fun r => opportunity r) df_view else df_view in
  let df_view := filter (fun r => fge (corr r) (min_correlation c)) df_view in
  filter (fun r => fge (fabs (z r)) (min_abs_z c)) df_view.

Definition apply_sorting (c : Controls) (df_view : list ViewRow)
  : result (list ViewRow) :=
  match sort_by_key c with
  | AbsZDesc =>
      sort_values (fun r => fabs (z r))
        [("ascending", KBool false); ("na_position", KStr "last")]%string df_view
  | MostRecentBreach =>
      sort_values bars_since_breach
        [("ascending", KBool true); ("na_position", KStr "last")]%string df_view
  | CorrDesc =>
      sort_values corr
        [("ascending", KBool false); ("na_position", KStr "last")]%string df_view
  | SpreadVolDesc =>
      sort_values spread_vol
        [("ascending", KBool false); ("na_position", KStr "last")]%string df_view
  end.

Definition df_view (c : Controls) (df_all : list ViewRow) : result (list ViewRow) :=
  apply_sorting c (apply_filters c df_all).

End PairExplorer.

(** ** pages/2_Basket_Explorer.py *)

Module BasketExplorer.

(** The page's own copy of the helper. *)
Definition compute_bars_since_breach (breach_series : Series bool) : result float :=
  if empty breach_series then Ok NaN
  else
    cur <- iloc_last breach_series ;;
    if (cur : bool) then Ok (Fin 0)
    else
      let last_true_indices := true_labels breach_series in
      match last_opt last_true_indices, last_opt (index breach_series) with
      | None, _ => Ok NaN
      | Some _, None => Raise IndexError
      | Some last_breach_idx, Some current_idx =>
          match (last_breach_pos <- get_loc (index breach_series) last_breach_idx ;;
                 current_pos <- get_loc (index breach_series) current_idx ;;
                 loc_diff current_pos last_breach_pos) with
          | Ok v => Ok v
          | Raise KeyError | Raise TypeError => Ok NaN
          | Raise e => Raise e
          end
      end.

Definition valid_tickers (prices_wide : DataFrame) (basket_tickers_raw : list string)
  : list string :=
  filter (fun t => in_columns t prices_wide)
         (CcxtData.normalize_symbols basket_tickers_raw).

(** [combinations(sorted(valid_tickers), 2)] *)
Definition pairs (valid_tickers : list string) : list (string * string) :=
  combinations2 (sorted valid_tickers).

(** The body of the try block of the opportunity count: [true] when the
    pair adds one. *)
Definition pair_counts (prices_wide : DataFrame) (settings : Settings)
  (ab : string * string) : result bool :=
  spread <- Spread.spread_series prices_wide (fst ab) (snd ab) ;;
  let zscore_series := Spread.zscore spread (z_window settings) in
  let '(mid, upper_band, lower_band) :=
    Spread.bollinger_bands spread (z_window settings) (boll_k settings) in
  latest_breach <- Spread.latest_boll_breach spread upper_band lower_band ;;
  if empty zscore_series then Ok false
  else
    latest_z <- iloc_last zscore_series ;;
    if isnan latest_z then Ok false
    else Ok (fge (fabs latest_z) (z_entry settings) && latest_breach).

Definition opp_count (prices_wide : DataFrame) (settings : Settings)
  (pairs : list (string * string)) : nat :=
  fold_left
    (fun opp_count ab =>
       if try_except (pair_counts prices_wide settings ab) false
       then opp_count + 1 else opp_count)
    pairs 0.

(** The basket volatility of the summary card: 0.0, not NaN, when there
    are fewer than two bars. *)
Definition basket_vol_value (logret : DataFrame) (valid_tickers : list string)
  (settings : Settings) : result float :=
  basket_ret <- Metrics.basket_return logret valid_tickers ;;
  let recent_basket_ret :=
    if analytics_window settings <=? length basket_ret
    then tail (analytics_window settings) basket_ret
    else basket_ret in
  Ok (if 1 <? length recent_basket_ret then nanstd (values recent_basket_ret)
      else Fin 0).

(** [missing_pct] of the members table: the share of missing prices of a
    ticker over the last [min(len(prices_wide), history_days_display * 24)]
    bars, 100.0 for no bars. *)
Definition missing_pct (prices_wide : DataFrame) (history_days_display : nat)
  (ticker : string) : result float :=
  let last_10d_bars := Nat.min (nrows prices_wide) (history_days_display * 24) in
  prices <- getitem prices_wide ticker ;;
  let ticker_prices_10d := tail last_10d_bars prices in
  if 0 <? length ticker_prices_10d then
    Ok (fmul (fdiv (Fin (INR (length (filter isnan (values ticker_prices_10d)))))
                   (Fin (INR (length ticker_prices_10d))))
             (Fin 100))
  else Ok (Fin 100).

(** [return_24] of the members table: the sum of the last 24 log returns
    of a ticker, in percent; 0.0 for no rows. *)
Definition return_24_pct (logret : DataFrame) (ticker : string) : result float :=
  returns <- getitem logret ticker ;;
  let ticker_logret := tail 24 returns in
  if negb (empty ticker_logret)
  then Ok (fmul (nansum (values ticker_logret)) (Fin 100))
  else Ok (Fin 0).

Record OppRow : Type := mkOppRow {
  a : string;
  b : string;
  z : float;
  boll_breach : bool;
  bars_since_breach : float;
  corr : float;
  spread_vol : float;
  opportunity : bool
}.

(** Attributes of module numpy the page reads: [np.nan] and [np.isnan] are
    there, [np.isna] is not, and reading it is an AttributeError.  The
    handler of the loop is [except Exception: continue], so the body is
    modelled up to which exception ends it: [None] is an exception. *)
Definition caught {A : Type} (c : result A) : option A :=
  match c with
  | Ok x => Some x
  | Raise _ => None
  end.

Definition np_isna (x : float) : option bool := None.

Definition obind {A B : Type} (c : option A) (k : A -> option B) : option B :=
  match c with
  | Some x => k x
  | None => None
  end.

(** The body of the try block of the opportunities table. *)
Definition opportunity_row (prices_wide logret : DataFrame) (settings : Settings)
  (ab : string * string) : option OppRow :=
  obind (caught (Spread.spread_series prices_wide (fst ab) (snd ab))) (fun spread =>
  let zscore_series := Spread.zscore spread (z_window settings) in
  obind (caught (Scanner.latest_or_nan zscore_series)) (fun latest_z =>
  let '(mid, upper_band, lower_band) :=
    Spread.bollinger_bands spread (z_window settings) (boll_k settings) in
  let breach_series :=
    szip orb (szip fgt spread upper_band) (szip flt spread lower_band) in
  obind (caught (Spread.latest_boll_breach spread upper_band lower_band))
    (fun latest_breach =>
  obind (caught (compute_bars_since_breach breach_series)) (fun bars_since =>
  obind (caught (Metrics.pair_corr_latest logret (fst ab) (snd ab)
                   (analytics_window settings))) (fun corr_value =>
  let spread_vol_value := Spread.spread_vol spread (analytics_window settings) in
  obind (np_isna latest_z) (fun latest_z_isna =>
  let is_opportunity :=
    negb latest_z_isna && fge (fabs latest_z) (z_entry settings) && latest_breach in
  Some (mkOppRow (fst ab) (snd ab) latest_z latest_breach bars_since corr_value
          spread_vol_value is_opportunity))))))).

(** The loop: a pair whose body raises is skipped. *)
Fixpoint opportunities_data (prices_wide logret : DataFrame) (settings : Settings)
  (pairs : list (string * string)) : list OppRow :=
  match pairs with
  | [] => []
  | ab :: rest =>
      match opportunity_row prices_wide logret settings ab with
      | Some row => row :: opportunities_data prices_wide logret settings rest
      | None => opportunities_data prices_wide logret settings rest
      end
  end.

End BasketExplorer.

(** ** data/ccxt_data.py: history and health of a price table *)

Module CcxtFrames.

(** [l[mask]] for a boolean mask *)
Fixpoint mask_select {A : Type} (mask : list bool) (xs : list A) : list A :=
  match mask, xs with
  | m :: ms, x :: rest => if m then x :: mask_select ms rest else mask_select ms rest
  | _, _ => []
  end.

(** [df[mask]]: the rows where the mask is true. *)
Definition df_mask (mask : list bool) (df : DataFrame) : DataFrame :=
  mkDataFrame (mask_select mask (df_index df))
              (map (fun c => (fst c, mask_select mask (snd c))) (df_columns df)).

(** [index.max()] and [index.min()] *)
Definition index_max (idx : list Z) : option Z :=
  match idx with
  | [] => None
  | t :: rest => Some (fold_left Z.max rest t)
  end.

Definition index_min (idx : list Z) : option Z :=
  match idx with
  | [] => None
  | t :: rest => Some (fold_left Z.min rest t)
  end.

(** Timestamps count milliseconds; [pd.Timedelta(days=d)]. *)
Definition timedelta_days (d : Z) : Z := (d * 86400000)%Z.

Definition trim_history (prices_wide : DataFrame) (days_display : Z) : DataFrame :=
  if df_empty prices_wide then prices_wide
  else
    match index_max (df_index prices_wide) with
    | None => prices_wide
    | Some end_date =>
        let start_date := (end_date - timedelta_days days_display)%Z in
        df_mask (map (fun t => Z.leb start_date t) (df_index prices_wide)) prices_wide
    end.

Record DataHealth : Type := mkDataHealth {
  n_rows : nat;
  n_cols : nat;
  start_ts : option Z;
  end_ts : option Z;
  overall_missing_pct : float;
  per_symbol_missing_top10 : list (string * float)
}.

(** [s.isna().sum()] *)
Definition count_na (xs : list float) : nat := length (filter isnan xs).

(** [l.sort(key=lambda x: x[1], reverse=True)]: a stable sort, equal keys
    keep their order. *)
Definition sort_by_pct_desc (l : list (string * float)) : list (string * float) :=
  rev (sort_by (fun p q => fle (snd p) (snd q)) (rev l)).

Definition get_data_health (prices_wide : DataFrame) : DataHealth :=
  if df_empty prices_wide then mkDataHealth 0 0 None None (Fin 0) []
  else
    let n_rows := nrows prices_wide in
    let n_cols := length (columns prices_wide) in
    let start_ts := index_min (df_index prices_wide) in
    let end_ts := index_max (df_index prices_wide) in
    let total_na := list_sum (map (fun c => count_na (snd c)) (df_columns prices_wide)) in
    let overall_missing_pct :=
      fmul (fdiv (Fin (INR total_na)) (Fin (INR (n_rows * n_cols)))) (Fin 100) in
    let per_symbol_missing :=
      map (fun c => (fst c,
                     fmul (fdiv (Fin (INR (count_na (snd c)))) (Fin (INR n_rows)))
                          (Fin 100)))
          (df_columns prices_wide) in
    let per_symbol_missing := sort_by_pct_desc per_symbol_missing in
    let per_symbol_missing_top10 := firstn 10 per_symbol_missing in
    mkDataHealth n_rows n_cols start_ts end_ts overall_missing_pct
      per_symbol_missing_top10.

End CcxtFrames.

(** ** pages/4_Pair_Deep_Dive.py *)

Module PairDeepDive.

(** [float(s.iloc[-1]) if not s.empty and not pd.isna(s.iloc[-1]) else np.nan] *)
Definition latest (s : Series float) : result float :=
  if empty s then Ok NaN
  else
    v <- iloc_last s ;;
    Ok (if isnan v then NaN else v).

(** The breach flag of the key metrics, from the latest spread and the
    latest bands. *)
Definition boll_breach (spread upper lower : Series float) : result bool :=
  latest_spread <- latest spread ;;
  latest_upper <- latest upper ;;
  latest_lower <- latest lower ;;
  let boll_breach := false in
  if negb (isnan latest_spread) && negb (isnan latest_upper) && negb (isnan latest_lower)
  then Ok (fgt latest_spread latest_upper || flt latest_spread latest_lower)
  else Ok boll_breach.

End PairDeepDive.

(** ** IEEE doubles

    The rolling mean and deviation of pandas on binary64 numbers, at the
    first row whose window is full: there the window holds the first [w]
    values of the series and the accumulators have only added values,
    none was removed.  The mean is a compensated sum over the count
    ([add_mean], [calc_mean]); the variance is Welford's update with the
    same compensation ([add_var], [calc_var], one degree of freedom
    removed); the deviation is its square root.  The values are taken to
    be numbers that are not all equal: pandas skips a NaN, and gives a
    window of equal values the variance 0 without dividing. *)

Module Binary64.

Import PrimFloat.
Local Open Scope float_scope.












End Binary64.

(** * Vocabulary of the statements *)


(** The latest values of two bands are missing together. *)
Definition bands_missing_together (upper lower : Series float) : Prop :=
  forall u l, iloc_last upper = Ok u -> iloc_last lower = Ok l -> isnan u = isnan l.

(** Rows in descending order of a key, the rows with a missing key after all
    the others. *)
Definition desc_nan_last {A : Type} (key : A -> float) (out : list A) : Prop :=
  exists defined undefined,
    out = defined ++ undefined
    /\ Forall (fun r => isnan (key r) = false) defined
    /\ Forall (fun r => isnan (key r) = true) undefined
    /\ StronglySorted (fun r1 r2 => fge (key r1) (key r2) = true) defined.

(** Rows in ascending order of a key, the rows with a missing key after all
    the others. *)
Definition asc_nan_last {A : Type} (key : A -> float) (out : list A) : Prop :=
  exists defined undefined,
    out = defined ++ undefined
    /\ Forall (fun r => isnan (key r) = false) defined
    /\ Forall (fun r => isnan (key r) = true) undefined
    /\ StronglySorted (fun r1 r2 => fle (key r1) (key r2) = true) defined.

(** Every column of a table is as long as its index. *)
Definition wf_table (df : DataFrame) : Prop :=
  Forall (fun c => length (snd c) = nrows df) (df_columns df).

(** The cell of column [t] at row [i]; NaN outside the table. *)
Definition cell (df : DataFrame) (t : string) (i : nat) : float :=
  match lookup_column df t with
  | Some xs => nth i xs NaN
  | None => NaN
  end.

(** The order of the basket summary: a row with a missing volatility is
    followed by such rows only; of two rows with a volatility the first has
    the larger one or, when they are equal, at least the opportunity count
    of the second. *)
Definition basket_before (r1 r2 : Scanner.BasketRow) : Prop :=
  (isnan (Scanner.basket_vol r1) = true -> isnan (Scanner.basket_vol r2) = true)
  /\ (isnan (Scanner.basket_vol r1) = false -> isnan (Scanner.basket_vol r2) = false ->
      fge (Scanner.basket_vol r1) (Scanner.basket_vol r2) = true
      /\ (feq (Scanner.basket_vol r1) (Scanner.basket_vol r2) = true ->
          Scanner.opp_count r2 <= Scanner.opp_count r1)).

(** [z] lies beyond [k] on either side: [z > k] or [z < -k]. *)
Definition beyond (k z : float) : bool := fgt z k || flt z (fneg k).

(** The entry rule on a z-score alone. *)
Definition opportunity_rule (settings : Settings) (z : float) : bool :=
  fge (fabs z) (z_entry settings) && beyond (boll_k settings) z.

(** The last value of a series, NaN for an empty one. *)
Definition latest_value (s : Series float) : float :=
  match last_opt (values s) with
  | Some v => v
  | None => NaN
  end.

(** [missing] out of [total] as a percentage. *)
Definition missing_share (missing total : nat) : R :=
  (INR missing / INR total * 100)%R.

(** The share of missing prices of every column of a table. *)
Definition symbol_shares (prices_wide : DataFrame) : list (string * float) :=
  map (fun c => (fst c, Fin (missing_share (CcxtFrames.count_na (snd c)) (nrows prices_wide))))
      (df_columns prices_wide).

(** Characters that do not start with whitespace. *)
Definition starts_clean (l : list ascii) : Prop :=
  match l with
  | [] => True
  | c :: _ => CcxtData.is_space c = false
  end.

(** A symbol in the form [to_ccxt_symbol] works on: no whitespace at either
    end, no lower-case letter. *)
Definition stripped_upper (l : list ascii) : Prop :=
  starts_clean l /\ starts_clean (rev l) /\ map CcxtData.upper_char l = l.

(** The characters of a string are ASCII. *)
Definition is_ascii (s : string) : Prop :=
  Forall (fun c => CcxtData.code c < 128) (CcxtData.chars s).

(** The row of a pair read with its tickers in the other order. *)
Definition mirrored (row : PairExplorer.ViewRow) : PairExplorer.ViewRow :=
  PairExplorer.mkViewRow (PairExplorer.b row) (PairExplorer.a row)
    (fneg (PairExplorer.z row)) (PairExplorer.boll_breach row)
    (PairExplorer.bars_since_breach row) (PairExplorer.corr row)
    (PairExplorer.spread_vol row) (PairExplorer.opportunity row)
    (PairExplorer.error row).

(** The movement of a ticker over the lookback: the sum of its absolute log
    returns over the last [lookback_bars] rows, over all rows when the
    table has fewer. *)
Definition movement (logret : DataFrame) (lookback_bars : nat) (t : string) : float :=
  match lookup_column logret t with
  | Some xs =>
      nansum (map fabs (if lookback_bars <=? nrows logret then tail lookback_bars xs
                        else xs))
  | None => NaN
  end.

(** Sample data for the worked instances. *)
Definition sample_spread : Series float := [(0, Fin 1); (1, Fin 3)]%Z.

Definition sample_flat : Series float := [(0, Fin 1); (1, Fin 1); (2, Fin 3)]%Z.

Definition sample_prices : DataFrame :=
  mkDataFrame [0%Z] [("A", [Fin 1]); ("B", [Fin 1])]%string.

Definition default_settings : Settings := mkSettings 120 240 (Fin 2) (Fin 2).

(** * Properties *)

Unset Implicit Arguments.

(** ** Lists and labels *)

Lemma last_opt_snoc (A : Type) (l : list A) (x : A) : last_opt (l ++ [x]) = Some x.
Proof. unfold last_opt. now rewrite rev_unit. Qed.







(** ** Bars since breach *)

Section BarsSinceBreach.

Import Scanner.




End BarsSinceBreach.




(** ** Latest Bollinger breach *)

Lemma szip_snoc (A B C : Type) (f : A -> B -> C) (s1 : Series A) (s2 : Series B)
  (p : Z * A) (q : Z * B) :
  length s1 = length s2 ->
  szip f (s1 ++ [p]) (s2 ++ [q]) = szip f s1 s2 ++ [(fst p, f (snd p) (snd q))].
Proof.
  revert s2. induction s1 as [| x r1 IH]; intros [| y r2] Hlen; try discriminate.
  - reflexivity.
  - injection Hlen as Hlen. unfold szip in *. simpl. now rewrite IH.
Qed.

Lemma szip_length (A B C : Type) (f : A -> B -> C) (s1 : Series A) (s2 : Series B) :
  length s1 = length s2 -> length (szip f s1 s2) = length s1.
Proof.
  intros Hlen. unfold szip. rewrite length_map, length_combine. lia.
Qed.

Lemma index_snoc_inv (A : Type) (s : Series A) (l : list Z) (t : Z) :
  index s = l ++ [t] -> exists s' v, s = s' ++ [(t, v)] /\ index s' = l.
Proof.
  unfold index. intros H. apply map_eq_app in H as (s1 & s2 & -> & H1 & H2).
  destruct s2 as [| [t' v] [| ? ?]]; try discriminate.
  injection H2 as ->. now exists s1, v.
Qed.

Lemma index_length (A B : Type) (s1 : Series A) (s2 : Series B) :
  index s1 = index s2 -> length s1 = length s2.
Proof.
  unfold index. intros H. apply (f_equal (@length Z)) in H.
  now rewrite !length_map in H.
Qed.

Lemma iloc_last_snoc (A : Type) (s : Series A) (p : Z * A) :
  iloc_last (s ++ [p]) = Ok (snd p).
Proof.
  unfold iloc_last, values. rewrite map_app. cbn [map]. now rewrite last_opt_snoc.
Qed.

Lemma empty_snoc (A : Type) (l : list A) (x : A) : empty (l ++ [x]) = false.
Proof. now destruct l. Qed.

(** Comparisons with NaN are false, so the explicit NaN guard of
    [latest_boll_breach] changes nothing when the two bands are missing
    together. *)
Lemma nan_guard_redundant (x u l : float) :
  isnan u = isnan l ->
  (if isnan x || isnan u || isnan l then false else fgt x u || flt x l)
  = fgt x u || flt x l.
Proof. destruct x, u, l; try reflexivity; discriminate. Qed.

(** Both ways of reading the latest breach, on series over one index that
    end in [x], [u] and [l]. *)
Lemma latest_breach_both (sp up lo : Series float) (t : Z) (x u l : float) :
  index up = index sp -> index lo = index sp ->
  Spread.latest_boll_breach (sp ++ [(t, x)]) (up ++ [(t, u)]) (lo ++ [(t, l)])
  = Ok (if isnan x || isnan u || isnan l then false else fgt x u || flt x l)
  /\ iloc_last (Scanner._detect_bollinger_breach
                  (sp ++ [(t, x)]) (up ++ [(t, u)]) (lo ++ [(t, l)]))
     = Ok (fgt x u || flt x l).
Proof.
  intros Hup Hlo. apply index_length in Hup, Hlo. split.
  - unfold Spread.latest_boll_breach. rewrite !empty_snoc, !iloc_last_snoc.
    cbn [orb bind snd]. now destruct (isnan x || isnan u || isnan l).
  - unfold Scanner._detect_bollinger_breach.
    rewrite !szip_snoc; try congruence.
    + now rewrite iloc_last_snoc.
    + now rewrite !szip_length by congruence.
Qed.

(** The bands are missing together when they are a mean plus and minus one
    deviation and the mean is not infinite. *)
Lemma band_nan_together (m d : float) :
  isinf m = false -> isnan (fadd m d) = isnan (fsub m d).
Proof. destruct m, d; try reflexivity; discriminate. Qed.

(** ** Shape of elementwise and rolling operations *)

Lemma index_combine (A : Type) (idx : list Z) (xs : list A) :
  length idx = length xs -> index (combine idx xs) = idx.
Proof.
  unfold index. revert xs.
  induction idx as [| t r IH]; intros [| x xs] H; try discriminate; simpl.
  - reflexivity.
  - injection H as H. now rewrite IH.
Qed.

Lemma values_combine (A : Type) (idx : list Z) (xs : list A) :
  length idx = length xs -> values (combine idx xs) = xs.
Proof.
  unfold values. revert xs.
  induction idx as [| t r IH]; intros [| x xs] H; try discriminate; simpl.
  - reflexivity.
  - injection H as H. now rewrite IH.
Qed.

Lemma length_index (A : Type) (s : Series A) : length (index s) = length s.
Proof. unfold index. apply length_map. Qed.

Lemma length_values (A : Type) (s : Series A) : length (values s) = length s.
Proof. unfold values. apply length_map. Qed.

Lemma length_roll (agg : list R -> float) (w : nat) (xs : list float) :
  length (roll agg w xs) = length xs.
Proof. unfold roll. now rewrite length_map, length_seq. Qed.

Lemma index_rolling (agg : list R -> float) (w : nat) (s : Series float) :
  index (rolling agg w s) = index s.
Proof.
  unfold rolling. apply index_combine.
  now rewrite length_roll, length_index, length_values.
Qed.

Lemma values_rolling (agg : list R -> float) (w : nat) (s : Series float) :
  values (rolling agg w s) = roll agg w (values s).
Proof.
  unfold rolling. apply values_combine.
  now rewrite length_roll, length_index, length_values.
Qed.

Lemma length_rolling (agg : list R -> float) (w : nat) (s : Series float) :
  length (rolling agg w s) = length s.
Proof. now rewrite <- length_index, index_rolling, length_index. Qed.

Lemma index_szip (A B C : Type) (f : A -> B -> C) (s1 : Series A) (s2 : Series B) :
  length s1 = length s2 -> index (szip f s1 s2) = index s1.
Proof.
  revert s2. induction s1 as [| p r IH]; intros [| q r2] H; try discriminate.
  - reflexivity.
  - injection H as H. unfold szip, index in *. simpl. now rewrite IH.
Qed.

Lemma values_szip (A B C : Type) (f : A -> B -> C) (s1 : Series A) (s2 : Series B) :
  values (szip f s1 s2) = zip_with f (values s1) (values s2).
Proof.
  revert s2. induction s1 as [| p r IH]; intros [| q r2]; try reflexivity.
  unfold szip, values in *. simpl. now rewrite IH.
Qed.

Lemma length_zip_with (A B C : Type) (f : A -> B -> C) (l1 : list A) (l2 : list B) :
  length l1 = length l2 -> length (zip_with f l1 l2) = length l1.
Proof.
  revert l2. induction l1 as [| x r IH]; intros [| y r2] H; try discriminate.
  - reflexivity.
  - injection H as H. simpl. now rewrite IH.
Qed.

Lemma nth_zip_with (A B C : Type) (f : A -> B -> C) (l1 : list A) (l2 : list B)
  (i : nat) (d1 : A) (d2 : B) (d : C) :
  i < length l1 -> i < length l2 ->
  nth i (zip_with f l1 l2) d = f (nth i l1 d1) (nth i l2 d2).
Proof.
  revert l2 i. induction l1 as [| x r IH]; intros [| y r2] [| i] H1 H2;
    simpl in *; try lia; [reflexivity |].
  apply IH; lia.
Qed.

Lemma nth_roll (agg : list R -> float) (w : nat) (xs : list float) (i : nat) (d : float) :
  i < length xs -> nth i (roll agg w xs) d = roll_at agg w xs i.
Proof.
  intros Hi. unfold roll.
  rewrite (nth_indep _ d (roll_at agg w xs 0)) by now rewrite length_map, length_seq.
  rewrite map_nth, seq_nth by assumption. reflexivity.
Qed.

(** *** Windows *)

Lemma all_finite_In (l : list float) (obs : list R) (x : float) :
  all_finite l = Some obs -> In x l -> exists r, x = Fin r /\ In r obs.
Proof.
  revert obs. induction l as [| y rest IH]; intros obs Hall Hin; [contradiction |].
  simpl in Hall. destruct y as [| | | ry]; try discriminate.
  destruct (all_finite rest) as [rs |] eqn:E; [| discriminate].
  injection Hall as <-. destruct Hin as [<- | Hin].
  - exists ry. split; [reflexivity | now left].
  - destruct (IH rs eq_refl Hin) as (r & -> & Hr). exists r. split; [reflexivity | now right].
Qed.

(** The current row is in its own window. *)
Lemma window_has_current (w i : nat) (xs : list float) (d : float) :
  1 <= w -> i < length xs -> In (nth i xs d) (window w i xs).
Proof.
  intros Hw Hi. unfold window.
  replace (nth i xs d)
    with (nth (i - (i + 1 - w)) (skipn (i + 1 - w) (firstn (i + 1) xs)) d).
  - apply nth_In. rewrite length_skipn, length_firstn. lia.
  - rewrite nth_skipn, nth_firstn.
    replace (i + 1 - w + (i - (i + 1 - w))) with i by lia.
    destruct (Nat.ltb_spec i (i + 1)); [reflexivity | lia].
Qed.

(** A rolling mean is a number or NaN, never an infinity. *)
Lemma roll_mean_not_inf (w : nat) (xs : list float) (i : nat) :
  isinf (roll_at agg_mean w xs i) = false.
Proof.
  unfold roll_at. destruct (i + 1 <? w); [reflexivity |].
  destruct (all_finite (window w i xs)) as [[| r obs] |]; reflexivity.
Qed.

Lemma Rltb_true (x y : R) : (x < y)%R -> Rltb x y = true.
Proof. intros H. unfold Rltb. now destruct (Rlt_dec x y). Qed.

Lemma Rltb_false (x y : R) : (y <= x)%R -> Rltb x y = false.
Proof. intros H. unfold Rltb. destruct (Rlt_dec x y); [lra | reflexivity]. Qed.

Lemma Reqb_true (x y : R) : x = y -> Reqb x y = true.
Proof. intros H. unfold Reqb. now destruct (Req_dec_T x y). Qed.

Lemma Reqb_false (x y : R) : x <> y -> Reqb x y = false.
Proof. intros H. unfold Reqb. now destruct (Req_dec_T x y). Qed.

Lemma Forall2_snoc_inv (A B : Type) (P : A -> B -> Prop) (l1 : list A) (l2 : list B)
  (x : A) (y : B) :
  Forall2 P (l1 ++ [x]) (l2 ++ [y]) -> P x y.
Proof.
  revert l2. induction l1 as [| a r IH]; intros [| b r2] H; simpl in H.
  - now inversion H.
  - inversion H as [| ? ? ? ? _ Hr]; subst. destruct r2; inversion Hr.
  - inversion H as [| ? ? ? ? _ Hr]; subst. destruct r; inversion Hr.
  - inversion H; subst. eauto.
Qed.

Lemma bands_zip_missing_together (M D : Series float) :
  Forall (fun p => isinf (snd p) = false) M ->
  Forall2 (fun p q => isnan (snd p) = isnan (snd q)) (szip fadd M D) (szip fsub M D).
Proof.
  revert D. induction M as [| m r IH]; intros [| d r2] HM;
    try (unfold szip; simpl; constructor).
  - inversion HM; subst. cbn [fst snd]. now apply band_nan_together.
  - inversion HM; subst. now apply IH.
Qed.

Lemma rolling_mean_not_inf (w : nat) (s : Series float) :
  Forall (fun p => isinf (snd p) = false) (rolling_mean w s).
Proof.
  apply Forall_forall. intros [t v] Hin.
  unfold rolling_mean, rolling, roll in Hin. apply in_combine_r in Hin.
  apply in_map_iff in Hin as (i & <- & _). apply roll_mean_not_inf.
Qed.

(** The bands the scanner and the spread module compute from a spread
    share its index and are missing together. *)
Lemma computed_bands_shape (spread : Series float) (w : nat) (k : float) :
  let bands := Scanner._compute_bollinger_bands spread w k in
  Spread.bollinger_bands spread w k = (rolling_mean w spread, fst bands, snd bands)
  /\ index (fst bands) = index spread
  /\ index (snd bands) = index spread
  /\ bands_missing_together (fst bands) (snd bands).
Proof.
  cbn zeta. unfold Scanner._compute_bollinger_bands. cbn [fst snd].
  assert (Hlen : length (rolling_mean w spread)
                 = length (smap (fmul k) (rolling_std w spread))).
  { unfold smap. rewrite length_map. unfold rolling_mean, rolling_std.
    now rewrite !length_rolling. }
  split; [reflexivity |].
  split; [| split].
  - rewrite index_szip by assumption. apply index_rolling.
  - rewrite index_szip by assumption. apply index_rolling.
  - intros u l Hu Hl.
    pose proof (bands_zip_missing_together (rolling_mean w spread)
                  (smap (fmul k) (rolling_std w spread))
                  (rolling_mean_not_inf w spread)) as Hall.
    destruct (szip fadd (rolling_mean w spread) (smap (fmul k) (rolling_std w spread)))
      as [| p0 up0] eqn:Eup; [discriminate |].
    destruct (szip fsub (rolling_mean w spread) (smap (fmul k) (rolling_std w spread)))
      as [| q0 lo0] eqn:Elo; [discriminate |].
    destruct (exists_last (l := p0 :: up0)) as [up [[tu vu] Hup]]; [discriminate |].
    destruct (exists_last (l := q0 :: lo0)) as [lo [[tl vl] Hlo]]; [discriminate |].
    rewrite Hup, Hlo in *. rewrite iloc_last_snoc in Hu, Hl.
    injection Hu as <-. injection Hl as <-.
    now apply Forall2_snoc_inv in Hall.
Qed.

(** C10, as the code has it.  For a spread and two bands over one index
    whose latest values are missing together, [latest_boll_breach] returns
    what the scanner reads off the end of the elementwise breach series; on
    a non-empty series both are false when the latest spread or band is
    NaN, and otherwise tell whether the latest spread lies strictly above
    the upper or strictly below the lower band. *)
Theorem latest_boll_breach_agrees (spread upper lower : Series float)
  (Hupper : index upper = index spread) (Hlower : index lower = index spread)
  (Hbands : bands_missing_together upper lower) :
  Spread.latest_boll_breach spread upper lower
  = Scanner.latest_breach_of (Scanner._detect_bollinger_breach spread upper lower)
  /\ (spread <> [] ->
      Spread.latest_boll_breach spread upper lower
      = iloc_last (Scanner._detect_bollinger_breach spread upper lower)
      /\ exists x u l,
          iloc_last spread = Ok x /\ iloc_last upper = Ok u /\ iloc_last lower = Ok l
          /\ Spread.latest_boll_breach spread upper lower
             = Ok (if isnan x || isnan u || isnan l then false
                   else fgt x u || flt x l)).
Proof.
  destruct spread as [| p0 rest].
  - destruct upper; [| discriminate]. destruct lower; [| discriminate].
    split; [reflexivity | intros H; now contradiction H].
  - destruct (exists_last (l := p0 :: rest)) as [sp [[t x] Hsp]]; [discriminate |].
    rewrite Hsp in *. clear Hsp p0 rest.
    assert (Hidx : index (sp ++ [(t, x)]) = index sp ++ [t])
      by (unfold index; now rewrite map_app).
    rewrite Hidx in *.
    apply index_snoc_inv in Hupper as (up & u & -> & Hup).
    apply index_snoc_inv in Hlower as (lo & l & -> & Hlo).
    destruct (latest_breach_both sp up lo t x u l Hup Hlo) as [Hlatest Hbreach].
    assert (Hnan : isnan u = isnan l)
      by (apply Hbands; now rewrite iloc_last_snoc).
    assert (Hne : empty (Scanner._detect_bollinger_breach
                           (sp ++ [(t, x)]) (up ++ [(t, u)]) (lo ++ [(t, l)])) = false).
    { destruct (Scanner._detect_bollinger_breach _ _ _); [discriminate | reflexivity]. }
    unfold Scanner.latest_breach_of. rewrite Hne, Hbreach, Hlatest.
    rewrite nan_guard_redundant by assumption.
    split; [reflexivity | intros _; split; [reflexivity |]].
    exists x, u, l. rewrite !iloc_last_snoc.
    now rewrite nan_guard_redundant.
Qed.

(** The agreement on the bands computed from the spread itself. *)
Corollary latest_boll_breach_on_computed_bands (spread : Series float) (w : nat)
  (k : float) :
  let bands := Scanner._compute_bollinger_bands spread w k in
  Spread.latest_boll_breach spread (fst bands) (snd bands)
  = Scanner.latest_breach_of
      (Scanner._detect_bollinger_breach spread (fst bands) (snd bands)).
Proof.
  destruct (computed_bands_shape spread w k) as (_ & Hu & Hl & Hb). cbn zeta.
  destruct (Scanner._compute_bollinger_bands spread w k) as [upper lower].
  cbn [fst snd] in *.
  destruct spread as [| p0 rest].
  - destruct upper; [| discriminate]. now destruct lower.
  - destruct (exists_last (l := p0 :: rest)) as [sp [[t x] Hsp]]; [discriminate |].
    rewrite Hsp in *. clear Hsp p0 rest.
    unfold index in Hu, Hl. rewrite map_app in Hu, Hl. cbn [map fst] in Hu, Hl.
    apply index_snoc_inv in Hu as (up & u & -> & Hup).
    apply index_snoc_inv in Hl as (lo & l & -> & Hlo).
    destruct (latest_breach_both sp up lo t x u l Hup Hlo) as [Hlatest Hbreach].
    unfold Scanner.latest_breach_of. rewrite Hbreach, Hlatest.
    rewrite nan_guard_redundant
      by (apply Hb; now rewrite iloc_last_snoc).
    now destruct (Scanner._detect_bollinger_breach _ _ _).
Qed.

Lemma latest_boll_breach_agrees_witness :
  Spread.latest_boll_breach sample_spread
    (fst (Scanner._compute_bollinger_bands sample_spread 2 (Fin 2)))
    (snd (Scanner._compute_bollinger_bands sample_spread 2 (Fin 2)))
  = Scanner.latest_breach_of
      (Scanner._detect_bollinger_breach sample_spread
         (fst (Scanner._compute_bollinger_bands sample_spread 2 (Fin 2)))
         (snd (Scanner._compute_bollinger_bands sample_spread 2 (Fin 2)))).
Proof.
  destruct (computed_bands_shape sample_spread 2 (Fin 2)) as (_ & Hu & Hl & Hb).
  exact (proj1 (latest_boll_breach_agrees sample_spread _ _ Hu Hl Hb)).
Defined.

(** C10 as stated fails: with the spread above the upper band and the lower
    band missing, [latest_boll_breach] says false and the breach series
    ends in true. *)
Lemma latest_boll_breach_differs :
  index [(0%Z, Fin 1)] = index [(0%Z, Fin 5)]
  /\ index [(0%Z, NaN)] = index [(0%Z, Fin 5)]
  /\ Spread.latest_boll_breach [(0%Z, Fin 5)] [(0%Z, Fin 1)] [(0%Z, NaN)] = Ok false
  /\ iloc_last (Scanner._detect_bollinger_breach
                  [(0%Z, Fin 5)] [(0%Z, Fin 1)] [(0%Z, NaN)]) = Ok true
  /\ Spread.latest_boll_breach [(0%Z, Fin 5)] [(0%Z, Fin 1)] [(0%Z, NaN)]
     <> iloc_last (Scanner._detect_bollinger_breach
                     [(0%Z, Fin 5)] [(0%Z, Fin 1)] [(0%Z, NaN)]).
Proof.
  assert (H : Rltb 1 5 = true) by (apply Rltb_true; lra).
  repeat split; try reflexivity.
  - cbv [Scanner._detect_bollinger_breach szip combine map fst snd iloc_last values
           last_opt rev app fgt flt orb]. now rewrite H.
  - cbv [Scanner._detect_bollinger_breach szip combine map fst snd iloc_last values
           last_opt rev app fgt flt orb Spread.latest_boll_breach empty bind isnan].
    rewrite H. discriminate.
Qed.

(** ** Rolling z-score *)

Lemma Rsum_cons (x : R) (l : list R) : Rsum (x :: l) = (x + Rsum l)%R.
Proof. reflexivity. Qed.

Lemma Rsum_squares_nonneg (m : R) (l : list R) :
  (0 <= Rsum (map (fun x => (x - m) * (x - m)) l))%R.
Proof.
  induction l as [| x rest IH]; [simpl; lra |].
  cbn [map]. rewrite Rsum_cons.
  pose proof (Rle_0_sqr (x - m)) as Hsq. unfold Rsqr in Hsq. lra.
Qed.

Lemma Rsum_squares_zero (m r : R) (l : list R) :
  Rsum (map (fun x => (x - m) * (x - m))%R l) = 0%R -> In r l -> r = m.
Proof.
  induction l as [| x rest IH]; intros Hsum Hin; [contradiction |].
  cbn [map] in Hsum. rewrite Rsum_cons in Hsum.
  pose proof (Rsum_squares_nonneg m rest) as Hrest.
  pose proof (Rle_0_sqr (x - m)) as Hsq. unfold Rsqr in Hsq.
  destruct Hin as [-> | Hin].
  - assert (Hz : ((r - m) * (r - m) = 0)%R) by lra.
    apply Rmult_integral in Hz. lra.
  - apply IH; [lra | assumption].
Qed.

(** A window of zero sample variance is constant. *)
Lemma var_zero_constant (obs : list R) (r : R) :
  1 < length obs -> var_R obs = 0%R -> In r obs -> r = mean_R obs.
Proof.
  intros Hlen Hvar Hin. unfold var_R in Hvar.
  assert (Hn : (0 < INR (length obs) - 1)%R).
  { apply lt_INR in Hlen. simpl in Hlen. lra. }
  apply Rsum_squares_zero with (l := obs); [| assumption].
  unfold Rdiv in Hvar. apply Rmult_integral in Hvar as [H | H]; [assumption |].
  exfalso. apply (Rinv_neq_0_compat (INR (length obs) - 1)); [lra | assumption].
Qed.

(** What a defined rolling deviation says about its window. *)
Lemma roll_std_defined (w i : nat) (xs : list float) (sd : R) :
  1 <= w -> i < length xs ->
  roll_at agg_std w xs i = Fin sd ->
  exists r obs,
    nth i xs NaN = Fin r /\ In r obs /\ 1 < length obs
    /\ roll_at agg_mean w xs i = Fin (mean_R obs)
    /\ (0 <= var_R obs)%R /\ sd = sqrt (var_R obs).
Proof.
  intros Hw Hi. unfold roll_at.
  destruct (i + 1 <? w); [discriminate |].
  destruct (all_finite (window w i xs)) as [obs |] eqn:Hobs; [| discriminate].
  unfold agg_std, agg_var. destruct (Nat.leb_spec (length obs) 1); [discriminate |].
  cbn [fsqrt]. unfold Rltb. destruct (Rlt_dec (var_R obs) 0); [discriminate |].
  intros Hsd. injection Hsd as <-.
  destruct (all_finite_In _ _ _ Hobs (window_has_current w i xs NaN Hw Hi))
    as (r & Hr & Hin).
  exists r, obs. repeat split; try assumption; try lra.
  unfold agg_mean. destruct obs; [simpl in *; lia | reflexivity].
Qed.

(** A rolling deviation is a number or NaN. *)
Lemma roll_std_not_inf (w i : nat) (xs : list float) :
  isinf (roll_at agg_std w xs i) = false.
Proof.
  unfold roll_at. destruct (i + 1 <? w); [reflexivity |].
  destruct (all_finite (window w i xs)) as [obs |]; [| reflexivity].
  unfold agg_std, agg_var. destruct (length obs <=? 1); [reflexivity |].
  cbn [fsqrt]. now destruct (Rltb (var_R obs) 0).
Qed.

Lemma zscore_at (series : Series float) (w i : nat) (d : float) :
  i < length series ->
  nth i (values (Spread.zscore series w)) d
  = fdiv (fsub (nth i (values series) NaN) (roll_at agg_mean w (values series) i))
         (roll_at agg_std w (values series) i).
Proof.
  intros Hi. unfold Spread.zscore, rolling_mean, rolling_std.
  rewrite !values_szip, !values_rolling.
  assert (Hx : i < length (values series)) by now rewrite length_values.
  rewrite (nth_zip_with _ _ _ _ _ _ _ NaN NaN);
    [| rewrite length_zip_with | ]; rewrite ?length_roll; try easy.
  rewrite (nth_zip_with _ _ _ _ _ _ _ NaN NaN); rewrite ?length_roll; try easy.
  now rewrite !(nth_roll _ _ _ _ _ Hx).
Qed.

Lemma zscore_length (series : Series float) (w : nat) :
  length (Spread.zscore series w) = length series.
Proof.
  unfold Spread.zscore, rolling_mean, rolling_std.
  rewrite !szip_length; rewrite ?szip_length; now rewrite ?length_rolling.
Qed.






(** ** Insertion sort *)

Section SortBy.

Variable A : Type.
Variable le : A -> A -> bool.

Let R (x y : A) : Prop := le x y = true.

Lemma insert_by_perm (x : A) (l : list A) : Permutation (x :: l) (insert_by le x l).
Proof.
  induction l as [| y rest IH]; simpl; [apply Permutation_refl |].
  destruct (le x y); [apply Permutation_refl |].
  eapply perm_trans; [apply perm_swap |]. now apply perm_skip.
Qed.

Lemma sort_by_perm (l : list A) : Permutation l (sort_by le l).
Proof.
  induction l as [| x rest IH]; simpl; [constructor |].
  eapply perm_trans; [apply perm_skip, IH |]. apply insert_by_perm.
Qed.

(** The order need only be total and transitive on the elements sorted. *)
Variable P : A -> Prop.
Hypothesis le_total : forall x y, P x -> P y -> le x y = true \/ le y x = true.
Hypothesis le_trans :
  forall x y z, P x -> P y -> P z -> le x y = true -> le y z = true -> le x z = true.

Lemma insert_by_sorted (x : A) (l : list A) :
  P x -> Forall P l -> StronglySorted R l -> StronglySorted R (insert_by le x l).
Proof.
  intros Hx HP Hsorted. induction Hsorted as [| y rest Hsorted IH Hall]; simpl.
  - repeat constructor.
  - inversion HP as [| ? ? Hy Hrest]; subst.
    destruct (le x y) eqn:Hxy.
    + constructor; [now constructor |].
      constructor; [exact Hxy |].
      apply Forall_forall. intros z Hz.
      apply (le_trans x y z); try assumption.
      * exact (proj1 (Forall_forall _ _) Hrest z Hz).
      * exact (proj1 (Forall_forall _ _) Hall z Hz).
    + constructor; [now apply IH |].
      assert (Hyx : R y x) by (destruct (le_total x y Hx Hy); [congruence | assumption]).
      eapply Permutation_Forall; [apply insert_by_perm |]. now constructor.
Qed.

Lemma sort_by_sorted (l : list A) : Forall P l -> StronglySorted R (sort_by le l).
Proof.
  induction 1 as [| x rest Hx Hrest IH]; simpl; [constructor |].
  apply insert_by_sorted; try assumption.
  eapply Permutation_Forall; [apply sort_by_perm | assumption].
Qed.

End SortBy.

(** ** Lexical order of tickers *)

Lemma ascii_compare_lt_trans (a b c : ascii) :
  Ascii.compare a b = Lt -> Ascii.compare b c = Lt -> Ascii.compare a c = Lt.
Proof.
  unfold Ascii.compare. rewrite !N.compare_lt_iff. apply N.lt_trans.
Qed.

Lemma ascii_compare_refl (a : ascii) : Ascii.compare a a = Eq.
Proof. unfold Ascii.compare. apply N.compare_refl. Qed.

Lemma string_compare_refl (s : string) : String.compare s s = Eq.
Proof.
  induction s as [| c s IH]; simpl; [reflexivity |].
  now rewrite ascii_compare_refl.
Qed.

Lemma string_compare_lt_trans (x y z : string) :
  String.compare x y = Lt -> String.compare y z = Lt -> String.compare x z = Lt.
Proof.
  revert y z. induction x as [| a x IH]; intros [| b y] [| c z]; simpl;
    try congruence.
  destruct (Ascii.compare a b) eqn:Hab, (Ascii.compare b c) eqn:Hbc;
    try congruence; intros H1 H2.
  - apply Ascii.compare_eq_iff in Hab, Hbc. subst.
    rewrite ascii_compare_refl. eauto.
  - apply Ascii.compare_eq_iff in Hab. subst. now rewrite Hbc.
  - apply Ascii.compare_eq_iff in Hbc. subst. now rewrite Hab.
  - now rewrite (ascii_compare_lt_trans _ _ _ Hab Hbc).
Qed.

Lemma string_leb_trans (x y z : string) :
  String.leb x y = true -> String.leb y z = true -> String.leb x z = true.
Proof.
  unfold String.leb.
  destruct (String.compare x y) eqn:Hxy; try discriminate; intros _;
    destruct (String.compare y z) eqn:Hyz; try discriminate; intros _.
  - apply String.compare_eq_iff in Hxy, Hyz. subst. now rewrite string_compare_refl.
  - apply String.compare_eq_iff in Hxy. subst. now rewrite Hyz.
  - apply String.compare_eq_iff in Hyz. subst. now rewrite Hxy.
  - now rewrite (string_compare_lt_trans _ _ _ Hxy Hyz).
Qed.

Lemma string_ltb_leb (x y : string) :
  String.leb x y = true -> x <> y -> String.ltb x y = true.
Proof.
  unfold String.leb, String.ltb. destruct (String.compare x y) eqn:H; try easy.
  apply String.compare_eq_iff in H. congruence.
Qed.

Lemma sorted_perm (l : list string) : Permutation l (sorted l).
Proof. apply sort_by_perm. Qed.

Lemma sorted_ascending (l : list string) :
  StronglySorted (fun x y => String.leb x y = true) (sorted l).
Proof.
  apply sort_by_sorted with (P := fun _ => True).
  - intros x y _ _. apply String.leb_total.
  - intros x y z _ _ _. apply string_leb_trans.
  - apply Forall_forall. easy.
Qed.

(** ** Pair enumeration *)

Section Combinations.

Variable A : Type.

Lemma combinations2_double (l : list A) :
  2 * length (combinations2 l) = length l * (length l - 1).
Proof.
  induction l as [| x rest IH]; [reflexivity |].
  cbn [combinations2 length]. rewrite length_app, length_map.
  replace (S (length rest) - 1) with (length rest) by lia.
  destruct rest as [| y r]; [reflexivity |].
  cbn [length] in *. nia.
Qed.

Lemma combinations2_count (l : list A) :
  length (combinations2 l) = length l * (length l - 1) / 2.
Proof.
  rewrite <- combinations2_double, Nat.mul_comm. symmetry. now apply Nat.div_mul.
Qed.

Lemma combinations2_members (l : list A) (p q : A) :
  In (p, q) (combinations2 l) -> In p l /\ In q l.
Proof.
  induction l as [| x rest IH]; [contradiction |].
  cbn [combinations2]. intros Hin. apply in_app_or in Hin as [Hin | Hin].
  - apply in_map_iff in Hin as (y & Heq & Hy). injection Heq as <- <-.
    split; [now left | now right].
  - destruct (IH Hin). split; now right.
Qed.

(** The first component of a pair stands before the second in the list. *)
Lemma combinations2_in_order (Rel : A -> A -> Prop) (l : list A) (p q : A) :
  StronglySorted Rel l -> In (p, q) (combinations2 l) -> Rel p q.
Proof.
  induction 1 as [| x rest Hsorted IH Hall]; [contradiction |].
  cbn [combinations2]. intros Hin. apply in_app_or in Hin as [Hin | Hin].
  - apply in_map_iff in Hin as (y & Heq & Hy). injection Heq as <- <-.
    now apply (proj1 (Forall_forall _ _) Hall).
  - now apply IH.
Qed.

Lemma combinations2_complete (l : list A) (p q : A) :
  In p l -> In q l -> p <> q ->
  In (p, q) (combinations2 l) \/ In (q, p) (combinations2 l).
Proof.
  induction l as [| x rest IH]; [contradiction |].
  intros [-> | Hp] [-> | Hq] Hne; cbn [combinations2].
  - congruence.
  - left. apply in_or_app. left. now apply in_map.
  - right. apply in_or_app. left. now apply in_map.
  - destruct (IH Hp Hq Hne); [left | right]; apply in_or_app; now right.
Qed.

Lemma combinations2_NoDup (l : list A) : NoDup l -> NoDup (combinations2 l).
Proof.
  induction 1 as [| x rest Hnotin Hnd IH]; [constructor |].
  cbn [combinations2]. apply NoDup_app.
  - apply Finite.Injective_map_NoDup; [| assumption].
    intros y1 y2 Heq. now injection Heq.
  - assumption.
  - intros [p q] Hin1 Hin2.
    apply in_map_iff in Hin1 as (y & Heq & _). injection Heq as <- <-.
    apply combinations2_members in Hin2 as [Hx _]. contradiction.
Qed.

Lemma combinations2_one_direction (l : list A) (p q : A) :
  NoDup l -> In (p, q) (combinations2 l) -> ~ In (q, p) (combinations2 l).
Proof.
  induction 1 as [| x rest Hnotin Hnd IH]; [contradiction |].
  cbn [combinations2]. intros Hin Hflip.
  apply in_app_or in Hin as [Hin | Hin]; apply in_app_or in Hflip as [Hflip | Hflip].
  - apply in_map_iff in Hin as (y & Heq & Hy). injection Heq as <- <-.
    apply in_map_iff in Hflip as (y' & Heq' & _). injection Heq' as <- _.
    contradiction.
  - apply in_map_iff in Hin as (y & Heq & _). injection Heq as <- <-.
    apply combinations2_members in Hflip as [_ Hx]. contradiction.
  - apply in_map_iff in Hflip as (y & Heq & _). injection Heq as <- <-.
    apply combinations2_members in Hin as [_ Hx]. contradiction.
  - now apply IH.
Qed.

End Combinations.

(** The pairs of a basket of [n] distinct tickers, whatever their order:
    [n*(n-1)/2] pairs, none repeated, and every two tickers of the basket in
    exactly one of the two directions. *)
Lemma pairs_each_once (tickers : list string) :
  NoDup tickers ->
  length (combinations2 tickers) = length tickers * (length tickers - 1) / 2
  /\ NoDup (combinations2 tickers)
  /\ (forall p q, In (p, q) (combinations2 tickers) ->
      In p tickers /\ In q tickers /\ p <> q /\ ~ In (q, p) (combinations2 tickers))
  /\ (forall p q, In p tickers -> In q tickers -> p <> q ->
      In (p, q) (combinations2 tickers) \/ In (q, p) (combinations2 tickers)).
Proof.
  intros Hnd. split; [apply combinations2_count |].
  split; [now apply combinations2_NoDup |].
  split; [| intros p q; now apply combinations2_complete].
  intros p q Hin. destruct (combinations2_members _ _ _ _ Hin) as [Hp Hq].
  pose proof (combinations2_one_direction _ _ _ _ Hnd Hin) as Hflip.
  repeat split; try assumption. intros ->. contradiction.
Qed.

(** On the Pair Explorer page the tickers are sorted first: the claim of C3
    holds there for every basket of distinct valid tickers. *)
Lemma page_pairs_ordered (valid_tickers : list string) :
  NoDup valid_tickers -> 2 <= length valid_tickers ->
  length (PairExplorer.pairs valid_tickers)
  = length valid_tickers * (length valid_tickers - 1) / 2
  /\ NoDup (PairExplorer.pairs valid_tickers)
  /\ (forall p q, In p valid_tickers -> In q valid_tickers -> p <> q ->
      (In (p, q) (PairExplorer.pairs valid_tickers)
       /\ ~ In (q, p) (PairExplorer.pairs valid_tickers))
      \/ (In (q, p) (PairExplorer.pairs valid_tickers)
          /\ ~ In (p, q) (PairExplorer.pairs valid_tickers)))
  /\ (forall p q, In (p, q) (PairExplorer.pairs valid_tickers) ->
      String.ltb p q = true).
Proof.
  intros Hnd _. unfold PairExplorer.pairs.
  pose proof (sorted_perm valid_tickers) as Hperm.
  assert (Hnd' : NoDup (sorted valid_tickers)) by (eapply Permutation_NoDup; eauto).
  destruct (pairs_each_once _ Hnd') as (Hcount & Hnodup & Hmem & Hcomplete).
  split; [now rewrite Hcount, <- (Permutation_length Hperm) |].
  split; [assumption |].
  split.
  - intros p q Hp Hq Hne.
    destruct (Hcomplete p q) as [H | H];
      try (eapply Permutation_in; eassumption); try assumption.
    + left. split; [assumption |]. intros Hflip. now apply Hmem in Hflip.
    + right. split; [assumption |]. intros Hflip. now apply Hmem in Hflip.
  - intros p q Hin. apply string_ltb_leb.
    + exact (combinations2_in_order _ _ _ _ _ (sorted_ascending valid_tickers) Hin).
    + now apply Hmem in Hin.
Qed.

(** ** Order of floats *)

Ltac float_order :=
  unfold fle, fge, fgt, flt, feq, Rltb, Reqb in *;
  repeat match goal with
         | |- context [Rlt_dec ?a ?b] => destruct (Rlt_dec a b)
         | |- context [Req_dec_T ?a ?b] => destruct (Req_dec_T a b)
         | H : context [Rlt_dec ?a ?b] |- _ => destruct (Rlt_dec a b)
         | H : context [Req_dec_T ?a ?b] |- _ => destruct (Req_dec_T a b)
         end;
  simpl in *; try discriminate; try lra; auto.

Lemma fle_total (x y : float) :
  isnan x = false -> isnan y = false -> fle x y = true \/ fle y x = true.
Proof. destruct x, y; intros Hx Hy; try discriminate; float_order. Qed.

Lemma fle_trans (x y z : float) :
  fle x y = true -> fle y z = true -> fle x z = true.
Proof. destruct x, y, z; intros Hxy Hyz; float_order. Qed.

Lemma fle_fge (x y : float) : fle x y = true -> fge y x = true.
Proof. destruct x, y; intros H; float_order. Qed.

(** ** Sorting by one key *)

Lemma StronglySorted_snoc (A : Type) (Rel : A -> A -> Prop) (l : list A) (x : A) :
  StronglySorted Rel l -> Forall (fun y => Rel y x) l -> StronglySorted Rel (l ++ [x]).
Proof.
  induction 1 as [| y rest Hsorted IH Hall]; intros Hx; simpl.
  - repeat constructor.
  - inversion Hx; subst. constructor; [now apply IH |].
    apply Forall_app. split; [assumption | now constructor].
Qed.

Lemma StronglySorted_weaken (A : Type) (R1 R2 : A -> A -> Prop) (l : list A) :
  (forall x y, R1 x y -> R2 x y) -> StronglySorted R1 l -> StronglySorted R2 l.
Proof.
  intros Himp. induction 1 as [| y rest Hsorted IH Hall]; constructor; [assumption |].
  eapply Forall_impl; [| exact Hall]. intros z. apply Himp.
Qed.

Lemma StronglySorted_rev (A : Type) (Rel : A -> A -> Prop) (l : list A) :
  StronglySorted Rel l -> StronglySorted (fun x y => Rel y x) (rev l).
Proof.
  induction 1 as [| y rest Hsorted IH Hall]; simpl; [constructor |].
  apply StronglySorted_snoc; [assumption | now apply Forall_rev].
Qed.

Lemma filter_split_perm (A : Type) (f : A -> bool) (l : list A) :
  Permutation l (filter (fun x => negb (f x)) l ++ filter f l).
Proof.
  induction l as [| x rest IH]; simpl; [constructor |].
  destruct (f x); simpl.
  - now apply Permutation_cons_app.
  - now apply perm_skip.
Qed.

Lemma Forall_filter_true (A : Type) (f : A -> bool) (l : list A) :
  Forall (fun x => f x = true) (filter f l).
Proof. apply Forall_forall. intros x Hin. now apply filter_In in Hin. Qed.

Section Nargsort.

Variable A : Type.
Variable key : A -> float.

Lemma nargsort_perm (ascending na_last : bool) (rows : list A) :
  Permutation rows (nargsort key ascending na_last rows).
Proof.
  unfold nargsort.
  set (non_nans := filter (fun r => negb (isnan (key r))) rows).
  set (nans := filter (fun r => isnan (key r)) rows).
  assert (Hsorted : Permutation non_nans
            (if ascending
             then sort_by (fun r1 r2 => fle (key r1) (key r2)) non_nans
             else rev (sort_by (fun r1 r2 => fle (key r1) (key r2)) (rev non_nans)))).
  { destruct ascending; [apply sort_by_perm |].
    eapply perm_trans; [apply Permutation_rev |].
    eapply perm_trans; [apply sort_by_perm |]. apply Permutation_rev. }
  eapply perm_trans; [apply (filter_split_perm _ (fun r => isnan (key r))) |].
  fold non_nans nans.
  destruct na_last.
  - now apply Permutation_app_tail.
  - eapply perm_trans; [apply Permutation_app_comm |]. now apply Permutation_app_head.
Qed.

(** A descending sort with the missing keys last. *)
Lemma nargsort_desc_nan_last (rows : list A) :
  desc_nan_last key (nargsort key false true rows).
Proof.
  unfold nargsort.
  set (non_nans := filter (fun r => negb (isnan (key r))) rows).
  set (by_key := fun r1 r2 => fle (key r1) (key r2)).
  assert (Hdef : Forall (fun r => isnan (key r) = false) non_nans).
  { eapply Forall_impl; [| apply Forall_filter_true].
    intros r Hr. now apply negb_true_iff in Hr. }
  exists (rev (sort_by by_key (rev non_nans))), (filter (fun r => isnan (key r)) rows).
  split; [reflexivity |].
  split; [| split].
  - apply Forall_rev. eapply Permutation_Forall; [apply sort_by_perm |].
    now apply Forall_rev.
  - apply Forall_filter_true.
  - assert (Hasc : StronglySorted (fun r1 r2 => by_key r1 r2 = true)
                     (sort_by by_key (rev non_nans))).
    { apply sort_by_sorted with (P := fun r => isnan (key r) = false).
      - intros x y Hx Hy. now apply fle_total.
      - intros x y z _ _ _. apply fle_trans.
      - now apply Forall_rev. }
    apply StronglySorted_rev in Hasc.
    eapply StronglySorted_weaken; [| exact Hasc].
    intros r1 r2 H. now apply fle_fge.
Qed.

End Nargsort.

Lemma sort_values_desc_last (A : Type) (key : A -> float) (rows : list A) :
  sort_values key [("ascending", KBool false); ("na_position", KStr "last")]%string rows
  = Ok (nargsort key false true rows).
Proof. reflexivity. Qed.

Lemma sort_values_na_last_keyword (A : Type) (key : A -> float) (rows : list A) :
  sort_values key [("ascending", KBool false); ("na_last", KBool true)]%string rows
  = Raise TypeError.
Proof. reflexivity. Qed.

(** On the Pair Explorer page the default sort returns the filtered rows in
    descending order of |z|, rows without a z-score last. *)
Lemma page_default_sort (c : PairExplorer.Controls) (df_all : list PairExplorer.ViewRow) :
  PairExplorer.sort_by_key c = PairExplorer.default_sort_key ->
  exists out,
    PairExplorer.df_view c df_all = Ok out
    /\ Permutation (PairExplorer.apply_filters c df_all) out
    /\ desc_nan_last (fun r => fabs (PairExplorer.z r)) out.
Proof.
  intros Hkey. unfold PairExplorer.df_view, PairExplorer.apply_sorting.
  rewrite Hkey. cbn [PairExplorer.default_sort_key]. rewrite sort_values_desc_last.
  eexists. split; [reflexivity |]. split.
  - apply nargsort_perm.
  - apply nargsort_desc_nan_last.
Qed.

(** ** The pair scan of the scanner module *)

Lemma scan_pairs_raises_on_rows (prices_wide : DataFrame) (basket_tickers : list string)
  (settings : Settings) :
  Scanner.pair_results prices_wide (Metrics.log_returns prices_wide) settings
    (Scanner.pairs basket_tickers) <> [] ->
  Scanner.scan_pairs_in_basket prices_wide basket_tickers settings = Raise TypeError.
Proof.
  intros Hrows. unfold Scanner.scan_pairs_in_basket. cbn zeta.
  destruct (Scanner.pair_results _ _ _ _) as [| row rows]; [congruence |].
  cbn [empty negb]. apply sort_values_na_last_keyword.
Qed.

Lemma lookup_in_columns (df : DataFrame) (t : string) :
  in_columns t df = true ->
  exists xs, lookup_column df t = Some xs /\ In (t, xs) (df_columns df).
Proof.
  unfold in_columns, columns, lookup_column.
  induction (df_columns df) as [| [name xs] rest IH]; simpl; [discriminate |].
  rewrite (String.eqb_sym name t).
  destruct (String.eqb_spec t name) as [-> | Hne]; simpl.
  - intros _. exists xs. split; [reflexivity | now left].
  - intros H. destruct (IH H) as (ys & Hfind & Hin). exists ys. split; [assumption | now right].
Qed.

Lemma lookup_map_columns (f : list float -> list float) (df : DataFrame) (t : string) :
  lookup_column (map_columns f df) t
  = match lookup_column df t with Some xs => Some (f xs) | None => None end.
Proof.
  unfold lookup_column, map_columns. cbn [df_columns].
  induction (df_columns df) as [| [name xs] rest IH]; simpl; [reflexivity |].
  now destruct (String.eqb name t).
Qed.

Lemma in_columns_map_columns (f : list float -> list float) (df : DataFrame) (t : string) :
  in_columns t (map_columns f df) = in_columns t df.
Proof.
  unfold in_columns, columns, map_columns. cbn [df_columns].
  now rewrite map_map.
Qed.

Lemma length_shift1 (xs : list float) : length (shift1 xs) = length xs.
Proof.
  destruct xs as [| x rest]; [reflexivity |].
  unfold shift1. cbn [length].
  destruct (exists_last (l := x :: rest)) as [front [y Hs]]; [discriminate |].
  assert (Hlen : length (x :: rest) = length (front ++ [y])) by now rewrite Hs.
  rewrite Hs, removelast_last. rewrite length_app in Hlen. simpl in Hlen. lia.
Qed.

Lemma length_log_return (xs : list float) :
  length (map flog (zip_with fdiv xs (shift1 xs))) = length xs.
Proof. rewrite length_map, length_zip_with; now rewrite ?length_shift1. Qed.

Lemma latest_or_nan_ok (s : Series float) : exists v, Scanner.latest_or_nan s = Ok v.
Proof.
  unfold Scanner.latest_or_nan. destruct s as [| p rest]; [now exists NaN |].
  destruct (exists_last (l := p :: rest)) as [front [q Hs]]; [discriminate |].
  rewrite Hs, empty_snoc, iloc_last_snoc. cbn [bind]. eauto.
Qed.

Lemma latest_breach_of_ok (s : Series bool) : exists v, Scanner.latest_breach_of s = Ok v.
Proof.
  unfold Scanner.latest_breach_of. destruct s as [| p rest]; [now exists false |].
  destruct (exists_last (l := p :: rest)) as [front [q Hs]]; [discriminate |].
  rewrite Hs, empty_snoc, iloc_last_snoc. eauto.
Qed.

(** The helper never lets an exception out. *)
Lemma bars_since_breach_ok (s : Series bool) :
  exists v, Scanner._compute_bars_since_breach s = Ok v.
Proof.
  unfold Scanner._compute_bars_since_breach.
  destruct s as [| p rest]; [now exists NaN |].
  destruct (exists_last (l := p :: rest)) as [front [[t v] Hs]]; [discriminate |].
  rewrite Hs, empty_snoc, iloc_last_snoc. cbn [bind snd].
  destruct v; [eauto |].
  destruct (last_opt (true_labels (front ++ [(t, false)]))) as [lbl |]; [| eauto].
  unfold index. rewrite map_app. cbn [map fst]. rewrite last_opt_snoc.
  unfold get_loc.
  destruct (positions_from 0 lbl (map fst front ++ [t])) as [| p1 [| ? ?]];
    cbn [bind]; eauto;
    destruct (positions_from 0 t (map fst front ++ [t])) as [| p2 [| ? ?]];
    cbn [bind loc_diff]; eauto.
Qed.

(** ** Latest correlation *)

Lemma getitem_log_returns (prices_wide : DataFrame) (t : string) :
  wf_table prices_wide -> in_columns t prices_wide = true ->
  exists xs,
    getitem (Metrics.log_returns prices_wide) t = Ok (combine (df_index prices_wide) xs)
    /\ length xs = nrows prices_wide.
Proof.
  intros Hwf Hin. destruct (lookup_in_columns _ _ Hin) as (xs & Hfind & Hmem).
  unfold getitem, Metrics.log_returns. rewrite lookup_map_columns, Hfind.
  eexists. split; [reflexivity |].
  rewrite length_log_return.
  exact (proj1 (Forall_forall _ _) Hwf _ Hmem).
Qed.

Lemma in_columns_log_returns (prices_wide : DataFrame) (t : string) :
  in_columns t (Metrics.log_returns prices_wide) = in_columns t prices_wide.
Proof. apply in_columns_map_columns. Qed.

Lemma length_rolling_corr_values (w : nat) (xs ys : list float) :
  length xs = length ys -> length (rolling_corr_values w xs ys) = length xs.
Proof.
  intros Hlen. unfold rolling_corr_values.
  now rewrite length_map, length_seq, length_zip_with.
Qed.

(** With both columns present, [rolling_corr] returns a series over the
    index of the table. *)
Lemma rolling_corr_index (prices_wide : DataFrame) (a b : string) (w : nat) :
  wf_table prices_wide ->
  in_columns a prices_wide = true -> in_columns b prices_wide = true ->
  exists s,
    Metrics.rolling_corr (Metrics.log_returns prices_wide) a b w = Ok s
    /\ index s = df_index prices_wide.
Proof.
  intros Hwf Ha Hb. unfold Metrics.rolling_corr.
  cbn [filter]. rewrite !in_columns_log_returns, Ha, Hb. cbn [negb empty].
  destruct (getitem_log_returns _ _ Hwf Ha) as (xs & -> & Hxs).
  destruct (getitem_log_returns _ _ Hwf Hb) as (ys & -> & Hys).
  cbn [bind]. eexists. split; [reflexivity |].
  unfold rolling_corr_series. unfold nrows in *.
  rewrite (index_combine _ (df_index prices_wide) xs) by congruence.
  rewrite !values_combine by congruence.
  apply index_combine. rewrite length_rolling_corr_values; congruence.
Qed.

(** The latest correlation is the last value of the rolling series when
    there is one, and an IndexError on a table without rows. *)
Lemma pair_corr_latest_cases (prices_wide : DataFrame) (a b : string) (w : nat) :
  wf_table prices_wide ->
  in_columns a prices_wide = true -> in_columns b prices_wide = true ->
  exists s,
    Metrics.rolling_corr (Metrics.log_returns prices_wide) a b w = Ok s
    /\ Metrics.pair_corr_latest (Metrics.log_returns prices_wide) a b w = iloc_last s
    /\ (nrows prices_wide = 0 -> iloc_last s = Raise IndexError)
    /\ (nrows prices_wide <> 0 -> exists v, iloc_last s = Ok v).
Proof.
  intros Hwf Ha Hb.
  destruct (rolling_corr_index prices_wide a b w Hwf Ha Hb) as (s & Hs & Hidx).
  exists s. unfold Metrics.pair_corr_latest. rewrite Hs. cbn [bind].
  split; [reflexivity |]. split; [reflexivity |].
  unfold nrows. rewrite <- Hidx, length_index.
  split; intros Hrows.
  - now destruct s.
  - destruct s as [| p rest]; [easy |].
    destruct (exists_last (l := p :: rest)) as [front [q Hq]]; [discriminate |].
    rewrite Hq, iloc_last_snoc. eauto.
Qed.

(** C4, the failing input.  On a log-return table with columns A and B and
    no rows the rolling correlation series is empty and [pair_corr_latest]
    raises IndexError, where the claim has it return NaN. *)
Theorem pair_corr_latest_empty_raises :
  Metrics.rolling_corr (mkDataFrame [] [("A", []); ("B", [])]%string) "A" "B" 240
  = Ok []
  /\ Metrics.pair_corr_latest (mkDataFrame [] [("A", []); ("B", [])]%string) "A" "B" 240
     = Raise IndexError.
Proof. split; reflexivity. Qed.

(** ** Rows of the pair scan *)

Lemma compute_spread_ok (prices_wide : DataFrame) (a b : string) :
  in_columns a prices_wide = true -> in_columns b prices_wide = true ->
  exists s, Scanner._compute_spread prices_wide a b = Ok s.
Proof.
  intros Ha Hb. unfold Scanner._compute_spread, getitem.
  destruct (lookup_in_columns _ _ Ha) as (xs & -> & _).
  destruct (lookup_in_columns _ _ Hb) as (ys & -> & _).
  cbn [bind]. eauto.
Qed.

(** On a table with at least one row the body of the try block of a pair
    of present tickers ends without an exception. *)
Lemma pair_metrics_ok (prices_wide : DataFrame) (settings : Settings) (ab : string * string) :
  wf_table prices_wide -> nrows prices_wide <> 0 ->
  in_columns (fst ab) prices_wide = true -> in_columns (snd ab) prices_wide = true ->
  exists row,
    Scanner.pair_metrics prices_wide (Metrics.log_returns prices_wide) settings ab = Ok row.
Proof.
  intros Hwf Hrows Ha Hb. unfold Scanner.pair_metrics.
  destruct (compute_spread_ok _ _ _ Ha Hb) as (spread & ->). cbn [bind].
  destruct (latest_or_nan_ok (Scanner._compute_zscore spread (z_window settings)))
    as (latest_z & ->). cbn [bind].
  destruct (Scanner._compute_bollinger_bands spread (z_window settings) (boll_k settings))
    as [upper_band lower_band].
  destruct (latest_breach_of_ok
              (Scanner._detect_bollinger_breach spread upper_band lower_band))
    as (latest_breach & ->). cbn [bind].
  destruct (bars_since_breach_ok
              (Scanner._detect_bollinger_breach spread upper_band lower_band))
    as (bars_since & ->). cbn [bind].
  destruct (pair_corr_latest_cases prices_wide (fst ab) (snd ab)
              (analytics_window settings) Hwf Ha Hb) as (s & _ & -> & _ & Hlast).
  destruct (Hlast Hrows) as (corr_value & ->). cbn [bind].
  destruct (latest_or_nan_ok (rolling_std (analytics_window settings) spread))
    as (spread_vol_value & ->). cbn [bind].
  eauto.
Qed.

(** On a table without rows the body raises: the pair is skipped. *)
Lemma pair_metrics_no_rows (prices_wide : DataFrame) (settings : Settings)
  (ab : string * string) :
  wf_table prices_wide -> nrows prices_wide = 0 ->
  in_columns (fst ab) prices_wide = true -> in_columns (snd ab) prices_wide = true ->
  Scanner.pair_metrics prices_wide (Metrics.log_returns prices_wide) settings ab
  = Raise IndexError.
Proof.
  intros Hwf Hrows Ha Hb. unfold Scanner.pair_metrics.
  destruct (compute_spread_ok _ _ _ Ha Hb) as (spread & ->). cbn [bind].
  destruct (latest_or_nan_ok (Scanner._compute_zscore spread (z_window settings)))
    as (latest_z & ->). cbn [bind].
  destruct (Scanner._compute_bollinger_bands spread (z_window settings) (boll_k settings))
    as [upper_band lower_band].
  destruct (latest_breach_of_ok
              (Scanner._detect_bollinger_breach spread upper_band lower_band))
    as (latest_breach & ->). cbn [bind].
  destruct (bars_since_breach_ok
              (Scanner._detect_bollinger_breach spread upper_band lower_band))
    as (bars_since & ->). cbn [bind].
  destruct (pair_corr_latest_cases prices_wide (fst ab) (snd ab)
              (analytics_window settings) Hwf Ha Hb) as (s & _ & -> & Hlast & _).
  now rewrite (Hlast Hrows).
Qed.

Lemma pair_results_nonempty (prices_wide : DataFrame) (settings : Settings)
  (pairs : list (string * string)) :
  wf_table prices_wide -> nrows prices_wide <> 0 ->
  (exists ab, In ab pairs /\ in_columns (fst ab) prices_wide = true
              /\ in_columns (snd ab) prices_wide = true) ->
  Scanner.pair_results prices_wide (Metrics.log_returns prices_wide) settings pairs <> [].
Proof.
  intros Hwf Hrows (ab & Hin & Ha & Hb).
  induction pairs as [| p rest IH]; [contradiction |].
  cbn [Scanner.pair_results]. destruct Hin as [-> | Hin].
  - rewrite Ha, Hb. cbn [negb orb].
    destruct (pair_metrics_ok prices_wide settings ab Hwf Hrows Ha Hb) as (row & ->).
    discriminate.
  - destruct (negb (in_columns (fst p) prices_wide)
              || negb (in_columns (snd p) prices_wide)); [now apply IH |].
    destruct (Scanner.pair_metrics _ _ _ p); [discriminate | now apply IH].
Qed.

(** On a table without rows every pair is skipped and the scan returns the
    empty table. *)
Lemma scan_pairs_in_basket_no_rows (prices_wide : DataFrame)
  (basket_tickers : list string) (settings : Settings) :
  wf_table prices_wide -> nrows prices_wide = 0 ->
  Scanner.scan_pairs_in_basket prices_wide basket_tickers settings = Ok [].
Proof.
  intros Hwf Hrows. unfold Scanner.scan_pairs_in_basket. cbn zeta.
  assert (Hnone : Scanner.pair_results prices_wide (Metrics.log_returns prices_wide)
                    settings (Scanner.pairs basket_tickers) = []).
  { induction (Scanner.pairs basket_tickers) as [| ab rest IH]; [reflexivity |].
    cbn [Scanner.pair_results].
    destruct (in_columns (fst ab) prices_wide) eqn:Ha; [| exact IH].
    destruct (in_columns (snd ab) prices_wide) eqn:Hb; [| exact IH].
    cbn [negb orb]. now rewrite pair_metrics_no_rows. }
  now rewrite Hnone.
Qed.

Lemma sample_prices_wf : wf_table sample_prices.
Proof. repeat constructor. Qed.

(** C1, the failing input.  On a one-row price table with columns A and B,
    the basket [A, B] and the default parameter set, the pair scan builds
    one row and then raises TypeError in its call of [sort_values], where
    the claim has it return a table. *)
Theorem scan_pairs_in_basket_raises :
  Scanner.scan_pairs_in_basket sample_prices ["A"; "B"]%string default_settings
  = Raise TypeError
  /\ raises (Scanner.scan_pairs_in_basket sample_prices ["A"; "B"]%string
               default_settings)
  /\ ~ (forall prices_wide basket_tickers settings,
          exists table,
            Scanner.scan_pairs_in_basket prices_wide basket_tickers settings = Ok table).
Proof.
  assert (H : Scanner.scan_pairs_in_basket sample_prices ["A"; "B"]%string
                default_settings = Raise TypeError).
  { apply scan_pairs_raises_on_rows, pair_results_nonempty.
    - exact sample_prices_wf.
    - discriminate.
    - exists ("A", "B")%string. repeat split. now left. }
  split; [exact H |]. split; [now exists TypeError |].
  intros Hall.
  destruct (Hall sample_prices ["A"; "B"]%string default_settings) as [table Htable].
  congruence.
Qed.

(** C6, on the scanner.  Whenever the price table has a row and the basket
    has two tickers that are columns of it, the pair scan returns no sorted
    table: its call of [sort_values] raises TypeError. *)
Theorem scan_pairs_in_basket_sort_raises (prices_wide : DataFrame)
  (basket_tickers : list string) (settings : Settings)
  (Hwf : wf_table prices_wide) (Hrows : nrows prices_wide <> 0)
  (Hpair : exists ab, In ab (Scanner.pairs basket_tickers)
                      /\ in_columns (fst ab) prices_wide = true
                      /\ in_columns (snd ab) prices_wide = true) :
  Scanner.scan_pairs_in_basket prices_wide basket_tickers settings = Raise TypeError.
Proof.
  pose proof (pair_results_nonempty prices_wide settings (Scanner.pairs basket_tickers)
                Hwf Hrows Hpair) as Hbuilt.
  unfold Scanner.scan_pairs_in_basket. cbn zeta.
  destruct (Scanner.pair_results _ _ _ _) as [| row rows]; [congruence |].
  cbn [empty negb]. reflexivity.
Qed.

Lemma scan_pairs_in_basket_sort_raises_witness :
  Scanner.scan_pairs_in_basket
    (mkDataFrame [0; 1]%Z
       [("A", [Fin 1; Fin 2]); ("B", [Fin 2; Fin 1]); ("C", [Fin 3; Fin 3])]%string)
    ["C"; "A"; "B"]%string default_settings
  = Raise TypeError.
Proof.
  apply scan_pairs_in_basket_sort_raises.
  - repeat constructor.
  - discriminate.
  - exists ("C", "A")%string. repeat split. now left.
Defined.

(** The pair scan returns a table only when no row was built. *)
Lemma scan_pairs_in_basket_returns_empty (prices_wide : DataFrame)
  (basket_tickers : list string) (settings : Settings) (rows : list Scanner.PairRow) :
  Scanner.scan_pairs_in_basket prices_wide basket_tickers settings = Ok rows ->
  rows = [].
Proof.
  unfold Scanner.scan_pairs_in_basket. cbn zeta.
  destruct (Scanner.pair_results _ _ _ _) as [| row rest]; cbn [empty negb].
  - now intros [= <-].
  - now rewrite sort_values_na_last_keyword.
Qed.

(** C3, the failing input.  The scanner enumerates the pairs of a basket in
    the order of its ticker list: for the tickers of the configured basket
    eth_l1_core it produces (ETH, ETC) first, whose first ticker is not
    lexically less than the second; the Pair Explorer page, which sorts the
    tickers first, produces (BTC, ETC), (BTC, ETH), (ETC, ETH). *)
Theorem scanner_pairs_not_ordered :
  Scanner.pairs (CcxtData.normalize_symbols ["ETHUSD"; "ETCUSD"; "BTCUSD"]%string)
  = [("ETH/USDT:USDT", "ETC/USDT:USDT"); ("ETH/USDT:USDT", "BTC/USDT:USDT");
     ("ETC/USDT:USDT", "BTC/USDT:USDT")]%string
  /\ String.ltb "ETH/USDT:USDT" "ETC/USDT:USDT" = false
  /\ PairExplorer.pairs
       (CcxtData.normalize_symbols ["ETHUSD"; "ETCUSD"; "BTCUSD"]%string)
     = [("BTC/USDT:USDT", "ETC/USDT:USDT"); ("BTC/USDT:USDT", "ETH/USDT:USDT");
        ("ETC/USDT:USDT", "ETH/USDT:USDT")]%string.
Proof. repeat split; vm_compute; reflexivity. Qed.

(** ** Basket return *)

Lemma nth_map_seq (B : Type) (f : nat -> B) (n i : nat) (d : B) :
  i < n -> nth i (map f (seq 0 n)) d = f i.
Proof.
  intros Hi. rewrite (nth_indep _ d (f 0)) by now rewrite length_map, length_seq.
  now rewrite map_nth, seq_nth.
Qed.

Lemma missing_nonempty (logret : DataFrame) (tickers : list string) :
  empty (filter (fun t => negb (in_columns t logret)) tickers) = false
  <-> exists t, In t tickers /\ in_columns t logret = false.
Proof.
  split.
  - destruct (filter _ tickers) as [| t rest] eqn:Hf; [discriminate |]. intros _.
    assert (Hin : In t (filter (fun t => negb (in_columns t logret)) tickers))
      by (rewrite Hf; now left).
    apply filter_In in Hin as [Hin Hneg]. exists t. split; [assumption |].
    now apply negb_true_iff.
  - intros (t & Hin & Hmiss).
    assert (Hf : In t (filter (fun t => negb (in_columns t logret)) tickers)).
    { apply filter_In. split; [assumption | now rewrite Hmiss]. }
    now destruct (filter _ tickers).
Qed.

Lemma select_columns_present (df : DataFrame) (tickers : list string) :
  (forall t, In t tickers -> in_columns t df = true) ->
  exists cols,
    select_columns df tickers = Ok cols
    /\ forall i, map (fun c => nth i (snd c) NaN) cols
                 = map (fun t => cell df t i) tickers.
Proof.
  induction tickers as [| t rest IH]; intros Hall.
  - exists []. split; reflexivity.
  - destruct IH as (cols & Hcols & Hcells); [intros u Hu; apply Hall; now right |].
    destruct (lookup_in_columns df t (Hall t (or_introl eq_refl))) as (xs & Hfind & _).
    exists ((t, xs) :: cols). cbn [select_columns]. rewrite Hfind, Hcols. cbn [bind].
    split; [reflexivity |]. intros i. cbn [map snd]. rewrite Hcells.
    unfold cell at 2. now rewrite Hfind.
Qed.

Lemma fold_fadd_finite (rs : list R) (acc : R) :
  fold_left fadd (map Fin rs) (Fin acc) = Fin (acc + Rsum rs).
Proof.
  revert acc. induction rs as [| r rest IH]; intros acc; simpl.
  - f_equal. lra.
  - rewrite IH. f_equal. fold (Rsum rest). lra.
Qed.

(** On a row of numbers the mean is the sum over the count: equal
    weights. *)
Lemma nanmean_finite (rs : list R) :
  rs <> [] -> nanmean (map Fin rs) = Fin (mean_R rs).
Proof.
  intros Hne. unfold nanmean, dropna.
  rewrite forallb_filter_id.
  - destruct rs as [| r rest]; [congruence |].
    change (map Fin (r :: rest)) with (Fin r :: map Fin rest) at 1.
    cbv beta iota. change (Fin r :: map Fin rest) with (map Fin (r :: rest)).
    rewrite fold_fadd_finite, length_map. unfold fdiv.
    rewrite Reqb_false.
    + unfold mean_R. do 2 f_equal. lra.
    + apply not_0_INR. discriminate.
  - apply forallb_forall. intros x Hin. apply in_map_iff in Hin as (r & <- & _).
    reflexivity.
Qed.

(** C7.  [basket_return] raises exactly when a requested ticker is not a
    column of the log-return table, and then with ValueError; when all are
    columns it returns one value per row of the table, the mean of the
    row's cells in the requested columns with equal weights (also for two
    tickers). *)
Theorem basket_return_raises_iff_missing (logret : DataFrame) (tickers : list string) :
  (raises (Metrics.basket_return logret tickers)
   <-> exists t, In t tickers /\ in_columns t logret = false)
  /\ (raises (Metrics.basket_return logret tickers) ->
      Metrics.basket_return logret tickers = Raise ValueError)
  /\ ((forall t, In t tickers -> in_columns t logret = true) ->
      exists s,
        Metrics.basket_return logret tickers = Ok s
        /\ index s = df_index logret
        /\ (forall i, i < nrows logret ->
            nth i (values s) NaN = nanmean (map (fun t => cell logret t i) tickers))
        /\ (forall i rs, i < nrows logret -> rs <> [] ->
            map (fun t => cell logret t i) tickers = map Fin rs ->
            nth i (values s) NaN = Fin (mean_R rs))
        /\ (forall i a b ra rb, i < nrows logret -> tickers = [a; b] ->
            cell logret a i = Fin ra -> cell logret b i = Fin rb ->
            nth i (values s) NaN = Fin ((ra + rb) / 2))).
Proof.
  assert (Hpresent :
    (forall t, In t tickers -> in_columns t logret = true) ->
    exists s,
      Metrics.basket_return logret tickers = Ok s
      /\ index s = df_index logret
      /\ (forall i, i < nrows logret ->
          nth i (values s) NaN = nanmean (map (fun t => cell logret t i) tickers))).
  { intros Hall. unfold Metrics.basket_return.
    destruct (filter (fun t => negb (in_columns t logret)) tickers) as [| t rest] eqn:Hf.
    - cbn [empty negb].
      destruct (select_columns_present logret tickers Hall) as (cols & Hcols & Hcells).
      unfold getitems. rewrite Hcols. cbn [bind]. eexists. split; [reflexivity |].
      unfold mean_axis1, nrows. cbn [df_index].
      assert (Hlen : length (df_index logret)
                     = length (map (fun i => nanmean (row_at (mkDataFrame (df_index logret) cols) i))
                                   (seq 0 (length (df_index logret)))))
        by now rewrite length_map, length_seq.
      split; [now apply index_combine |].
      intros i Hi. rewrite values_combine by assumption.
      rewrite nth_map_seq by assumption.
      unfold row_at. cbn [df_columns Nat.add]. now rewrite Hcells.
    - assert (Hin : In t (filter (fun t => negb (in_columns t logret)) tickers))
        by (rewrite Hf; now left).
      apply filter_In in Hin as [Hin Hneg]. rewrite (Hall t Hin) in Hneg. discriminate. }
  assert (Hmissing :
    raises (Metrics.basket_return logret tickers) ->
    empty (filter (fun t => negb (in_columns t logret)) tickers) = false).
  { intros [e He].
    destruct (empty (filter (fun t => negb (in_columns t logret)) tickers)) eqn:Hm;
      [| reflexivity].
    destruct Hpresent as (s & Hs & _); [| congruence].
    intros t Hin. destruct (in_columns t logret) eqn:Hc; [reflexivity |].
    assert (Hf : In t (filter (fun t => negb (in_columns t logret)) tickers)).
    { apply filter_In. split; [assumption | now rewrite Hc]. }
    now destruct (filter _ tickers). }
  split; [| split].
  - split.
    + intros Hraise. now apply missing_nonempty, Hmissing.
    + intros Hmiss. apply missing_nonempty in Hmiss. exists ValueError.
      unfold Metrics.basket_return. now rewrite Hmiss.
  - intros Hraise. apply Hmissing in Hraise.
    unfold Metrics.basket_return. now rewrite Hraise.
  - intros Hall. destruct (Hpresent Hall) as (s & Hs & Hidx & Hval).
    exists s. repeat split; try assumption.
    + intros i rs Hi Hne Hcells. now rewrite Hval, Hcells, nanmean_finite.
    + intros i a b ra rb Hi -> Ha Hb. rewrite Hval by assumption.
      cbn [map]. rewrite Ha, Hb.
      change [Fin ra; Fin rb] with (map Fin [ra; rb]).
      rewrite nanmean_finite by discriminate.
      unfold mean_R. cbn [Rsum fold_right length INR]. f_equal. field.
Qed.

Lemma basket_return_witness :
  raises (Metrics.basket_return
            (mkDataFrame [0; 1]%Z [("A", [Fin 1; Fin 2]); ("B", [Fin 3; Fin 4])]%string)
            ["A"; "C"]%string)
  /\ exists s,
      Metrics.basket_return
        (mkDataFrame [0; 1]%Z [("A", [Fin 1; Fin 2]); ("B", [Fin 3; Fin 4])]%string)
        ["A"; "B"]%string = Ok s
      /\ nth 0 (values s) NaN = Fin ((1 + 3) / 2).
Proof.
  split.
  - apply (proj1 (basket_return_raises_iff_missing _ _)).
    exists "C"%string. split; [simpl; auto | reflexivity].
  - destruct (proj2 (proj2 (basket_return_raises_iff_missing
                (mkDataFrame [0; 1]%Z [("A", [Fin 1; Fin 2]); ("B", [Fin 3; Fin 4])]%string)
                ["A"; "B"]%string)))
      as (s & Hs & _ & _ & _ & Htwo).
    + intros t [<- | [<- | []]]; reflexivity.
    + exists s. split; [exact Hs |].
      apply (Htwo 0 "A"%string "B"%string 1%R 3%R);
        [unfold nrows; simpl; lia | reflexivity | reflexivity | reflexivity].
Defined.

(** ** Basket summary *)

Lemma desc_code_le_total (x y : float) :
  desc_code_le x y = true \/ desc_code_le y x = true.
Proof. destruct x, y; unfold desc_code_le; simpl; auto; float_order. Qed.

Lemma desc_code_le_trans (x y z : float) :
  desc_code_le x y = true -> desc_code_le y z = true -> desc_code_le x z = true.
Proof.
  destruct x, y, z; unfold desc_code_le; simpl; intros Hxy Hyz;
    try discriminate; try reflexivity; float_order.
Qed.

Lemma basket_code_le_total (r1 r2 : Scanner.BasketRow) :
  Scanner.basket_code_le r1 r2 = true \/ Scanner.basket_code_le r2 r1 = true.
Proof.
  unfold Scanner.basket_code_le, desc_code_lt.
  pose proof (desc_code_le_total (Scanner.basket_vol r1) (Scanner.basket_vol r2)) as Htot.
  destruct (desc_code_le (Scanner.basket_vol r1) (Scanner.basket_vol r2)),
           (desc_code_le (Scanner.basket_vol r2) (Scanner.basket_vol r1));
    destruct (Nat.leb_spec (Scanner.opp_count r2) (Scanner.opp_count r1));
    destruct (Nat.leb_spec (Scanner.opp_count r1) (Scanner.opp_count r2));
    simpl; auto; try lia; destruct Htot; discriminate.
Qed.

Lemma basket_code_le_trans (r1 r2 r3 : Scanner.BasketRow) :
  Scanner.basket_code_le r1 r2 = true -> Scanner.basket_code_le r2 r3 = true ->
  Scanner.basket_code_le r1 r3 = true.
Proof.
  unfold Scanner.basket_code_le, desc_code_lt.
  pose proof (desc_code_le_trans (Scanner.basket_vol r1) (Scanner.basket_vol r2)
                (Scanner.basket_vol r3)) as T123.
  pose proof (desc_code_le_trans (Scanner.basket_vol r2) (Scanner.basket_vol r3)
                (Scanner.basket_vol r1)) as T231.
  pose proof (desc_code_le_trans (Scanner.basket_vol r3) (Scanner.basket_vol r1)
                (Scanner.basket_vol r2)) as T312.
  pose proof (desc_code_le_trans (Scanner.basket_vol r1) (Scanner.basket_vol r3)
                (Scanner.basket_vol r2)) as T132.
  pose proof (desc_code_le_total (Scanner.basket_vol r1) (Scanner.basket_vol r2)) as O12.
  pose proof (desc_code_le_total (Scanner.basket_vol r2) (Scanner.basket_vol r3)) as O23.
  pose proof (desc_code_le_total (Scanner.basket_vol r1) (Scanner.basket_vol r3)) as O13.
  pose proof (desc_code_le_trans (Scanner.basket_vol r2) (Scanner.basket_vol r1)
                (Scanner.basket_vol r3)) as T213.
  pose proof (desc_code_le_trans (Scanner.basket_vol r3) (Scanner.basket_vol r2)
                (Scanner.basket_vol r1)) as T321.
  destruct (desc_code_le (Scanner.basket_vol r1) (Scanner.basket_vol r2)),
           (desc_code_le (Scanner.basket_vol r2) (Scanner.basket_vol r1)),
           (desc_code_le (Scanner.basket_vol r2) (Scanner.basket_vol r3)),
           (desc_code_le (Scanner.basket_vol r3) (Scanner.basket_vol r2)),
           (desc_code_le (Scanner.basket_vol r1) (Scanner.basket_vol r3)),
           (desc_code_le (Scanner.basket_vol r3) (Scanner.basket_vol r1));
    destruct (Nat.leb_spec (Scanner.opp_count r2) (Scanner.opp_count r1));
    destruct (Nat.leb_spec (Scanner.opp_count r3) (Scanner.opp_count r2));
    destruct (Nat.leb_spec (Scanner.opp_count r3) (Scanner.opp_count r1));
    simpl; intros H12 H23; try discriminate; try reflexivity;
    try (specialize (T123 eq_refl eq_refl); discriminate);
    try (specialize (T231 eq_refl eq_refl); discriminate);
    try (specialize (T312 eq_refl eq_refl); discriminate);
    try (specialize (T132 eq_refl eq_refl); discriminate);
    try (specialize (T213 eq_refl eq_refl); discriminate);
    try (specialize (T321 eq_refl eq_refl); discriminate);
    try (destruct O12; discriminate); try (destruct O23; discriminate);
    try (destruct O13; discriminate);
    lia.
Qed.

Lemma basket_code_le_before (r1 r2 : Scanner.BasketRow) :
  Scanner.basket_code_le r1 r2 = true -> basket_before r1 r2.
Proof.
  unfold Scanner.basket_code_le, desc_code_lt, desc_code_le, basket_before.
  destruct (Scanner.basket_vol r1) as [| | | v1], (Scanner.basket_vol r2) as [| | | v2];
    simpl; intros H; (split; [intros Hn | intros Hn1 Hn2]);
    try discriminate; try reflexivity;
    destruct (Nat.leb_spec (Scanner.opp_count r2) (Scanner.opp_count r1));
    try (split; [| intros Heq]); try discriminate; try reflexivity; try assumption;
    float_order; try lia.
Qed.

Lemma StronglySorted_nth (A : Type) (Rel : A -> A -> Prop) (l : list A) (d : A)
  (i j : nat) :
  StronglySorted Rel l -> i < j -> j < length l -> Rel (nth i l d) (nth j l d).
Proof.
  intros Hsorted. revert i j.
  induction Hsorted as [| x rest Hsorted IH Hall]; intros i j Hij Hj; [simpl in Hj; lia |].
  destruct j as [| j]; [lia |]. cbn [length] in Hj.
  destruct i as [| i]; cbn [nth].
  - apply (proj1 (Forall_forall _ _) Hall). apply nth_In. lia.
  - apply IH; lia.
Qed.

Lemma scan_baskets_perm (prices_wide : DataFrame) (baskets : list (string * list string))
  (settings : Settings) (lookback_bars : nat) :
  Permutation (Scanner.scan_baskets_rows prices_wide baskets settings lookback_bars)
              (Scanner.scan_baskets prices_wide baskets settings lookback_bars).
Proof.
  unfold Scanner.scan_baskets. cbn zeta.
  destruct (Scanner.scan_baskets_rows _ _ _ _); [constructor | apply sort_by_perm].
Qed.

(** C9.  The table [scan_baskets] returns holds the rows of the baskets in
    an order where, for every two rows, the earlier one has the larger
    volatility, or the same volatility and at least the opportunity count
    of the later one; a row without a volatility (NaN) is followed only by
    such rows, whatever the opportunity counts. *)
Theorem scan_baskets_sorted (prices_wide : DataFrame)
  (baskets : list (string * list string)) (settings : Settings) (lookback_bars : nat) :
  Permutation (Scanner.scan_baskets_rows prices_wide baskets settings lookback_bars)
              (Scanner.scan_baskets prices_wide baskets settings lookback_bars)
  /\ StronglySorted basket_before
       (Scanner.scan_baskets prices_wide baskets settings lookback_bars)
  /\ (forall i j d,
      i < j -> j < length (Scanner.scan_baskets prices_wide baskets settings lookback_bars) ->
      let r1 := nth i (Scanner.scan_baskets prices_wide baskets settings lookback_bars) d in
      let r2 := nth j (Scanner.scan_baskets prices_wide baskets settings lookback_bars) d in
      (isnan (Scanner.basket_vol r1) = true -> isnan (Scanner.basket_vol r2) = true)
      /\ (isnan (Scanner.basket_vol r2) = false ->
          isnan (Scanner.basket_vol r1) = false
          /\ fge (Scanner.basket_vol r1) (Scanner.basket_vol r2) = true
          /\ (feq (Scanner.basket_vol r1) (Scanner.basket_vol r2) = true ->
              Scanner.opp_count r2 <= Scanner.opp_count r1))).
Proof.
  assert (Hsorted : StronglySorted basket_before
            (Scanner.scan_baskets prices_wide baskets settings lookback_bars)).
  { unfold Scanner.scan_baskets. cbn zeta.
    destruct (Scanner.scan_baskets_rows _ _ _ _) as [| r rest] eqn:Hrows;
      [constructor |]. cbn [empty negb].
    apply StronglySorted_weaken
      with (R1 := fun r1 r2 => Scanner.basket_code_le r1 r2 = true);
      [apply basket_code_le_before |].
    apply sort_by_sorted with (P := fun _ => True).
    - intros x y _ _. apply basket_code_le_total.
    - intros x y z _ _ _. apply basket_code_le_trans.
    - apply Forall_forall. easy. }
  split; [apply scan_baskets_perm |]. split; [exact Hsorted |].
  intros i j d Hij Hj r1 r2.
  destruct (StronglySorted_nth _ _ _ d i j Hsorted Hij Hj) as [Hnan Hdef].
  fold r1 r2 in Hnan, Hdef. split; [exact Hnan |].
  intros H2. destruct (isnan (Scanner.basket_vol r1)) eqn:H1.
  - rewrite Hnan in H2 by reflexivity. discriminate.
  - split; [reflexivity |]. now apply Hdef.
Qed.

Lemma scan_basket_name (prices_wide logret : DataFrame) (settings : Settings)
  (lookback_bars : nat) (basket_name : string) (tickers_raw : list string) :
  Scanner.basket
    (Scanner.scan_basket prices_wide logret settings lookback_bars basket_name tickers_raw)
  = basket_name.
Proof.
  unfold Scanner.scan_basket. cbn zeta.
  now destruct (length (Scanner.valid_tickers prices_wide tickers_raw) <? 2).
Qed.

Lemma filter_perm (A : Type) (f : A -> bool) (l l' : list A) :
  Permutation l l' -> Permutation (filter f l) (filter f l').
Proof.
  induction 1 as [| x l l' Hperm IH | x y l | l l' l'' H1 IH1 H2 IH2]; simpl.
  - constructor.
  - destruct (f x); [now constructor | assumption].
  - destruct (f x), (f y); try apply Permutation_refl. apply perm_swap.
  - eapply perm_trans; eassumption.
Qed.

(** With distinct keys, the rows named after one basket are the one row of
    that basket. *)
Lemma rows_of_basket (row_of : string * list string -> Scanner.BasketRow)
  (baskets : list (string * list string)) (basket_name : string)
  (tickers_raw : list string) :
  (forall kv, Scanner.basket (row_of kv) = fst kv) ->
  NoDup (map fst baskets) -> In (basket_name, tickers_raw) baskets ->
  filter (fun r => String.eqb (Scanner.basket r) basket_name) (map row_of baskets)
  = [row_of (basket_name, tickers_raw)].
Proof.
  intros Hname. induction baskets as [| kv rest IH]; intros Hnd Hin; [contradiction |].
  cbn [map fst] in Hnd. apply NoDup_cons_iff in Hnd as [Hnotin Hnd].
  cbn [map filter]. rewrite Hname. destruct Hin as [-> | Hin].
  - cbn [fst]. rewrite String.eqb_refl. f_equal.
    clear IH Hnd. induction rest as [| kv' rest' IH']; [reflexivity |].
    cbn [map filter]. rewrite Hname.
    destruct (String.eqb_spec (fst kv') basket_name) as [Heq | _].
    + exfalso. apply Hnotin. cbn [map fst]. left. exact Heq.
    + apply IH'. intros H. apply Hnotin. cbn [map]. now right.
  - destruct (String.eqb_spec (fst kv) basket_name) as [Heq | _].
    + exfalso. apply Hnotin. rewrite Heq.
      change basket_name with (fst (basket_name, tickers_raw)). now apply in_map.
    + now apply IH.
Qed.

(** C8.  For a configured basket (the names of a dict are distinct) with
    fewer than two valid tickers, the iteration of [scan_baskets] ends at
    once with the row (name, n_tickers, NaN, 0, empty string), whatever the
    returns, parameters and lookback; the returned table, which is a value
    and not an exception, has this row and no other row for the basket. *)
Theorem scan_baskets_small_basket (prices_wide : DataFrame)
  (baskets : list (string * list string)) (settings : Settings) (lookback_bars : nat)
  (basket_name : string) (tickers_raw : list string)
  (Hkeys : NoDup (map fst baskets))
  (Hin : In (basket_name, tickers_raw) baskets)
  (Hsmall : length (Scanner.valid_tickers prices_wide tickers_raw) < 2) :
  (forall logret st lb,
      Scanner.scan_basket prices_wide logret st lb basket_name tickers_raw
      = Scanner.mkBasketRow basket_name
          (length (Scanner.valid_tickers prices_wide tickers_raw)) NaN 0 EmptyString)
  /\ filter (fun r => String.eqb (Scanner.basket r) basket_name)
       (Scanner.scan_baskets prices_wide baskets settings lookback_bars)
     = [Scanner.mkBasketRow basket_name
          (length (Scanner.valid_tickers prices_wide tickers_raw)) NaN 0 EmptyString]
  /\ length (Scanner.scan_baskets prices_wide baskets settings lookback_bars)
     = length baskets.
Proof.
  assert (Hrow : forall logret st lb,
             Scanner.scan_basket prices_wide logret st lb basket_name tickers_raw
             = Scanner.mkBasketRow basket_name
                 (length (Scanner.valid_tickers prices_wide tickers_raw)) NaN 0 EmptyString).
  { intros logret st lb. unfold Scanner.scan_basket. cbn zeta.
    now destruct (Nat.ltb_spec (length (Scanner.valid_tickers prices_wide tickers_raw)) 2);
      [| lia]. }
  split; [exact Hrow |].
  pose proof (scan_baskets_perm prices_wide baskets settings lookback_bars) as Hperm.
  split.
  - apply Permutation_length_1_inv.
    eapply perm_trans; [| apply filter_perm, Hperm].
    unfold Scanner.scan_baskets_rows. cbn zeta.
    rewrite (rows_of_basket _ baskets basket_name tickers_raw); try assumption.
    + cbn [fst snd]. now rewrite Hrow.
    + intros kv. apply scan_basket_name.
  - rewrite <- (Permutation_length Hperm). unfold Scanner.scan_baskets_rows.
    apply length_map.
Qed.

Lemma scan_baskets_small_basket_witness :
  filter (fun r => String.eqb (Scanner.basket r) "solo")
    (Scanner.scan_baskets sample_prices
       [("pair", ["A"; "B"]); ("solo", ["A"; "ZZZUSD"])]%string default_settings 24)
  = [Scanner.mkBasketRow "solo" 1 NaN 0 EmptyString].
Proof.
  refine (proj1 (proj2 (scan_baskets_small_basket sample_prices
            [("pair", ["A"; "B"]); ("solo", ["A"; "ZZZUSD"])]%string default_settings 24
            "solo" ["A"; "ZZZUSD"]%string _ _ _))).
  - repeat constructor; simpl; intuition discriminate.
  - simpl. auto.
  - vm_compute. lia.
Defined.

Lemma scan_baskets_sorted_witness :
  StronglySorted basket_before
    (Scanner.scan_baskets sample_prices
       [("pair", ["A"; "B"]); ("solo", ["A"; "ZZZUSD"])]%string default_settings 24).
Proof.
  exact (proj1 (proj2 (scan_baskets_sorted sample_prices
           [("pair", ["A"; "B"]); ("solo", ["A"; "ZZZUSD"])]%string default_settings 24))).
Defined.

(** * Further properties of the analytics code *)

(** ** Elementwise values *)

Lemma values_smap (A B : Type) (f : A -> B) (s : Series A) :
  values (smap f s) = map f (values s).
Proof. unfold values, smap. now rewrite !map_map. Qed.

Lemma index_smap (A B : Type) (f : A -> B) (s : Series A) :
  index (smap f s) = index s.
Proof. unfold index, smap. rewrite map_map. now apply map_ext. Qed.

Lemma length_smap (A B : Type) (f : A -> B) (s : Series A) :
  length (smap f s) = length s.
Proof. unfold smap. apply length_map. Qed.

Lemma nth_values_szip (A B C : Type) (f : A -> B -> C) (s1 : Series A) (s2 : Series B)
  (i : nat) (d1 : A) (d2 : B) (d : C) :
  i < length s1 -> i < length s2 ->
  nth i (values (szip f s1 s2)) d = f (nth i (values s1) d1) (nth i (values s2) d2).
Proof.
  intros H1 H2. rewrite values_szip.
  apply nth_zip_with; now rewrite length_values.
Qed.

Lemma nth_values_smap (A B : Type) (f : A -> B) (s : Series A) (i : nat) (d0 : A) (d : B) :
  i < length s -> nth i (values (smap f s)) d = f (nth i (values s) d0).
Proof.
  intros Hi. rewrite values_smap.
  rewrite (nth_indep _ d (f d0)) by now rewrite length_map, length_values.
  apply map_nth.
Qed.

Lemma nth_values_rolling (agg : list R -> float) (w : nat) (s : Series float)
  (i : nat) (d : float) :
  i < length s -> nth i (values (rolling agg w s)) d = roll_at agg w (values s) i.
Proof.
  intros Hi. rewrite values_rolling. apply nth_roll. now rewrite length_values.
Qed.

Lemma series_ext (A : Type) (s1 s2 : Series A) :
  index s1 = index s2 -> values s1 = values s2 -> s1 = s2.
Proof.
  unfold index, values. revert s2.
  induction s1 as [| [t x] r IH]; intros [| [t' x'] r'] Hi Hv; try discriminate.
  - reflexivity.
  - simpl in Hi, Hv. injection Hi as -> Hi. injection Hv as -> Hv.
    f_equal. now apply IH.
Qed.

(** ** Rolling mean and deviation at one row *)

Lemma roll_at_zero_window (agg : list R -> float) (xs : list float) (i : nat) :
  roll_at agg 0 xs i = agg [].
Proof.
  unfold roll_at, window. cbn [Nat.ltb Nat.leb].
  rewrite Nat.sub_0_r, skipn_all2; [reflexivity |].
  apply firstn_le_length.
Qed.

(** Either the rolling deviation is missing, or the row, the mean and the
    deviation are numbers, the deviation is not negative, and it is zero
    only on a constant window. *)
Lemma rolling_stats_cases (w i : nat) (xs : list float) :
  i < length xs ->
  roll_at agg_std w xs i = NaN
  \/ exists r mu sd,
      nth i xs NaN = Fin r
      /\ roll_at agg_mean w xs i = Fin mu
      /\ roll_at agg_std w xs i = Fin sd
      /\ (0 <= sd)%R /\ (sd = 0%R -> r = mu).
Proof.
  intros Hi. destruct (roll_at agg_std w xs i) as [| | | sd] eqn:Hsd.
  - now left.
  - pose proof (roll_std_not_inf w i xs) as H. now rewrite Hsd in H.
  - pose proof (roll_std_not_inf w i xs) as H. now rewrite Hsd in H.
  - right. destruct w as [| w'].
    + rewrite roll_at_zero_window in Hsd. discriminate.
    + destruct (roll_std_defined (S w') i xs sd ltac:(lia) Hi Hsd)
        as (r & obs & Hr & Hin & Hlen & Hmean & Hvar & ->).
      exists r, (mean_R obs), (sqrt (var_R obs)).
      repeat split; try assumption.
      * apply sqrt_pos.
      * intros Hz. apply sqrt_eq_0 in Hz; [| assumption].
        now apply var_zero_constant.
Qed.

Lemma Rltb_iff (x y : R) : Rltb x y = true <-> (x < y)%R.
Proof. unfold Rltb. destruct (Rlt_dec x y); split; intros; try easy. Qed.

Lemma Rltb_scaled (mu sd r kappa : R) :
  (0 < sd)%R ->
  Rltb (mu + kappa * sd) r = Rltb kappa ((r + - mu) / sd)
  /\ Rltb r (mu + - (kappa * sd)) = Rltb ((r + - mu) / sd) (- kappa).
Proof.
  intros Hsd.
  assert (Hz : (((r + - mu) / sd) * sd = r - mu)%R) by (field; lra).
  split.
  - destruct (Rlt_dec (mu + kappa * sd) r) as [Hlt | Hge].
    + rewrite Rltb_true by assumption. symmetry. apply Rltb_true.
      apply Rmult_lt_reg_r with sd; lra.
    + rewrite Rltb_false by lra. symmetry. apply Rltb_false.
      apply Rmult_le_reg_r with sd; lra.
  - destruct (Rlt_dec r (mu + - (kappa * sd))) as [Hlt | Hge].
    + rewrite Rltb_true by assumption. symmetry. apply Rltb_true.
      apply Rmult_lt_reg_r with sd; lra.
    + rewrite Rltb_false by lra. symmetry. apply Rltb_false.
      apply Rmult_le_reg_r with sd; lra.
Qed.

Lemma inf_of_sign_zero : inf_of_sign 0 = NaN.
Proof. unfold inf_of_sign. now rewrite !Rltb_false by lra. Qed.

Lemma inf_of_sign_pos (a : R) : (0 < a)%R -> inf_of_sign a = PInf.
Proof. intros H. unfold inf_of_sign. now rewrite Rltb_true. Qed.

(** A row is outside the bands exactly when its z-score is beyond [k] on
    either side, for every multiplier [k]. *)
Lemma breach_as_zscore (r mu sd : R) (k : float) :
  (0 <= sd)%R -> (sd = 0%R -> r = mu) ->
  fgt (Fin r) (fadd (Fin mu) (fmul k (Fin sd)))
  || flt (Fin r) (fsub (Fin mu) (fmul k (Fin sd)))
  = fgt (fdiv (fsub (Fin r) (Fin mu)) (Fin sd)) k
    || flt (fdiv (fsub (Fin r) (Fin mu)) (Fin sd)) (fneg k).
Proof.
  intros Hpos Hconst. destruct (Req_dec_T sd 0) as [Hz | Hnz].
  - rewrite (Hconst Hz). subst sd.
    assert (Hq : fdiv (fsub (Fin mu) (Fin mu)) (Fin 0) = NaN).
    { cbn [fsub fneg fadd fdiv]. rewrite Reqb_true by reflexivity.
      replace (mu + - mu)%R with 0%R by lra. apply inf_of_sign_zero. }
    rewrite Hq.
    destruct k as [| | | kappa]; cbn [fmul]; rewrite ?inf_of_sign_zero;
      cbn [fsub fneg fadd fgt flt]; rewrite ?Rltb_false by lra; reflexivity.
  - assert (Hsd : (0 < sd)%R) by lra.
    assert (Hq : fdiv (fsub (Fin r) (Fin mu)) (Fin sd) = Fin ((r + - mu) / sd)).
    { cbn [fsub fneg fadd fdiv]. now rewrite Reqb_false. }
    rewrite Hq.
    destruct k as [| | | kappa]; cbn [fmul]; rewrite ?inf_of_sign_pos by assumption;
      cbn [fsub fneg fadd fgt flt]; try reflexivity.
    destruct (Rltb_scaled mu sd r kappa Hsd) as [H1 H2]. now rewrite H1, H2.
Qed.

(** ** Bands, breaches and z-scores *)

Lemma bands_lengths (spread : Series float) (w : nat) (k : float) :
  length (fst (Scanner._compute_bollinger_bands spread w k)) = length spread
  /\ length (snd (Scanner._compute_bollinger_bands spread w k)) = length spread.
Proof.
  unfold Scanner._compute_bollinger_bands. cbn [fst snd].
  unfold rolling_mean, rolling_std.
  rewrite !szip_length; rewrite ?length_smap, ?length_rolling; auto.
Qed.

Lemma bands_at (spread : Series float) (w : nat) (k : float) (i : nat) :
  i < length spread ->
  nth i (values (fst (Scanner._compute_bollinger_bands spread w k))) NaN
  = fadd (roll_at agg_mean w (values spread) i)
         (fmul k (roll_at agg_std w (values spread) i))
  /\ nth i (values (snd (Scanner._compute_bollinger_bands spread w k))) NaN
     = fsub (roll_at agg_mean w (values spread) i)
            (fmul k (roll_at agg_std w (values spread) i)).
Proof.
  intros Hi. unfold Scanner._compute_bollinger_bands. cbn [fst snd].
  unfold rolling_mean, rolling_std.
  rewrite !(nth_values_szip _ _ _ _ _ _ _ NaN NaN)
    by (rewrite ?length_smap, ?length_rolling; assumption).
  rewrite !(nth_values_smap _ _ _ _ _ NaN) by (rewrite ?length_rolling; assumption).
  now rewrite !nth_values_rolling by assumption.
Qed.

Lemma breach_at (spread upper lower : Series float) (i : nat) :
  i < length spread -> length upper = length spread -> length lower = length spread ->
  nth i (values (Scanner._detect_bollinger_breach spread upper lower)) false
  = fgt (nth i (values spread) NaN) (nth i (values upper) NaN)
    || flt (nth i (values spread) NaN) (nth i (values lower) NaN).
Proof.
  intros Hi Hu Hl. unfold Scanner._detect_bollinger_breach.
  rewrite (nth_values_szip _ _ _ _ _ _ _ false false)
    by (rewrite szip_length; congruence).
  now rewrite !(nth_values_szip _ _ _ _ _ _ _ NaN NaN) by congruence.
Qed.

(** The breach flag of a row, read off its z-score. *)
Lemma breach_row (spread : Series float) (w : nat) (k : float) (i : nat) :
  i < length spread ->
  nth i (values (Scanner._detect_bollinger_breach spread
                   (fst (Scanner._compute_bollinger_bands spread w k))
                   (snd (Scanner._compute_bollinger_bands spread w k)))) false
  = beyond k (nth i (values (Spread.zscore spread w)) NaN).
Proof.
  intros Hi. destruct (bands_lengths spread w k) as [Hu Hl].
  rewrite breach_at by assumption.
  destruct (bands_at spread w k i Hi) as [-> ->].
  rewrite zscore_at by assumption. unfold beyond.
  assert (Hx : i < length (values spread)) by now rewrite length_values.
  destruct (rolling_stats_cases w i (values spread) Hx)
    as [-> | (r & mu & sd & -> & -> & -> & Hpos & Hconst)].
  - destruct (nth i (values spread) NaN), (roll_at agg_mean w (values spread) i), k;
      reflexivity.
  - now apply breach_as_zscore.
Qed.

Lemma detect_breach_length (spread upper lower : Series float) :
  length upper = length spread -> length lower = length spread ->
  length (Scanner._detect_bollinger_breach spread upper lower) = length spread.
Proof.
  intros Hu Hl. unfold Scanner._detect_bollinger_breach.
  rewrite !szip_length; rewrite ?szip_length; congruence.
Qed.

Lemma detect_breach_index (spread upper lower : Series float) :
  length upper = length spread -> length lower = length spread ->
  index (Scanner._detect_bollinger_breach spread upper lower) = index spread.
Proof.
  intros Hu Hl. unfold Scanner._detect_bollinger_breach.
  rewrite !index_szip; rewrite ?szip_length; congruence.
Qed.

Lemma zscore_index (series : Series float) (w : nat) :
  index (Spread.zscore series w) = index series.
Proof.
  unfold Spread.zscore, rolling_mean, rolling_std.
  rewrite !index_szip; rewrite ?szip_length; now rewrite ?length_rolling.
Qed.

Lemma iloc_last_nth (A : Type) (s : Series A) (d : A) :
  s <> [] -> iloc_last s = Ok (nth (length s - 1) (values s) d).
Proof.
  intros Hne. destruct s as [| p rest]; [contradiction |].
  destruct (exists_last (l := p :: rest)) as [front [q Hq]]; [discriminate |].
  rewrite Hq, iloc_last_snoc. f_equal.
  unfold values. rewrite map_app, length_app. cbn [map length].
  rewrite app_nth2 by (rewrite length_map; lia).
  rewrite length_map. now replace (length front + 1 - 1 - length front) with 0 by lia.
Qed.

Lemma latest_value_nth (s : Series float) :
  s <> [] -> latest_value s = nth (length s - 1) (values s) NaN.
Proof.
  intros Hne. pose proof (iloc_last_nth float s NaN Hne) as H.
  unfold latest_value. unfold iloc_last in H.
  destruct (last_opt (values s)); congruence.
Qed.

Lemma beyond_nan (k : float) : beyond k NaN = false.
Proof. now destruct k. Qed.

(** The latest breach flag is the latest z-score beyond the multiplier. *)
Lemma latest_breach_by_zscore (spread : Series float) (w : nat) (k : float) :
  Spread.latest_boll_breach spread
    (fst (Scanner._compute_bollinger_bands spread w k))
    (snd (Scanner._compute_bollinger_bands spread w k))
  = Ok (beyond k (latest_value (Spread.zscore spread w))).
Proof.
  pose proof (latest_boll_breach_on_computed_bands spread w k) as H.
  cbn zeta in H. rewrite H. clear H.
  destruct (bands_lengths spread w k) as [Hu Hl].
  unfold Scanner.latest_breach_of.
  destruct spread as [| p rest] eqn:Hs.
  - cbn. now rewrite beyond_nan.
  - rewrite <- Hs in *.
    assert (Hne : spread <> []) by (rewrite Hs; discriminate).
    assert (Hlen : length spread - 1 < length spread)
      by (rewrite Hs; cbn [length]; lia).
    assert (Hb : Scanner._detect_bollinger_breach spread
                   (fst (Scanner._compute_bollinger_bands spread w k))
                   (snd (Scanner._compute_bollinger_bands spread w k)) <> []).
    { intros E. apply (f_equal (@length _)) in E.
      rewrite detect_breach_length in E by assumption. rewrite Hs in E. discriminate. }
    destruct (Scanner._detect_bollinger_breach spread _ _) as [| b0 brest] eqn:Hd;
      [contradiction |].
    rewrite <- Hd in *. rewrite (iloc_last_nth _ _ false Hb).
    rewrite detect_breach_length by assumption.
    rewrite breach_row by assumption.
    rewrite latest_value_nth.
    + rewrite zscore_length, Hd. reflexivity.
    + intros E. apply (f_equal (@length _)) in E. rewrite zscore_length in E.
      rewrite Hs in E. discriminate.
Qed.

(** The body of the opportunity count, as a rule on the latest z-score. *)
Lemma pair_opportunity_rule (prices_wide : DataFrame) (settings : Settings)
  (ab : string * string) :
  Scanner.pair_opportunity prices_wide settings ab
  = (spread <- Spread.spread_series prices_wide (fst ab) (snd ab) ;;
     Ok (opportunity_rule settings
           (latest_value (Spread.zscore spread (z_window settings))))).
Proof.
  unfold Scanner.pair_opportunity.
  destruct (Spread.spread_series prices_wide (fst ab) (snd ab)) as [spread | e];
    [| reflexivity].
  cbn [bind].
  destruct (computed_bands_shape spread (z_window settings) (boll_k settings))
    as (-> & _).
  rewrite latest_breach_by_zscore. cbn [bind].
  unfold opportunity_rule.
  destruct (Spread.zscore spread (z_window settings)) as [| z0 zrest] eqn:Hz.
  - cbn. now destruct (z_entry settings).
  - rewrite <- Hz in *.
    assert (Hne : Spread.zscore spread (z_window settings) <> [])
      by (rewrite Hz; discriminate).
    replace (empty (Spread.zscore spread (z_window settings))) with false
      by (rewrite Hz; reflexivity).
    rewrite (iloc_last_nth _ _ NaN Hne). cbn [bind].
    rewrite (latest_value_nth _ Hne).
    destruct (nth _ (values (Spread.zscore spread (z_window settings))) NaN);
      try reflexivity.
    cbn. now destruct (z_entry settings).
Qed.

Lemma fle_Fin (a b : R) : fle (Fin a) (Fin b) = true <-> (a <= b)%R.
Proof.
  unfold fle. cbn [flt feq]. split.
  - intros H. apply orb_true_iff in H as [H | H].
    + apply Rltb_iff in H. lra.
    + unfold Reqb in H. destruct (Req_dec_T a b); [lra | discriminate].
  - intros H. destruct (Rlt_dec a b) as [Hlt | Hge].
    + now rewrite Rltb_true.
    + rewrite (Reqb_true a b) by lra. apply orb_true_r.
Qed.

Lemma fge_zero_cases (k : float) :
  fge k (Fin 0) = true -> k = PInf \/ exists kappa, k = Fin kappa /\ (0 <= kappa)%R.
Proof.
  destruct k as [| | | kappa]; cbn; try discriminate; [now left |].
  intros H. right. exists kappa. split; [reflexivity |].
  unfold fge, fgt in H. cbn [flt feq] in H. apply orb_true_iff in H as [H | H].
  - apply Rltb_iff in H. lra.
  - unfold Reqb in H. destruct (Req_dec_T kappa 0); [lra | discriminate].
Qed.

Lemma band_order (mu sd : R) (k : float) :
  (0 <= sd)%R -> fge k (Fin 0) = true ->
  isnan (fadd (Fin mu) (fmul k (Fin sd))) = false ->
  fle (fsub (Fin mu) (fmul k (Fin sd))) (Fin mu) = true
  /\ fle (Fin mu) (fadd (Fin mu) (fmul k (Fin sd))) = true.
Proof.
  intros Hsd Hk Hdef. destruct (fge_zero_cases k Hk) as [-> | (kappa & -> & Hkappa)].
  - cbn [fmul] in *. destruct (Req_dec_T sd 0) as [-> | Hnz].
    + rewrite inf_of_sign_zero in Hdef. discriminate.
    + rewrite inf_of_sign_pos by lra. now cbn.
  - cbn [fmul fsub fneg fadd].
    assert (Hprod : (0 <= kappa * sd)%R) by now apply Rmult_le_pos.
    split; apply fle_Fin; lra.
Qed.

(** For a multiplier [k >= 0] the bands of [bollinger_bands] enclose the
    middle line wherever the upper band is defined:
    [lower <= mid <= upper]. *)
Theorem bollinger_bands_ordered (series : Series float) (w : nat) (k : float) (i : nat)
  (Hk : fge k (Fin 0) = true) (Hi : i < length series) :
  let mid := fst (fst (Spread.bollinger_bands series w k)) in
  let upper := snd (fst (Spread.bollinger_bands series w k)) in
  let lower := snd (Spread.bollinger_bands series w k) in
  isnan (nth i (values upper) NaN) = false ->
  fle (nth i (values lower) NaN) (nth i (values mid) NaN) = true
  /\ fle (nth i (values mid) NaN) (nth i (values upper) NaN) = true.
Proof.
  destruct (computed_bands_shape series w k) as (-> & _). cbn [fst snd].
  destruct (bands_at series w k i Hi) as [-> ->].
  unfold rolling_mean. rewrite nth_values_rolling by assumption.
  assert (Hx : i < length (values series)) by now rewrite length_values.
  destruct (rolling_stats_cases w i (values series) Hx)
    as [-> | (r & mu & sd & _ & -> & -> & Hpos & _)].
  - intros Hdef. exfalso.
    destruct (roll_at agg_mean w (values series) i), k; discriminate.
  - now apply band_order.
Qed.

Lemma var_R_1_3 : var_R [1; 3]%R = 2%R.
Proof. unfold var_R, mean_R. cbn [length map Rsum fold_right INR]. field. Qed.

Lemma sample_window_std (x : float) :
  roll_at agg_std 2 [x; Fin 1; Fin 3] 2 = Fin (sqrt 2)
  /\ roll_at agg_mean 2 [x; Fin 1; Fin 3] 2 = Fin (mean_R [1; 3]%R).
Proof.
  cbv [roll_at window Nat.ltb Nat.leb Nat.add Nat.sub firstn skipn all_finite
       agg_std agg_var agg_mean length fsqrt].
  rewrite var_R_1_3, Rltb_false by lra. split; reflexivity.
Qed.

Lemma sample_spread_stats :
  roll_at agg_std 2 (values sample_spread) 1 = Fin (sqrt 2)
  /\ roll_at agg_mean 2 (values sample_spread) 1 = Fin (mean_R [1; 3]%R).
Proof.
  cbv [sample_spread values map snd roll_at window Nat.ltb Nat.leb Nat.add Nat.sub
       firstn skipn all_finite agg_std agg_var agg_mean length fsqrt].
  rewrite var_R_1_3, Rltb_false by lra. split; reflexivity.
Qed.

Lemma bollinger_bands_ordered_witness :
  fle (nth 1 (values (snd (Spread.bollinger_bands sample_spread 2 (Fin 2)))) NaN)
      (nth 1 (values (fst (fst (Spread.bollinger_bands sample_spread 2 (Fin 2))))) NaN)
  = true
  /\ fle (nth 1 (values (fst (fst (Spread.bollinger_bands sample_spread 2 (Fin 2))))) NaN)
         (nth 1 (values (snd (fst (Spread.bollinger_bands sample_spread 2 (Fin 2))))) NaN)
     = true.
Proof.
  assert (Hk : fge (Fin 2) (Fin 0) = true).
  { unfold fge, fgt. cbn [flt feq]. now rewrite Rltb_true by lra. }
  assert (Hi : 1 < length sample_spread) by (cbn; lia).
  apply (bollinger_bands_ordered sample_spread 2 (Fin 2) 1 Hk Hi).
  destruct (computed_bands_shape sample_spread 2 (Fin 2)) as (-> & _). cbn [fst snd].
  destruct (bands_at sample_spread 2 (Fin 2) 1 Hi) as [-> _].
  destruct sample_spread_stats as [-> ->]. reflexivity.
Defined.

(** Where the z-score is a number, it is the distance of the row from the
    rolling mean in units of the rolling deviation:
    [zscore * rolling_std = series - rolling_mean]. *)
Theorem zscore_times_std (series : Series float) (w : nat) (i : nat)
  (Hi : i < length series)
  (Hz : isfinite (nth i (values (Spread.zscore series w)) NaN) = true) :
  fmul (nth i (values (Spread.zscore series w)) NaN)
       (nth i (values (rolling_std w series)) NaN)
  = fsub (nth i (values series) NaN) (nth i (values (rolling_mean w series)) NaN).
Proof.
  unfold rolling_std, rolling_mean. rewrite !nth_values_rolling by assumption.
  rewrite zscore_at in * by assumption.
  assert (Hx : i < length (values series)) by now rewrite length_values.
  destruct (rolling_stats_cases w i (values series) Hx)
    as [Hnan | (r & mu & sd & Hr & Hmu & Hsd & Hpos & Hconst)].
  - rewrite Hnan in Hz.
    now destruct (fsub (nth i (values series) NaN)
                       (roll_at agg_mean w (values series) i)).
  - rewrite Hr, Hmu, Hsd in *. cbn [fsub fneg fadd fdiv] in *.
    destruct (Req_dec_T sd 0) as [Hzero | Hnz].
    + rewrite (Hconst Hzero), Hzero in Hz. rewrite Reqb_true in Hz by reflexivity.
      replace (mu + - mu)%R with 0%R in Hz by lra.
      rewrite inf_of_sign_zero in Hz. discriminate.
    + rewrite Reqb_false by assumption. cbn [fmul]. f_equal. field. assumption.
Qed.

Lemma zscore_times_std_witness :
  fmul (nth 2 (values (Spread.zscore sample_flat 2)) NaN)
       (nth 2 (values (rolling_std 2 sample_flat)) NaN)
  = fsub (nth 2 (values sample_flat) NaN)
         (nth 2 (values (rolling_mean 2 sample_flat)) NaN).
Proof.
  assert (Hi : 2 < length sample_flat) by (cbn; lia).
  apply (zscore_times_std sample_flat 2 2 Hi).
  rewrite zscore_at by assumption.
  change (values sample_flat) with [Fin 1; Fin 1; Fin 3].
  destruct (sample_window_std (Fin 1)) as [-> ->].
  cbn [nth fsub fneg fadd fdiv].
  assert (Hpos : (0 < sqrt 2)%R) by (apply sqrt_lt_R0; lra).
  rewrite Reqb_false by lra. reflexivity.
Defined.

(** ** Swapping the two tickers of a pair *)

Lemma fneg_involutive (x : float) : fneg (fneg x) = x.
Proof. destruct x; cbn; try reflexivity. f_equal. lra. Qed.

Lemma fsub_swap (x y : float) : fsub y x = fneg (fsub x y).
Proof. destruct x, y; cbn; try reflexivity. f_equal. lra. Qed.

Lemma fsub_fneg (x y : float) : fsub (fneg x) (fneg y) = fneg (fsub x y).
Proof. destruct x, y; cbn; try reflexivity. f_equal. lra. Qed.

Lemma inf_of_sign_opp (a : R) : inf_of_sign (- a) = fneg (inf_of_sign a).
Proof.
  unfold inf_of_sign.
  destruct (Rlt_dec 0 a) as [Hpos | Hnpos].
  - rewrite (Rltb_true 0 a), (Rltb_false 0 (- a)), (Rltb_true (- a) 0) by lra.
    reflexivity.
  - rewrite (Rltb_false 0 a) by lra.
    destruct (Rlt_dec a 0) as [Hneg | Hnneg].
    + rewrite (Rltb_true a 0), (Rltb_true 0 (- a)) by lra. reflexivity.
    + rewrite (Rltb_false a 0), (Rltb_false 0 (- a)), (Rltb_false (- a) 0) by lra.
      reflexivity.
Qed.

Lemma fdiv_fneg (x y : float) : fdiv (fneg x) y = fneg (fdiv x y).
Proof.
  destruct x as [| | | a], y as [| | | b]; cbn; try reflexivity.
  - now destruct (Rltb b 0).
  - now destruct (Rltb b 0).
  - f_equal. lra.
  - f_equal. lra.
  - destruct (Reqb b 0); [apply inf_of_sign_opp |].
    cbn. f_equal. unfold Rdiv. ring.
Qed.

Lemma Rltb_opp (a b : R) : Rltb (- a) (- b) = Rltb b a.
Proof.
  destruct (Rlt_dec b a).
  - now rewrite !Rltb_true by lra.
  - now rewrite !Rltb_false by lra.
Qed.

Lemma flt_fneg (x y : float) : flt (fneg x) (fneg y) = flt y x.
Proof. destruct x, y; cbn; try reflexivity. apply Rltb_opp. Qed.

Lemma fabs_fneg (x : float) : fabs (fneg x) = fabs x.
Proof. destruct x; cbn; try reflexivity. now rewrite Rabs_Ropp. Qed.

Lemma beyond_fneg (k z : float) : beyond k (fneg z) = beyond k z.
Proof.
  unfold beyond, fgt.
  rewrite flt_fneg.
  rewrite <- (fneg_involutive k) at 1. rewrite flt_fneg.
  apply orb_comm.
Qed.

Lemma opportunity_rule_fneg (settings : Settings) (z : float) :
  opportunity_rule settings (fneg z) = opportunity_rule settings z.
Proof. unfold opportunity_rule. now rewrite fabs_fneg, beyond_fneg. Qed.

(** *** Rolling statistics of a negated series *)

Lemma all_finite_fneg (l : list float) :
  all_finite (map fneg l)
  = match all_finite l with Some obs => Some (map Ropp obs) | None => None end.
Proof.
  induction l as [| x rest IH]; [reflexivity |].
  destruct x; cbn [map fneg all_finite]; try reflexivity.
  rewrite IH. now destruct (all_finite rest).
Qed.

Lemma window_map (A B : Type) (f : A -> B) (w i : nat) (xs : list A) :
  window w i (map f xs) = map f (window w i xs).
Proof. unfold window. now rewrite firstn_map, skipn_map. Qed.

Lemma Rsum_opp (l : list R) : Rsum (map Ropp l) = (- Rsum l)%R.
Proof.
  induction l as [| x rest IH]; cbn [map]; rewrite ?Rsum_cons.
  - unfold Rsum. simpl. lra.
  - rewrite IH. lra.
Qed.

Lemma mean_R_opp (l : list R) : mean_R (map Ropp l) = (- mean_R l)%R.
Proof. unfold mean_R. rewrite Rsum_opp, length_map. unfold Rdiv. ring. Qed.

Lemma var_R_opp (l : list R) : var_R (map Ropp l) = var_R l.
Proof.
  unfold var_R. rewrite mean_R_opp, length_map, map_map. f_equal. f_equal.
  apply map_ext. intros x. ring.
Qed.

Lemma roll_mean_fneg (w i : nat) (xs : list float) :
  roll_at agg_mean w (map fneg xs) i = fneg (roll_at agg_mean w xs i).
Proof.
  unfold roll_at. destruct (i + 1 <? w); [reflexivity |].
  rewrite window_map, all_finite_fneg.
  destruct (all_finite (window w i xs)) as [obs |]; [| reflexivity].
  destruct obs as [| r rest]; [reflexivity |].
  change (map Ropp (r :: rest)) with (- r :: map Ropp rest)%R at 1. cbn [agg_mean].
  change (- r :: map Ropp rest)%R with (map Ropp (r :: rest)).
  now rewrite mean_R_opp.
Qed.

Lemma roll_std_fneg (w i : nat) (xs : list float) :
  roll_at agg_std w (map fneg xs) i = roll_at agg_std w xs i.
Proof.
  unfold roll_at. destruct (i + 1 <? w); [reflexivity |].
  rewrite window_map, all_finite_fneg.
  destruct (all_finite (window w i xs)) as [obs |]; [| reflexivity].
  unfold agg_std, agg_var. now rewrite length_map, var_R_opp.
Qed.

(** The z-score of the negated series is the negated z-score. *)
Lemma zscore_fneg (series : Series float) (w : nat) :
  Spread.zscore (smap fneg series) w = smap fneg (Spread.zscore series w).
Proof.
  apply series_ext.
  - now rewrite index_smap, !zscore_index, index_smap.
  - apply nth_ext with (d := NaN) (d' := NaN).
    + now rewrite !length_values, length_smap, !zscore_length, length_smap.
    + intros i Hi. rewrite length_values, zscore_length, length_smap in Hi.
      rewrite zscore_at by now rewrite length_smap.
      rewrite (nth_values_smap _ _ fneg (Spread.zscore series w) i NaN NaN)
        by now rewrite zscore_length.
      rewrite zscore_at by assumption.
      rewrite values_smap, roll_mean_fneg, roll_std_fneg.
      rewrite (nth_indep _ NaN (fneg NaN)) by now rewrite length_map, length_values.
      rewrite map_nth, fsub_fneg. apply fdiv_fneg.
Qed.

Lemma latest_value_fneg (s : Series float) :
  latest_value (smap fneg s) = fneg (latest_value s).
Proof.
  unfold latest_value. rewrite values_smap.
  destruct s as [| p rest]; [reflexivity |].
  destruct (exists_last (l := p :: rest)) as [front [q Hq]]; [discriminate |].
  rewrite Hq. unfold values. rewrite !map_app. cbn [map].
  now rewrite !last_opt_snoc.
Qed.

(** *** The spread of the swapped pair *)

Lemma szip_combine (A B C : Type) (f : A -> B -> C) (idx : list Z)
  (xs : list A) (ys : list B) :
  szip f (combine idx xs) (combine idx ys) = combine idx (zip_with f xs ys).
Proof.
  revert xs ys. induction idx as [| t r IH]; intros [| x xs] [| y ys]; try reflexivity.
  unfold szip in *. cbn. now rewrite IH.
Qed.

Lemma smap_combine (A B : Type) (f : A -> B) (idx : list Z) (xs : list A) :
  smap f (combine idx xs) = combine idx (map f xs).
Proof.
  revert xs. induction idx as [| t r IH]; intros [| x xs]; try reflexivity.
  unfold smap in *. cbn. now rewrite IH.
Qed.

Lemma zip_with_fsub_swap (xs ys : list float) :
  zip_with fsub ys xs = map fneg (zip_with fsub xs ys).
Proof.
  revert ys. induction xs as [| x r IH]; intros [| y r2]; try reflexivity.
  cbn. now rewrite IH, fsub_swap.
Qed.

Lemma spread_series_swap (prices_wide : DataFrame) (a b : string) :
  Spread.spread_series prices_wide b a
  = (spread <- Spread.spread_series prices_wide a b ;; Ok (smap fneg spread)).
Proof.
  unfold Spread.spread_series, getitem.
  destruct (lookup_column prices_wide a) as [xa |], (lookup_column prices_wide b) as [xb |];
    cbn [bind]; try reflexivity.
  rewrite !smap_combine, !szip_combine, smap_combine. do 2 f_equal.
  apply zip_with_fsub_swap.
Qed.

(** ** Opportunities *)

(** The count does not depend on which ticker of a pair comes first. *)
Lemma pair_opportunity_swap (prices_wide : DataFrame) (settings : Settings) (a b : string) :
  Scanner.pair_opportunity prices_wide settings (b, a)
  = Scanner.pair_opportunity prices_wide settings (a, b).
Proof.
  rewrite !pair_opportunity_rule. cbn [fst snd].
  rewrite spread_series_swap.
  destruct (Spread.spread_series prices_wide a b) as [spread | e]; [| reflexivity].
  cbn [bind]. now rewrite zscore_fneg, latest_value_fneg, opportunity_rule_fneg.
Qed.

Lemma fold_count (A : Type) (f : A -> bool) (l : list A) (n : nat) :
  fold_left (fun c x => if f x then c + 1 else c) l n = n + length (filter f l).
Proof.
  revert n. induction l as [| x rest IH]; intros n; cbn [fold_left filter].
  - cbn. lia.
  - rewrite IH. destruct (f x); cbn [length]; lia.
Qed.

Lemma count_filter_perm (A : Type) (f : A -> bool) (l l' : list A) :
  Permutation l l' -> length (filter f l) = length (filter f l').
Proof. intros H. apply Permutation_length. now apply filter_perm. Qed.

(** For a test that does not see the order inside a pair, the number of
    pairs that pass does not depend on the order of the list. *)
Lemma count_combinations_perm (A : Type) (f : A * A -> bool) (l l' : list A) :
  (forall x y, f (x, y) = f (y, x)) ->
  Permutation l l' ->
  length (filter f (combinations2 l)) = length (filter f (combinations2 l')).
Proof.
  intros Hsym. induction 1 as [| x l l' Hperm IH | x y l | l l' l'' H1 IH1 H2 IH2].
  - reflexivity.
  - cbn [combinations2]. rewrite !filter_app, !length_app, IH. f_equal.
    apply count_filter_perm. now apply Permutation_map.
  - cbn [combinations2 map app]. cbn [filter].
    rewrite (Hsym y x).
    assert (Hrest : length (filter f (map (pair y) l ++ map (pair x) l ++ combinations2 l))
                    = length (filter f (map (pair x) l ++ map (pair y) l ++ combinations2 l))).
    { rewrite !filter_app, !length_app. lia. }
    destruct (f (x, y)); cbn [length]; now rewrite Hrest.
  - congruence.
Qed.

(** In the warm-up of the rolling window no pair is an opportunity. *)
Lemma pair_opportunity_warm_up (prices_wide : DataFrame) (settings : Settings)
  (ab : string * string) :
  nrows prices_wide < z_window settings ->
  try_except (Scanner.pair_opportunity prices_wide settings ab) false = false.
Proof.
  intros Hshort. rewrite pair_opportunity_rule.
  unfold Spread.spread_series, getitem.
  destruct (lookup_column prices_wide (fst ab)) as [xa |]; [| reflexivity].
  destruct (lookup_column prices_wide (snd ab)) as [xb |]; [| reflexivity].
  cbn [bind try_except].
  rewrite !smap_combine, szip_combine.
  set (spread := combine (df_index prices_wide) _).
  assert (Hlen : length spread <= nrows prices_wide).
  { unfold spread, nrows. rewrite length_combine. lia. }
  assert (Hz : latest_value (Spread.zscore spread (z_window settings)) = NaN).
  { destruct spread as [| p rest] eqn:Hs; [reflexivity |]. rewrite <- Hs in *.
    assert (Hne : Spread.zscore spread (z_window settings) <> []).
    { intros E. apply (f_equal (@length _)) in E. rewrite zscore_length, Hs in E.
      discriminate. }
    rewrite (latest_value_nth _ Hne), zscore_length.
    rewrite zscore_at by (rewrite Hs; cbn [length]; lia).
    unfold roll_at.
    destruct (Nat.ltb_spec (length spread - 1 + 1) (z_window settings)) as [_ | Hge].
    - now destruct (nth (length spread - 1) (values spread) NaN).
    - rewrite Hs in *. cbn [length] in *. lia. }
  rewrite Hz. unfold opportunity_rule. cbn. now destruct (z_entry settings).
Qed.

(** The opportunity count of a basket on the Overview page (scan_baskets:
    pairs in the order of the configured tickers, skipped altogether on a
    table shorter than the z-score window) is the count the Basket
    Explorer page computes for the same basket from the same prices and
    settings (pairs of the sorted tickers, no such gate). *)
Theorem overview_and_explorer_counts_agree (prices_wide logret : DataFrame)
  (settings : Settings) (lookback_bars : nat) (basket_name : string)
  (tickers_raw : list string) :
  Scanner.opp_count
    (Scanner.scan_basket prices_wide logret settings lookback_bars basket_name tickers_raw)
  = BasketExplorer.opp_count prices_wide settings
      (BasketExplorer.pairs (BasketExplorer.valid_tickers prices_wide tickers_raw)).
Proof.
  change (BasketExplorer.valid_tickers prices_wide tickers_raw)
    with (Scanner.valid_tickers prices_wide tickers_raw).
  set (valid := Scanner.valid_tickers prices_wide tickers_raw).
  set (counts := fun ab => try_except (Scanner.pair_opportunity prices_wide settings ab) false).
  assert (Hpage : BasketExplorer.opp_count prices_wide settings (BasketExplorer.pairs valid)
                  = length (filter counts (combinations2 valid))).
  { unfold BasketExplorer.opp_count, BasketExplorer.pairs.
    change (fun ab => try_except (BasketExplorer.pair_counts prices_wide settings ab) false)
      with counts.
    rewrite (fold_count _ counts). cbn [Nat.add].
    apply count_combinations_perm.
    - intros x y. unfold counts. now rewrite pair_opportunity_swap.
    - apply Permutation_sym, sorted_perm. }
  rewrite Hpage. unfold Scanner.scan_basket. cbn zeta. fold valid.
  destruct (Nat.ltb_spec (length valid) 2) as [Hsmall | Hbig].
  - cbn [Scanner.opp_count].
    destruct valid as [| t [| t' rest]]; cbn [length] in Hsmall; try lia; reflexivity.
  - cbn [Scanner.opp_count]. unfold Scanner.count_opportunities.
    change (fun opp_count ab =>
              if try_except (Scanner.pair_opportunity prices_wide settings ab) false
              then opp_count + 1 else opp_count)
      with (fun c ab => if counts ab then c + 1 else c).
    destruct (Nat.leb_spec (z_window settings) (nrows prices_wide)) as [Hen | Hshort].
    + now rewrite fold_count.
    + symmetry. apply length_zero_iff_nil. clear Hpage.
      induction (combinations2 valid) as [| ab rest IH]; [reflexivity |].
      cbn [filter]. unfold counts at 1.
      now rewrite pair_opportunity_warm_up.
Qed.

Lemma rolling_std_fneg (series : Series float) (w : nat) :
  rolling_std w (smap fneg series) = rolling_std w series.
Proof.
  unfold rolling_std. apply series_ext.
  - now rewrite !index_rolling, index_smap.
  - rewrite !values_rolling, values_smap. unfold roll.
    rewrite length_map. apply map_ext. intros i. apply roll_std_fneg.
Qed.

(** Swapping the two tickers of a pair negates the spread, in the spread
    module and in the scanner's copy alike (and fails alike when a ticker
    is no column); on a negated series the rolling deviation is unchanged
    and the z-score is negated. *)
Theorem spread_swap_negates (prices_wide : DataFrame) (a b : string) (w : nat) :
  Spread.spread_series prices_wide b a
  = (spread <- Spread.spread_series prices_wide a b ;; Ok (smap fneg spread))
  /\ Scanner._compute_spread prices_wide b a
     = (spread <- Scanner._compute_spread prices_wide a b ;; Ok (smap fneg spread))
  /\ (forall spread,
      Spread.spread_series prices_wide a b = Ok spread ->
      exists swapped,
        Spread.spread_series prices_wide b a = Ok swapped
        /\ index swapped = index spread
        /\ rolling_std w swapped = rolling_std w spread
        /\ Spread.zscore swapped w = smap fneg (Spread.zscore spread w)).
Proof.
  split; [apply spread_series_swap |].
  split; [exact (spread_series_swap prices_wide a b) |].
  intros spread Hs. exists (smap fneg spread).
  rewrite spread_series_swap, Hs. cbn [bind].
  split; [reflexivity |]. split; [apply index_smap |].
  split; [apply rolling_std_fneg | apply zscore_fneg].
Qed.

(** ** Rows of the basket summary *)

Lemma agg_std_nonneg (obs : list R) :
  agg_std obs = NaN \/ exists v, agg_std obs = Fin v /\ (0 <= v)%R.
Proof.
  unfold agg_std, agg_var. destruct (length obs <=? 1); [now left |].
  cbn [fsqrt]. destruct (Rltb (var_R obs) 0); [now left |].
  right. eexists. split; [reflexivity | apply sqrt_pos].
Qed.

(** [s.std()] is missing or a number that is not negative. *)
Lemma nanstd_nonneg (l : list float) :
  nanstd l = NaN \/ exists v, nanstd l = Fin v /\ (0 <= v)%R.
Proof.
  unfold nanstd. destruct (all_finite (dropna l)); [apply agg_std_nonneg | now left].
Qed.

Lemma basket_vol_body_nonneg (logret : DataFrame) (valid_tickers : list string)
  (settings : Settings) :
  let vol := try_except (Scanner.basket_vol_body logret valid_tickers settings) NaN in
  vol = NaN \/ exists v, vol = Fin v /\ (0 <= v)%R.
Proof.
  cbn zeta. unfold Scanner.basket_vol_body.
  destruct (Metrics.basket_return logret valid_tickers) as [basket_ret | e];
    cbn [bind try_except]; [| now left].
  destruct (analytics_window settings <=? length basket_ret); cbn [try_except].
  - destruct (1 <? length (tail (analytics_window settings) basket_ret));
      [apply nanstd_nonneg | now left].
  - destruct (1 <? length basket_ret); cbn [try_except];
      [apply nanstd_nonneg | now left].
Qed.

Lemma count_opportunities_le (prices_wide : DataFrame) (settings : Settings)
  (pairs : list (string * string)) :
  Scanner.count_opportunities prices_wide settings pairs <= length pairs.
Proof.
  unfold Scanner.count_opportunities.
  rewrite (fold_count _
             (fun ab => try_except (Scanner.pair_opportunity prices_wide settings ab) false)).
  cbn [Nat.add]. apply filter_length_le.
Qed.

Lemma valid_tickers_le (prices_wide : DataFrame) (tickers_raw : list string) :
  length (Scanner.valid_tickers prices_wide tickers_raw) <= length tickers_raw.
Proof.
  unfold Scanner.valid_tickers, CcxtData.normalize_symbols. cbn zeta.
  etransitivity; [apply filter_length_le |]. now rewrite length_map.
Qed.

(** What every iteration of the loop over the baskets yields. *)
Lemma scan_basket_row (prices_wide logret : DataFrame) (settings : Settings)
  (lookback_bars : nat) (basket_name : string) (tickers_raw : list string) :
  let row :=
    Scanner.scan_basket prices_wide logret settings lookback_bars basket_name tickers_raw in
  let n := length (Scanner.valid_tickers prices_wide tickers_raw) in
  Scanner.basket row = basket_name
  /\ Scanner.n_tickers row = n
  /\ n <= length tickers_raw
  /\ Scanner.opp_count row <= n * (n - 1) / 2
  /\ (nrows prices_wide < z_window settings -> Scanner.opp_count row = 0)
  /\ (Scanner.basket_vol row = NaN
      \/ exists v, Scanner.basket_vol row = Fin v /\ (0 <= v)%R).
Proof.
  cbn zeta. unfold Scanner.scan_basket. cbn zeta.
  pose proof (valid_tickers_le prices_wide tickers_raw) as Hle.
  destruct (length (Scanner.valid_tickers prices_wide tickers_raw) <? 2).
  - cbn. repeat split; auto; lia.
  - cbn [Scanner.basket Scanner.n_tickers Scanner.opp_count Scanner.basket_vol].
    repeat split; try assumption.
    + destruct (z_window settings <=? nrows prices_wide); [| lia].
      rewrite <- combinations2_count. apply count_opportunities_le.
    + intros Hshort.
      destruct (Nat.leb_spec (z_window settings) (nrows prices_wide)); [lia | reflexivity].
    + apply basket_vol_body_nonneg.
Qed.

(** Every row of the table of [scan_baskets] belongs to a configured
    basket: it carries the basket's name and its number of valid tickers
    [n], which is at most the number of configured tickers; its
    opportunity count is at most [n*(n-1)/2], and 0 on a price table with
    fewer rows than the z-score window; its volatility is NaN or a number
    that is not negative.  The table has one row per basket. *)
Theorem scan_baskets_rows_bounded (prices_wide : DataFrame)
  (baskets : list (string * list string)) (settings : Settings) (lookback_bars : nat)
  (row : Scanner.BasketRow)
  (Hrow : In row (Scanner.scan_baskets prices_wide baskets settings lookback_bars)) :
  length (Scanner.scan_baskets prices_wide baskets settings lookback_bars)
  = length baskets
  /\ exists tickers_raw,
      In (Scanner.basket row, tickers_raw) baskets
      /\ Scanner.n_tickers row = length (Scanner.valid_tickers prices_wide tickers_raw)
      /\ Scanner.n_tickers row <= length tickers_raw
      /\ Scanner.opp_count row <= Scanner.n_tickers row * (Scanner.n_tickers row - 1) / 2
      /\ (nrows prices_wide < z_window settings -> Scanner.opp_count row = 0)
      /\ (Scanner.basket_vol row = NaN
          \/ exists v, Scanner.basket_vol row = Fin v /\ (0 <= v)%R).
Proof.
  pose proof (scan_baskets_perm prices_wide baskets settings lookback_bars) as Hperm.
  split.
  - rewrite <- (Permutation_length Hperm). unfold Scanner.scan_baskets_rows.
    apply length_map.
  - apply Permutation_sym in Hperm. apply (Permutation_in _ Hperm) in Hrow.
    unfold Scanner.scan_baskets_rows in Hrow. cbn zeta in Hrow.
    apply in_map_iff in Hrow as ([name raw] & <- & Hin). cbn [fst snd].
    destruct (scan_basket_row prices_wide (Metrics.log_returns prices_wide) settings
                lookback_bars name raw) as (Hname & Hn & Hle & Hopp & Hshort & Hvol).
    exists raw. rewrite Hname, Hn. repeat split; assumption.
Qed.

Lemma scan_baskets_rows_bounded_witness :
  exists tickers_raw,
    In ("solo"%string, tickers_raw) [("pair", ["A"; "B"]); ("solo", ["A"; "ZZZUSD"])]%string
    /\ Scanner.n_tickers (Scanner.mkBasketRow "solo" 1 NaN 0 EmptyString)
       <= length tickers_raw.
Proof.
  assert (Hrow : In (Scanner.mkBasketRow "solo" 1 NaN 0 EmptyString)
                    (Scanner.scan_baskets sample_prices
                       [("pair", ["A"; "B"]); ("solo", ["A"; "ZZZUSD"])]%string
                       default_settings 24)).
  { eapply Permutation_in; [apply scan_baskets_perm |].
    unfold Scanner.scan_baskets_rows. cbn zeta. cbn [map fst snd].
    right. left. vm_compute. reflexivity. }
  destruct (proj2 (scan_baskets_rows_bounded sample_prices _ default_settings 24 _ Hrow))
    as (raw & Hin & _ & Hle & _).
  exists raw. split; [exact Hin | exact Hle].
Defined.

(** ** Trimming the history *)

Import CcxtFrames.

Lemma fold_max_ge (l : list Z) (t : Z) : (t <= fold_left Z.max l t)%Z.
Proof.
  revert t. induction l as [| x rest IH]; intros t; cbn [fold_left]; [lia |].
  specialize (IH (Z.max t x)). lia.
Qed.

Lemma fold_max_bound (l : list Z) (t x : Z) :
  In x l -> (x <= fold_left Z.max l t)%Z.
Proof.
  revert t. induction l as [| y rest IH]; intros t; [contradiction |].
  cbn [fold_left]. intros [-> | Hin]; [| now apply IH].
  pose proof (fold_max_ge rest (Z.max t x)). lia.
Qed.

Lemma fold_max_in (l : list Z) (t : Z) :
  fold_left Z.max l t = t \/ In (fold_left Z.max l t) l.
Proof.
  revert t. induction l as [| y rest IH]; intros t; cbn [fold_left]; [now left |].
  destruct (IH (Z.max t y)) as [H | H]; [| right; now right].
  rewrite H. destruct (Z.max_spec t y) as [[_ ->] | [_ ->]]; [right; now left | now left].
Qed.

(** [index.max()] is a label of the index and no label is larger. *)
Lemma index_max_spec (idx : list Z) (m : Z) :
  index_max idx = Some m -> In m idx /\ (forall t, In t idx -> (t <= m)%Z).
Proof.
  destruct idx as [| t rest]; [discriminate |]. cbn [index_max].
  intros [= <-]. split.
  - destruct (fold_max_in rest t) as [-> | H]; [now left | now right].
  - intros x [<- | Hin]; [apply fold_max_ge | now apply fold_max_bound].
Qed.

Lemma index_max_some (idx : list Z) :
  empty idx = false -> exists m, index_max idx = Some m.
Proof. destruct idx as [| t rest]; [discriminate | intros _; now eexists]. Qed.

Lemma mask_select_nil (A : Type) (mask : list bool) : mask_select mask (@nil A) = [].
Proof. now destruct mask. Qed.

Lemma mask_select_index (f : Z -> bool) (idx : list Z) :
  mask_select (map f idx) idx = filter f idx.
Proof.
  induction idx as [| t rest IH]; [reflexivity |].
  cbn [map mask_select filter]. rewrite IH. reflexivity.
Qed.

(** A column under the mask of its index, row by row. *)
Lemma mask_select_combine (A : Type) (f : Z -> bool) (idx : list Z) (xs : list A) :
  combine (mask_select (map f idx) idx) (mask_select (map f idx) xs)
  = filter (fun r => f (fst r)) (combine idx xs).
Proof.
  revert xs. induction idx as [| t rest IH]; intros xs; [reflexivity |].
  destruct xs as [| x xr].
  - rewrite mask_select_nil. cbn [combine filter].
    now destruct (mask_select (map f (t :: rest)) (t :: rest)).
  - cbn [map mask_select combine filter fst].
    destruct (f t); cbn [combine]; now rewrite IH.
Qed.

Lemma mask_select_twice (A : Type) (f : Z -> bool) (idx : list Z) (xs : list A) :
  mask_select (map f (filter f idx)) (mask_select (map f idx) xs)
  = mask_select (map f idx) xs.
Proof.
  revert xs. induction idx as [| t rest IH]; intros xs.
  - cbn. reflexivity.
  - destruct xs as [| x xr]; [now rewrite !mask_select_nil |].
    cbn [map filter mask_select].
    destruct (f t) eqn:Hft; [| apply IH].
    cbn [map mask_select]. rewrite Hft. f_equal. apply IH.
Qed.

Lemma lookup_df_mask (mask : list bool) (df : DataFrame) (t : string) :
  lookup_column (df_mask mask df) t
  = match lookup_column df t with
    | Some xs => Some (mask_select mask xs)
    | None => None
    end.
Proof. exact (lookup_map_columns (mask_select mask) df t). Qed.

Lemma length_mask_select (A : Type) (f : Z -> bool) (idx : list Z) (xs : list A) :
  length xs = length idx ->
  length (mask_select (map f idx) xs) = length (filter f idx).
Proof.
  revert xs. induction idx as [| t rest IH]; intros [| x xr] Hlen; try discriminate;
    [reflexivity |].
  injection Hlen as Hlen. cbn [map mask_select filter].
  destruct (f t); cbn [length]; now rewrite IH.
Qed.

(** The rows that [trim_history] keeps, for a table with rows and
    columns and the latest timestamp [end_date]. *)
Lemma trim_history_rows (prices_wide : DataFrame) (days_display end_date : Z) :
  df_empty prices_wide = false ->
  index_max (df_index prices_wide) = Some end_date ->
  trim_history prices_wide days_display
  = df_mask (map (fun t => (end_date - timedelta_days days_display <=? t)%Z)
               (df_index prices_wide)) prices_wide.
Proof. intros Hne Hmax. unfold trim_history. now rewrite Hne, Hmax. Qed.

(** [trim_history] on a table with rows and columns keeps the rows whose
    timestamp is at most [days_display] days before the latest timestamp
    of the table, in their order and in every column alike, and keeps
    the names of the columns, so a table whose columns are as long as its
    index stays one.  For a number of days that is not negative the latest
    row is kept, so the result still has rows. *)
Theorem trim_history_keeps_recent_rows (prices_wide : DataFrame) (days_display : Z)
  (Hrows : df_empty prices_wide = false) :
  exists end_date,
    index_max (df_index prices_wide) = Some end_date
    /\ In end_date (df_index prices_wide)
    /\ (forall t, In t (df_index prices_wide) -> (t <= end_date)%Z)
    /\ df_index (trim_history prices_wide days_display)
       = filter (fun t => (end_date - days_display * 86400000 <=? t)%Z)
           (df_index prices_wide)
    /\ columns (trim_history prices_wide days_display) = columns prices_wide
    /\ (forall a,
        getitem (trim_history prices_wide days_display) a
        = (prices <- getitem prices_wide a ;;
           Ok (filter (fun row => (end_date - days_display * 86400000 <=? fst row)%Z)
                 prices)))
    /\ (wf_table prices_wide -> wf_table (trim_history prices_wide days_display))
    /\ ((0 <= days_display)%Z ->
        In end_date (df_index (trim_history prices_wide days_display))
        /\ df_empty (trim_history prices_wide days_display) = false).
Proof.
  assert (Hidx : empty (df_index prices_wide) = false).
  { unfold df_empty in Hrows. now apply orb_false_iff in Hrows. }
  destruct (index_max_some _ Hidx) as (end_date & Hmax).
  destruct (index_max_spec _ _ Hmax) as (Hin & Hbound).
  exists end_date. rewrite (trim_history_rows _ days_display _ Hrows Hmax).
  unfold timedelta_days.
  set (keep := fun t => (end_date - days_display * 86400000 <=? t)%Z).
  assert (Hindex : df_index (df_mask (map keep (df_index prices_wide)) prices_wide)
                   = filter keep (df_index prices_wide)).
  { unfold df_mask. cbn [df_index]. apply mask_select_index. }
  repeat split; try assumption.
  - unfold columns, df_mask. cbn [df_columns]. rewrite map_map. now apply map_ext.
  - intros a. unfold getitem. rewrite lookup_df_mask.
    destruct (lookup_column prices_wide a) as [xs |]; [| reflexivity].
    cbn [bind]. f_equal. unfold df_mask. cbn [df_index].
    apply (mask_select_combine _ keep).
  - intros Hwf. unfold wf_table, nrows. rewrite Hindex.
    unfold df_mask. cbn [df_columns]. apply Forall_map. cbn [snd].
    eapply Forall_impl; [| exact Hwf]. intros col Hcol. cbn beta in Hcol.
    now apply length_mask_select.
  - rewrite Hindex. apply filter_In. split; [assumption |].
    unfold keep. apply Z.leb_le. lia.
  - unfold df_empty in *. apply orb_false_iff in Hrows as [_ Hcols].
    apply orb_false_iff. split.
    + rewrite Hindex.
      assert (Hkept : In end_date (filter keep (df_index prices_wide))).
      { apply filter_In. split; [assumption |]. unfold keep. apply Z.leb_le. lia. }
      now destruct (filter keep (df_index prices_wide)).
    + unfold df_mask. cbn [df_columns].
      now destruct (df_columns prices_wide).
Qed.

Lemma trim_history_keeps_recent_rows_witness :
  exists end_date,
    index_max [0; 86400000; 259200000]%Z = Some end_date
    /\ df_index (trim_history
                   (mkDataFrame [0; 86400000; 259200000]%Z
                      [("A"%string, [Fin 1; Fin 2; Fin 3])]) 2)
       = filter (fun t => (end_date - 2 * 86400000 <=? t)%Z) [0; 86400000; 259200000]%Z.
Proof.
  destruct (trim_history_keeps_recent_rows
              (mkDataFrame [0; 86400000; 259200000]%Z
                 [("A"%string, [Fin 1; Fin 2; Fin 3])]) 2 eq_refl)
    as (end_date & Hmax & _ & _ & Hindex & _).
  exists end_date. split; [exact Hmax | exact Hindex].
Defined.

(** Trimming a trimmed table by the same number of days changes nothing,
    whatever the table and the number of days. *)
Theorem trim_history_idempotent (prices_wide : DataFrame) (days_display : Z) :
  trim_history (trim_history prices_wide days_display) days_display
  = trim_history prices_wide days_display.
Proof.
  destruct (df_empty prices_wide) eqn:Hrows.
  { unfold trim_history at 2. rewrite Hrows. unfold trim_history. now rewrite Hrows. }
  assert (Hidx : empty (df_index prices_wide) = false).
  { unfold df_empty in Hrows. now apply orb_false_iff in Hrows. }
  destruct (index_max_some _ Hidx) as (end_date & Hmax).
  destruct (index_max_spec _ _ Hmax) as (Hin & Hbound).
  rewrite (trim_history_rows _ days_display _ Hrows Hmax).
  set (keep := fun t => (end_date - timedelta_days days_display <=? t)%Z).
  set (trimmed := df_mask (map keep (df_index prices_wide)) prices_wide).
  assert (Hindex : df_index trimmed = filter keep (df_index prices_wide)).
  { unfold trimmed, df_mask. cbn [df_index]. apply mask_select_index. }
  destruct (df_empty trimmed) eqn:Htrimmed.
  { unfold trim_history. now rewrite Htrimmed. }
  assert (Hidx' : empty (df_index trimmed) = false).
  { unfold df_empty in Htrimmed. now apply orb_false_iff in Htrimmed. }
  destruct (index_max_some _ Hidx') as (end_date' & Hmax').
  destruct (index_max_spec _ _ Hmax') as (Hin' & Hbound').
  assert (Hsame : end_date' = end_date).
  { rewrite Hindex in Hin', Hbound'.
    apply filter_In in Hin' as (Hin1 & Hkeep1).
    assert (Hkept : In end_date (filter keep (df_index prices_wide))).
    { apply filter_In. split; [assumption |].
      unfold keep in *. apply Z.leb_le. apply Z.leb_le in Hkeep1.
      specialize (Hbound _ Hin1). lia. }
    specialize (Hbound _ Hin1). specialize (Hbound' _ Hkept). lia. }
  subst end_date'.
  rewrite (trim_history_rows _ days_display _ Htrimmed Hmax'). fold keep.
  rewrite Hindex. unfold trimmed, df_mask. cbn [df_index df_columns]. f_equal.
  - apply mask_select_twice.
  - rewrite map_map. apply map_ext. intros [name xs]. cbn [fst snd]. f_equal.
    apply mask_select_twice.
Qed.

(** ** Health of a price table *)

Lemma share_value (missing total : nat) :
  0 < total ->
  fmul (fdiv (Fin (INR missing)) (Fin (INR total))) (Fin 100)
  = Fin (missing_share missing total).
Proof.
  intros Hpos. cbn [fdiv]. rewrite Reqb_false; [reflexivity |].
  apply not_0_INR. lia.
Qed.

Lemma share_bounds (missing total : nat) :
  0 < total -> missing <= total -> (0 <= missing_share missing total <= 100)%R.
Proof.
  intros Hpos Hle. unfold missing_share.
  assert (Ht : (0 < INR total)%R) by (apply lt_0_INR; lia).
  assert (Hm : (0 <= INR missing)%R) by apply pos_INR.
  assert (Hmt : (INR missing <= INR total)%R) by now apply le_INR.
  set (q := (INR missing / INR total)%R).
  assert (Hq : (q * INR total = INR missing)%R) by (unfold q; field; lra).
  split; nra.
Qed.

Lemma count_na_le (xs : list float) : count_na xs <= length xs.
Proof. apply filter_length_le. Qed.

Lemma total_na_le (cols : list (string * list float)) (n : nat) :
  Forall (fun c => length (snd c) = n) cols ->
  list_sum (map (fun c => count_na (snd c)) cols) <= n * length cols.
Proof.
  induction 1 as [| c rest Hc Hrest IH]; simpl; [lia |].
  pose proof (count_na_le (snd c)). rewrite Nat.mul_succ_r. lia.
Qed.

Lemma shares_sum (cols : list (string * list float)) (n : nat) :
  0 < n ->
  Rsum (map (fun c => missing_share (count_na (snd c)) n) cols)
  = missing_share (list_sum (map (fun c => count_na (snd c)) cols)) n.
Proof.
  intros Hpos. assert (Hn : INR n <> 0%R) by (apply not_0_INR; lia).
  induction cols as [| c rest IH]; simpl.
  - unfold missing_share. cbn. field. exact Hn.
  - rewrite IH. unfold missing_share. rewrite plus_INR. field. exact Hn.
Qed.

Lemma StronglySorted_app_inv (A : Type) (Rel : A -> A -> Prop) (l1 l2 : list A) :
  StronglySorted Rel (l1 ++ l2) ->
  StronglySorted Rel l1 /\ Forall (fun x => Forall (Rel x) l2) l1.
Proof.
  induction l1 as [| x rest IH]; cbn [app]; intros Hsorted.
  - split; constructor.
  - inversion Hsorted as [| ? ? Hrest Hall]; subst.
    destruct (IH Hrest) as (Hs & Hcross). apply Forall_app in Hall as (Hxrest & Hx2).
    split; constructor; assumption.
Qed.

(** The list sort of the health report: a permutation in descending
    order, for percentages that are all numbers. *)
Lemma sort_by_pct_desc_spec (entries : list (string * float)) :
  Forall (fun e => isnan (snd e) = false) entries ->
  Permutation entries (sort_by_pct_desc entries)
  /\ StronglySorted (fun e1 e2 => fge (snd e1) (snd e2) = true) (sort_by_pct_desc entries).
Proof.
  intros Hnum. unfold sort_by_pct_desc. split.
  - eapply perm_trans; [apply Permutation_rev |].
    eapply perm_trans; [apply sort_by_perm |]. apply Permutation_rev.
  - apply (StronglySorted_weaken _ (fun e1 e2 => fle (snd e2) (snd e1) = true)).
    { intros e1 e2. apply fle_fge. }
    apply (StronglySorted_rev _ (fun e1 e2 => fle (snd e1) (snd e2) = true)).
    apply (sort_by_sorted _ _ (fun e => isnan (snd e) = false)).
    + intros e1 e2. apply fle_total.
    + intros e1 e2 e3 _ _ _. apply fle_trans.
    + now apply Forall_rev.
Qed.

Lemma symbol_shares_entries (prices_wide : DataFrame) :
  0 < nrows prices_wide ->
  map (fun c => (fst c,
                 fmul (fdiv (Fin (INR (count_na (snd c)))) (Fin (INR (nrows prices_wide))))
                      (Fin 100)))
      (df_columns prices_wide)
  = symbol_shares prices_wide.
Proof.
  intros Hpos. unfold symbol_shares. apply map_ext. intros c.
  now rewrite share_value.
Qed.

Lemma df_empty_false (df : DataFrame) :
  df_empty df = false -> 0 < nrows df /\ 0 < length (columns df).
Proof.
  unfold df_empty, nrows, columns. intros H. apply orb_false_iff in H as [Hi Hc].
  rewrite length_map.
  destruct (df_index df); [discriminate |]. destruct (df_columns df); [discriminate |].
  cbn [length]. lia.
Qed.

(** The health report of a table with rows and columns, every column as
    long as the index: the overall percentage of missing prices lies in
    [0, 100] and is the mean of the percentages of the columns, each of
    which lies in [0, 100]; the top-10 list holds [min 10 n_cols] columns
    in descending order of their percentage, and no column left out has a
    larger percentage than a listed one. *)
Theorem get_data_health_percentages (prices_wide : DataFrame)
  (Hrows : df_empty prices_wide = false) (Hwf : wf_table prices_wide) :
  n_rows (get_data_health prices_wide) = nrows prices_wide
  /\ n_cols (get_data_health prices_wide) = length (columns prices_wide)
  /\ (exists overall,
      overall_missing_pct (get_data_health prices_wide) = Fin overall
      /\ (0 <= overall <= 100)%R
      /\ (overall * INR (length (columns prices_wide))
          = Rsum (map (fun c => missing_share (count_na (snd c)) (nrows prices_wide))
                    (df_columns prices_wide)))%R)
  /\ Forall (fun e => exists v, snd e = Fin v /\ (0 <= v <= 100)%R)
       (symbol_shares prices_wide)
  /\ length (per_symbol_missing_top10 (get_data_health prices_wide))
     = Nat.min 10 (length (columns prices_wide))
  /\ StronglySorted (fun e1 e2 => fge (snd e1) (snd e2) = true)
       (per_symbol_missing_top10 (get_data_health prices_wide))
  /\ exists others,
      Permutation (per_symbol_missing_top10 (get_data_health prices_wide) ++ others)
        (symbol_shares prices_wide)
      /\ Forall (fun e => Forall (fun o => fge (snd e) (snd o) = true) others)
           (per_symbol_missing_top10 (get_data_health prices_wide)).
Proof.
  destruct (df_empty_false _ Hrows) as (Hn & Hm).
  unfold get_data_health. rewrite Hrows. cbn zeta.
  cbn [n_rows n_cols overall_missing_pct per_symbol_missing_top10].
  rewrite (symbol_shares_entries _ Hn).
  assert (Hnum : Forall (fun e => isnan (snd e) = false) (symbol_shares prices_wide)).
  { unfold symbol_shares. apply Forall_forall. intros e He.
    apply in_map_iff in He as (c & <- & _). reflexivity. }
  destruct (sort_by_pct_desc_spec _ Hnum) as (Hperm & Hsorted).
  rewrite <- (firstn_skipn 10 (sort_by_pct_desc (symbol_shares prices_wide))) in Hsorted.
  apply StronglySorted_app_inv in Hsorted as (Htop & Hcross).
  split; [reflexivity |]. split; [reflexivity |]. split; [| split; [| split; [| split]]].
  - exists (missing_share (list_sum (map (fun c => count_na (snd c)) (df_columns prices_wide)))
              (nrows prices_wide * length (columns prices_wide))).
    assert (Hpos : 0 < nrows prices_wide * length (columns prices_wide)) by nia.
    split; [now apply share_value |]. split.
    + apply share_bounds; [assumption |]. unfold columns. rewrite length_map.
      now apply total_na_le.
    + rewrite (shares_sum _ _ Hn). unfold missing_share. rewrite mult_INR.
      field. split; apply not_0_INR; lia.
  - unfold symbol_shares. apply Forall_forall. intros e He.
    apply in_map_iff in He as (c & <- & Hc). cbn [snd]. eexists. split; [reflexivity |].
    apply share_bounds; [assumption |].
    rewrite <- (proj1 (Forall_forall _ _) Hwf c Hc). apply count_na_le.
  - rewrite length_firstn, <- (Permutation_length Hperm).
    unfold symbol_shares, columns. now rewrite !length_map.
  - exact Htop.
  - exists (skipn 10 (sort_by_pct_desc (symbol_shares prices_wide))). split.
    + rewrite firstn_skipn. now apply Permutation_sym.
    + exact Hcross.
Qed.

Lemma get_data_health_percentages_witness :
  n_rows (get_data_health
            (mkDataFrame [0; 1]%Z [("A", [Fin 1; NaN]); ("B", [Fin 1; Fin 2])]%string))
  = 2
  /\ exists overall,
      overall_missing_pct
        (get_data_health
           (mkDataFrame [0; 1]%Z [("A", [Fin 1; NaN]); ("B", [Fin 1; Fin 2])]%string))
      = Fin overall
      /\ (0 <= overall <= 100)%R.
Proof.
  assert (Hwf : wf_table
                  (mkDataFrame [0; 1]%Z [("A", [Fin 1; NaN]); ("B", [Fin 1; Fin 2])]%string)).
  { repeat constructor. }
  destruct (get_data_health_percentages
              (mkDataFrame [0; 1]%Z [("A", [Fin 1; NaN]); ("B", [Fin 1; Fin 2])]%string)
              eq_refl Hwf)
    as (Hn & _ & (overall & Hov & Hbounds & _) & _).
  split; [exact Hn |]. exists overall. split; [exact Hov | exact Hbounds].
Defined.

(** The share of missing prices the members table of the Basket Explorer
    shows for a ticker of the table is a percentage in [0, 100]; it is
    100 when the table has no rows or the display history is 0 days. *)
Theorem missing_pct_is_percentage (prices_wide : DataFrame) (history_days_display : nat)
  (ticker : string) (Hcol : in_columns ticker prices_wide = true) :
  (exists v,
    BasketExplorer.missing_pct prices_wide history_days_display ticker = Ok (Fin v)
    /\ (0 <= v <= 100)%R)
  /\ (nrows prices_wide = 0 \/ history_days_display = 0 ->
      BasketExplorer.missing_pct prices_wide history_days_display ticker = Ok (Fin 100)).
Proof.
  destruct (lookup_in_columns _ _ Hcol) as (xs & Hlookup & _).
  unfold BasketExplorer.missing_pct, getitem. rewrite Hlookup. cbn [bind]. cbn zeta.
  set (recent := tail _ _). split.
  - destruct (Nat.ltb_spec 0 (length recent)) as [Hpos | Hzero].
    + rewrite (share_value _ _ Hpos). eexists. split; [reflexivity |].
      apply share_bounds; [assumption |]. rewrite <- (length_map snd recent).
      apply filter_length_le.
    + exists 100%R. split; [reflexivity | lra].
  - intros Hnone.
    assert (Hlen : length recent = 0).
    { unfold recent, tail. rewrite length_skipn, length_combine. unfold nrows in *.
      destruct Hnone as [H | H]; [rewrite H | rewrite H]; cbn; lia. }
    now rewrite Hlen.
Qed.

Lemma missing_pct_is_percentage_witness :
  exists v,
    BasketExplorer.missing_pct sample_prices 10 "A" = Ok (Fin v) /\ (0 <= v <= 100)%R.
Proof.
  exact (proj1 (missing_pct_is_percentage sample_prices 10 "A" eq_refl)).
Defined.

(** ** Symbol normalisation *)

Import CcxtData.

Lemma is_space_upper (c : ascii) : is_space (upper_char c) = is_space c.
Proof. destruct c as [[] [] [] [] [] [] [] []]; vm_compute; reflexivity. Qed.

Lemma upper_char_idempotent (c : ascii) : upper_char (upper_char c) = upper_char c.
Proof. destruct c as [[] [] [] [] [] [] [] []]; vm_compute; reflexivity. Qed.

Lemma lstrip_starts_clean (l : list ascii) : starts_clean (lstrip l).
Proof.
  induction l as [| c rest IH]; cbn [lstrip]; [exact I |].
  destruct (is_space c) eqn:Hc; [exact IH | exact Hc].
Qed.

Lemma lstrip_clean (l : list ascii) : starts_clean l -> lstrip l = l.
Proof. destruct l as [| c rest]; cbn; [reflexivity |]. now intros ->. Qed.

Lemma lstrip_suffix (l : list ascii) : exists p, l = p ++ lstrip l.
Proof.
  induction l as [| c rest IH]; [now exists [] |].
  cbn [lstrip]. destruct (is_space c); [| now exists []].
  destruct IH as (p & Hp). exists (c :: p). cbn [app]. now f_equal.
Qed.

Lemma starts_clean_prefix (l1 l2 : list ascii) :
  starts_clean (l1 ++ l2) -> starts_clean l1.
Proof. destruct l1; [intros _; exact I | exact (fun H => H)]. Qed.

Lemma strip_clean (l : list ascii) :
  starts_clean l -> starts_clean (rev l) -> strip l = l.
Proof.
  intros Hhead Hlast. unfold strip.
  rewrite (lstrip_clean _ Hhead), (lstrip_clean _ Hlast). apply rev_involutive.
Qed.

Lemma strip_is_clean (l : list ascii) :
  starts_clean (strip l) /\ starts_clean (rev (strip l)).
Proof.
  unfold strip. split.
  - destruct (lstrip_suffix (rev (lstrip l))) as (p & Hp).
    apply (starts_clean_prefix _ (rev p)).
    rewrite <- rev_app_distr, <- Hp, rev_involutive. apply lstrip_starts_clean.
  - rewrite rev_involutive. apply lstrip_starts_clean.
Qed.

Lemma starts_clean_upper (l : list ascii) :
  starts_clean l -> starts_clean (map upper_char l).
Proof. destruct l as [| c rest]; cbn; [auto |]. now rewrite is_space_upper. Qed.

(** What the first line of [to_ccxt_symbol] yields. *)
Lemma strip_upper_form (l : list ascii) : stripped_upper (map upper_char (strip l)).
Proof.
  destruct (strip_is_clean l) as (Hhead & Hlast). repeat split.
  - now apply starts_clean_upper.
  - rewrite <- map_rev. now apply starts_clean_upper.
  - rewrite map_map. apply map_ext. intros c. apply upper_char_idempotent.
Qed.

Lemma strip_upper_fixed (l : list ascii) :
  stripped_upper l -> map upper_char (strip l) = l.
Proof. intros (Hhead & Hlast & Hupper). now rewrite strip_clean. Qed.

Lemma ascii_eqb_list_eq (l1 l2 : list ascii) : ascii_eqb_list l1 l2 = true -> l1 = l2.
Proof.
  unfold ascii_eqb_list. intros H. apply String.eqb_eq in H.
  apply (f_equal list_ascii_of_string) in H.
  now rewrite !list_ascii_of_string_of_list_ascii in H.
Qed.

Lemma endswith_split (s suffix : list ascii) :
  endswith s suffix = true -> s = drop_last (length suffix) s ++ suffix.
Proof.
  unfold endswith, drop_last. intros H. apply andb_true_iff in H as [_ H].
  apply ascii_eqb_list_eq in H.
  set (k := length s - length suffix) in *. rewrite <- H. symmetry. apply firstn_skipn.
Qed.

(** Replacing the quote currency of a normalised symbol by a slash form
    keeps it normalised, and puts a slash into it. *)
Lemma slash_form (base old new : list ascii) :
  stripped_upper (base ++ old) ->
  map upper_char old = old ->
  map upper_char new = new ->
  starts_clean new -> starts_clean (rev new) -> new <> [] ->
  existsb (Ascii.eqb "/"%char) new = true ->
  stripped_upper (base ++ new) /\ existsb (Ascii.eqb "/"%char) (base ++ new) = true.
Proof.
  intros (Hhead & Hlast & Hupper) Hold Hnew Hnhead Hnlast Hne Hslash.
  repeat split.
  - destruct base as [| c rest]; [exact Hnhead | exact Hhead].
  - rewrite rev_app_distr. destruct (rev new) as [| c rest] eqn:Hrev; [| exact Hnlast].
    apply (f_equal (@rev _)) in Hrev. rewrite rev_involutive in Hrev. contradiction.
  - rewrite map_app in *. rewrite Hnew. f_equal.
    rewrite Hold in Hupper. now apply app_inv_tail in Hupper.
  - rewrite existsb_app, Hslash. apply orb_true_r.
Qed.

Lemma chars_of_list (l : list ascii) : chars (string_of_list_ascii l) = l.
Proof. apply list_ascii_of_string_of_list_ascii. Qed.

(** A normalised symbol with a slash is left as it is. *)
Lemma to_ccxt_symbol_slash (l : list ascii) :
  stripped_upper l -> existsb (Ascii.eqb "/"%char) l = true ->
  to_ccxt_symbol (string_of_list_ascii l) = string_of_list_ascii l.
Proof.
  intros Hform Hslash. unfold to_ccxt_symbol. cbn zeta.
  rewrite chars_of_list, (strip_upper_fixed _ Hform), Hslash. reflexivity.
Qed.

(** [to_ccxt_symbol] leaves its own results as they are. *)
Lemma to_ccxt_symbol_fixed (raw : string) :
  to_ccxt_symbol (to_ccxt_symbol raw) = to_ccxt_symbol raw.
Proof.
  pose proof (strip_upper_form (chars raw)) as Hform.
  unfold to_ccxt_symbol at 2 3. cbn zeta.
  set (s := map upper_char (strip (chars raw))) in *.
  destruct (existsb (Ascii.eqb "/"%char) s) eqn:Hslash.
  { now apply to_ccxt_symbol_slash. }
  destruct (endswith s (chars "BTC") && (3 <? length s)) eqn:Hbtc.
  { apply andb_true_iff in Hbtc as [Hbtc _]. apply endswith_split in Hbtc.
    rewrite Hbtc in Hform.
    destruct (slash_form _ (chars "BTC") (chars "/BTC") Hform) as (Hf & Hs);
      try reflexivity; try discriminate.
    now apply to_ccxt_symbol_slash. }
  destruct (endswith s (chars "USDT")) eqn:Husdt.
  { apply endswith_split in Husdt. rewrite Husdt in Hform.
    destruct (slash_form _ (chars "USDT") (chars "/USDT:USDT") Hform) as (Hf & Hs);
      try reflexivity; try discriminate.
    now apply to_ccxt_symbol_slash. }
  destruct (endswith s (chars "USD")) eqn:Husd.
  { apply endswith_split in Husd. rewrite Husd in Hform.
    destruct (slash_form _ (chars "USD") (chars "/USDT:USDT") Hform) as (Hf & Hs);
      try reflexivity; try discriminate.
    now apply to_ccxt_symbol_slash. }
  unfold to_ccxt_symbol. cbn zeta.
  rewrite chars_of_list, (strip_upper_fixed _ Hform), Hslash, Hbtc, Husdt, Husd.
  reflexivity.
Qed.

(** Normalising symbols that are already normalised changes nothing: the
    application normalises the tickers of the universe before it hands
    them to the fetch, which normalises them again and names the columns
    of the price table by the result, and every page looks a basket's
    tickers up under their once-normalised names.  Stated for ASCII
    symbols, on which the embedding of [strip] and [upper] is the one of
    Python. *)
Theorem normalize_symbols_idempotent (symbols : list string)
  (Hascii : Forall is_ascii symbols) :
  normalize_symbols (normalize_symbols symbols) = normalize_symbols symbols.
Proof.
  unfold normalize_symbols. rewrite map_map. apply map_ext.
  intros raw. apply to_ccxt_symbol_fixed.
Qed.

Lemma normalize_symbols_idempotent_witness :
  normalize_symbols (normalize_symbols [" ethusd "; "BCHBTC"]%string)
  = normalize_symbols [" ethusd "; "BCHBTC"]%string.
Proof.
  assert (Hascii : Forall is_ascii [" ethusd "; "BCHBTC"]%string).
  { unfold is_ascii. repeat constructor. }
  exact (normalize_symbols_idempotent [" ethusd "; "BCHBTC"]%string Hascii).
Defined.

(** ** The table of the Pair Explorer page *)

Lemma latest_or_nan_value (s : Series float) :
  Scanner.latest_or_nan s = Ok (latest_value s).
Proof.
  unfold Scanner.latest_or_nan, latest_value. destruct s as [| p rest]; [reflexivity |].
  destruct (exists_last (l := p :: rest)) as [front [q Hq]]; [discriminate |].
  rewrite Hq, empty_snoc, iloc_last_snoc. cbn [bind].
  unfold values. rewrite map_app. cbn [map]. rewrite last_opt_snoc.
  now destruct (snd q).
Qed.

(** The latest z-score is missing while the series is shorter than the
    window. *)
Lemma zscore_latest_warm_up (spread : Series float) (w : nat) :
  length spread < w -> latest_value (Spread.zscore spread w) = NaN.
Proof.
  intros Hshort. destruct spread as [| p rest] eqn:Hs; [reflexivity |].
  rewrite <- Hs in *.
  assert (Hne : Spread.zscore spread w <> []).
  { intros E. apply (f_equal (@length _)) in E. rewrite zscore_length, Hs in E.
    discriminate. }
  rewrite (latest_value_nth _ Hne), zscore_length.
  rewrite zscore_at by (rewrite Hs; cbn [length]; lia).
  unfold roll_at.
  destruct (Nat.ltb_spec (length spread - 1 + 1) w) as [_ | Hge].
  - now destruct (nth (length spread - 1) (values spread) NaN).
  - rewrite Hs in *. cbn [length] in *. lia.
Qed.

Lemma spread_series_length (prices_wide : DataFrame) (a b : string)
  (spread : Series float) :
  Spread.spread_series prices_wide a b = Ok spread -> length spread <= nrows prices_wide.
Proof.
  unfold Spread.spread_series, getitem.
  destruct (lookup_column prices_wide a) as [xa |]; [| discriminate].
  destruct (lookup_column prices_wide b) as [xb |]; [| discriminate].
  cbn [bind]. rewrite !smap_combine, szip_combine. intros [= <-].
  unfold nrows. rewrite length_combine. lia.
Qed.

Lemma lookup_column_In (df : DataFrame) (t : string) (xs : list float) :
  lookup_column df t = Some xs -> exists name, In (name, xs) (df_columns df).
Proof.
  unfold lookup_column.
  destruct (find (fun c => String.eqb (fst c) t) (df_columns df)) as [[name ys] |] eqn:Hfind;
    [| discriminate].
  intros [= <-]. exists name. now apply find_some in Hfind.
Qed.

(** The first log return of a column is missing. *)
Lemma log_return_first (xs : list float) :
  nth 0 (map flog (zip_with fdiv xs (shift1 xs))) NaN = NaN.
Proof. destruct xs as [| x rest]; [reflexivity |]. cbn. now destruct x. Qed.

(** The rolling correlation at a row is missing while the window is not
    full, and also at the row that fills it for the first time when the
    first observation is missing. *)
Lemma rolling_corr_warm_up (w : nat) (xs ys : list float) (i : nat) :
  length xs = length ys -> i < length xs ->
  i + 1 < w \/ (i + 1 = w /\ nth 0 xs NaN = NaN) ->
  nth i (rolling_corr_values w xs ys) NaN = NaN.
Proof.
  intros Hlen Hi Hcase. unfold rolling_corr_values.
  rewrite nth_map_seq by (rewrite length_zip_with; lia).
  cbn zeta.
  set (x_array := zip_with (fun x y => fadd x (fmul (Fin 0) y)) xs ys).
  set (y_array := zip_with (fun x y => fadd y (fmul (Fin 0) x)) xs ys).
  assert (Hmean : roll_at agg_mean w (zip_with fmul x_array y_array) i = NaN).
  { unfold roll_at. destruct Hcase as [Hshort | (Hfull & Hfirst)].
    - destruct (Nat.ltb_spec (i + 1) w); [reflexivity | lia].
    - destruct (Nat.ltb_spec (i + 1) w); [reflexivity |].
      unfold window. rewrite Hfull, Nat.sub_diag. cbn [skipn].
      destruct xs as [| x xr]; [cbn in Hi; lia |].
      destruct ys as [| y yr]; [discriminate |].
      cbn in Hfirst. subst x. subst w. unfold x_array, y_array.
      rewrite Nat.add_1_r. reflexivity. }
  rewrite Hmean. reflexivity.
Qed.

(** The latest correlation of two columns of the log returns of a price
    table with no more rows than the window is missing. *)
Lemma pair_corr_latest_warm_up (prices_wide : DataFrame) (a b : string) (w : nat)
  (v : float) :
  wf_table prices_wide -> nrows prices_wide <= w ->
  Metrics.pair_corr_latest (Metrics.log_returns prices_wide) a b w = Ok v ->
  v = NaN.
Proof.
  intros Hwf Hshort. unfold Metrics.pair_corr_latest, Metrics.rolling_corr.
  destruct (negb (empty (filter _ [a; b]))); [discriminate |].
  unfold getitem, Metrics.log_returns. rewrite !lookup_map_columns.
  destruct (lookup_column prices_wide a) as [xa |] eqn:Ha; [| discriminate].
  destruct (lookup_column prices_wide b) as [xb |] eqn:Hb; [| discriminate].
  cbn [bind df_index map_columns].
  destruct (lookup_column_In _ _ _ Ha) as (na & Hina).
  destruct (lookup_column_In _ _ _ Hb) as (nb & Hinb).
  pose proof (proj1 (Forall_forall _ _) Hwf _ Hina) as Hla.
  pose proof (proj1 (Forall_forall _ _) Hwf _ Hinb) as Hlb.
  cbn [snd] in Hla, Hlb.
  set (la := map flog (zip_with fdiv xa (shift1 xa))).
  set (lb := map flog (zip_with fdiv xb (shift1 xb))).
  assert (Hlen_a : length la = nrows prices_wide)
    by (unfold la; now rewrite length_log_return).
  assert (Hlen_b : length lb = nrows prices_wide)
    by (unfold lb; now rewrite length_log_return).
  unfold nrows in *. unfold rolling_corr_series.
  rewrite (index_combine _ (df_index prices_wide) la) by congruence.
  rewrite !values_combine by congruence.
  set (s := combine (df_index prices_wide) (rolling_corr_values w la lb)).
  assert (Hs : length s = length (df_index prices_wide)).
  { unfold s. rewrite length_combine, length_rolling_corr_values by congruence. lia. }
  destruct s as [| p rest] eqn:Hsq; [discriminate |]. rewrite <- Hsq in *.
  assert (Hne : s <> []) by (rewrite Hsq; discriminate).
  rewrite (iloc_last_nth _ s NaN Hne). intros [= <-].
  unfold s at 2. rewrite values_combine
    by (rewrite length_rolling_corr_values; congruence).
  assert (Hpos : 0 < length s) by (rewrite Hsq; cbn [length]; lia).
  apply rolling_corr_warm_up; [congruence | lia | ].
  - destruct (Nat.eq_dec (length s - 1 + 1) w) as [Heq | Hneq].
    + right. split; [exact Heq | apply log_return_first].
    + left. lia.
Qed.

(** The fields of a row that the body of the loop builds. *)
Lemma pair_row_fields (prices_wide logret : DataFrame) (settings : Settings)
  (ab : string * string) (row : PairExplorer.ViewRow) :
  PairExplorer.pair_row prices_wide logret settings ab = Ok row ->
  PairExplorer.a row = fst ab /\ PairExplorer.b row = snd ab
  /\ PairExplorer.error row = false
  /\ (exists spread,
      Spread.spread_series prices_wide (fst ab) (snd ab) = Ok spread
      /\ PairExplorer.z row = latest_value (Spread.zscore spread (z_window settings)))
  /\ Metrics.pair_corr_latest logret (fst ab) (snd ab) (analytics_window settings)
     = Ok (PairExplorer.corr row).
Proof.
  unfold PairExplorer.pair_row.
  destruct (Spread.spread_series prices_wide (fst ab) (snd ab)) as [spread | e];
    [| discriminate].
  cbn [bind]. rewrite latest_or_nan_value. cbn [bind].
  unfold Spread.bollinger_bands. cbn zeta.
  destruct (Spread.latest_boll_breach _ _ _) as [breach | e]; [| discriminate].
  cbn [bind].
  destruct (PairExplorer.compute_bars_since_breach _) as [bars | e]; [| discriminate].
  cbn [bind].
  destruct (Metrics.pair_corr_latest _ _ _ _) as [corr_value | e]; [| discriminate].
  cbn [bind]. intros [= <-]. cbn. eauto 10.
Qed.

(** A row of [pairs_data] is the row of a pair, or the error row of a
    pair, which has neither a z-score nor a correlation. *)
Lemma pairs_data_row (prices_wide : DataFrame) (settings : Settings)
  (pairs : list (string * string)) (r : PairExplorer.ViewRow) :
  In r (PairExplorer.pairs_data prices_wide settings pairs) ->
  exists ab,
    In ab pairs
    /\ ((PairExplorer.error r = true /\ PairExplorer.z r = NaN /\ PairExplorer.corr r = NaN)
        \/ PairExplorer.pair_row prices_wide (Metrics.log_returns prices_wide) settings ab
           = Ok r).
Proof.
  unfold PairExplorer.pairs_data. cbn zeta. intros Hin.
  apply in_map_iff in Hin as (ab & Hr & Hab). exists ab. split; [assumption |].
  destruct (PairExplorer.pair_row prices_wide (Metrics.log_returns prices_wide) settings ab)
    as [row | e]; cbn [try_except] in Hr; subst r.
  - now right.
  - left. cbn. auto.
Qed.

Lemma pairs_data_names (prices_wide : DataFrame) (settings : Settings)
  (pairs : list (string * string)) :
  map (fun r => (PairExplorer.a r, PairExplorer.b r))
      (PairExplorer.pairs_data prices_wide settings pairs)
  = pairs.
Proof.
  unfold PairExplorer.pairs_data. cbn zeta. rewrite map_map.
  rewrite <- (map_id pairs) at 2. apply map_ext. intros [a b].
  destruct (PairExplorer.pair_row prices_wide (Metrics.log_returns prices_wide) settings (a, b))
    as [row | e] eqn:Hrow; cbn [try_except]; [| reflexivity].
  apply pair_row_fields in Hrow as (-> & -> & _). reflexivity.
Qed.

Lemma fge_defined (x y : float) : fge x y = true -> isnan x = false /\ isnan y = false.
Proof. destruct x, y; intros H; try discriminate; now split. Qed.

Lemma isnan_fabs (x : float) : isnan (fabs x) = isnan x.
Proof. now destruct x. Qed.

(** The rows that pass the filters of the page. *)
Lemma apply_filters_In (c : PairExplorer.Controls) (df_all : list PairExplorer.ViewRow)
  (r : PairExplorer.ViewRow) :
  In r (PairExplorer.apply_filters c df_all)
  <-> In r df_all
      /\ (PairExplorer.only_opportunities c = true -> PairExplorer.opportunity r = true)
      /\ fge (PairExplorer.corr r) (PairExplorer.min_correlation c) = true
      /\ fge (fabs (PairExplorer.z r)) (PairExplorer.min_abs_z c) = true.
Proof.
  unfold PairExplorer.apply_filters. cbn zeta. rewrite !filter_In.
  destruct (PairExplorer.only_opportunities c); rewrite ?filter_In; intuition congruence.
Qed.

Lemma nargsort_asc_nan_last (A : Type) (key : A -> float) (rows : list A) :
  asc_nan_last key (nargsort key true true rows).
Proof.
  unfold nargsort.
  set (non_nans := filter (fun r => negb (isnan (key r))) rows).
  assert (Hdef : Forall (fun r => isnan (key r) = false) non_nans).
  { eapply Forall_impl; [| apply Forall_filter_true].
    intros r Hr. now apply negb_true_iff in Hr. }
  exists (sort_by (fun r1 r2 => fle (key r1) (key r2)) non_nans),
    (filter (fun r => isnan (key r)) rows).
  split; [reflexivity |]. split; [| split].
  - eapply Permutation_Forall; [apply sort_by_perm | assumption].
  - apply Forall_filter_true.
  - apply (sort_by_sorted _ _ (fun r => isnan (key r) = false)).
    + intros x y Hx Hy. now apply fle_total.
    + intros x y z _ _ _. apply fle_trans.
    + assumption.
Qed.

Lemma filter_filter (A : Type) (f g : A -> bool) (l : list A) :
  filter g (filter f l) = filter (fun x => f x && g x) l.
Proof.
  induction l as [| x rest IH]; [reflexivity |].
  cbn [filter]. destruct (f x); cbn [filter andb]; now rewrite IH.
Qed.

(** The filters of the page as one test on a row. *)
Lemma apply_filters_filter (c : PairExplorer.Controls) (df_all : list PairExplorer.ViewRow) :
  PairExplorer.apply_filters c df_all
  = filter (fun r =>
              (negb (PairExplorer.only_opportunities c) || PairExplorer.opportunity r)
              && fge (PairExplorer.corr r) (PairExplorer.min_correlation c)
              && fge (fabs (PairExplorer.z r)) (PairExplorer.min_abs_z c))
      df_all.
Proof.
  unfold PairExplorer.apply_filters. cbn zeta.
  destruct (PairExplorer.only_opportunities c); cbn [negb orb];
    rewrite !filter_filter; apply filter_ext; intros r;
    destruct (PairExplorer.opportunity r),
      (fge (PairExplorer.corr r) (PairExplorer.min_correlation c)),
      (fge (fabs (PairExplorer.z r)) (PairExplorer.min_abs_z c)); reflexivity.
Qed.

(** The table the Pair Explorer page shows.  The loop builds one row per
    pair, in the order of the pairs.  Whatever the controls, sorting
    raises nothing, and the table shown holds exactly the rows of the loop
    that pass the three filters, each as often as the loop built it: a
    row is kept if and only if it is an opportunity (when only
    opportunities are asked for), its correlation is at least the minimum
    and its absolute z-score is at least the minimum.  The rows come in
    the order of the selected key, missing keys last.  A row shown has a
    z-score and a correlation, so it is no error row. *)
Theorem pair_explorer_view (prices_wide : DataFrame) (settings : Settings)
  (pairs : list (string * string)) (c : PairExplorer.Controls) :
  map (fun r => (PairExplorer.a r, PairExplorer.b r))
      (PairExplorer.pairs_data prices_wide settings pairs)
  = pairs
  /\ exists view,
      PairExplorer.df_view c (PairExplorer.pairs_data prices_wide settings pairs) = Ok view
      /\ Permutation
           (filter (fun r =>
                      (negb (PairExplorer.only_opportunities c)
                       || PairExplorer.opportunity r)
                      && fge (PairExplorer.corr r) (PairExplorer.min_correlation c)
                      && fge (fabs (PairExplorer.z r)) (PairExplorer.min_abs_z c))
              (PairExplorer.pairs_data prices_wide settings pairs))
           view
      /\ (forall r,
          In r view
          <-> In r (PairExplorer.pairs_data prices_wide settings pairs)
              /\ (PairExplorer.only_opportunities c = true ->
                  PairExplorer.opportunity r = true)
              /\ fge (PairExplorer.corr r) (PairExplorer.min_correlation c) = true
              /\ fge (fabs (PairExplorer.z r)) (PairExplorer.min_abs_z c) = true)
      /\ (forall r, In r view ->
          PairExplorer.error r = false
          /\ isnan (PairExplorer.z r) = false
          /\ isnan (PairExplorer.corr r) = false)
      /\ match PairExplorer.sort_by_key c with
         | PairExplorer.AbsZDesc => desc_nan_last (fun r => fabs (PairExplorer.z r)) view
         | PairExplorer.MostRecentBreach =>
             asc_nan_last PairExplorer.bars_since_breach view
         | PairExplorer.CorrDesc => desc_nan_last PairExplorer.corr view
         | PairExplorer.SpreadVolDesc => desc_nan_last PairExplorer.spread_vol view
         end.
Proof.
  split; [apply pairs_data_names |].
  set (df_all := PairExplorer.pairs_data prices_wide settings pairs).
  set (shown := PairExplorer.apply_filters c df_all).
  assert (Hsort : exists view,
             PairExplorer.apply_sorting c shown = Ok view
             /\ Permutation shown view
             /\ match PairExplorer.sort_by_key c with
                | PairExplorer.AbsZDesc =>
                    desc_nan_last (fun r => fabs (PairExplorer.z r)) view
                | PairExplorer.MostRecentBreach =>
                    asc_nan_last PairExplorer.bars_since_breach view
                | PairExplorer.CorrDesc => desc_nan_last PairExplorer.corr view
                | PairExplorer.SpreadVolDesc => desc_nan_last PairExplorer.spread_vol view
                end).
  { unfold PairExplorer.apply_sorting.
    destruct (PairExplorer.sort_by_key c); eexists;
      (split; [reflexivity |]); (split; [apply nargsort_perm |]);
      first [apply nargsort_desc_nan_last | apply nargsort_asc_nan_last]. }
  destruct Hsort as (view & Hview & Hperm & Horder).
  assert (Hmember : forall r,
             In r view
             <-> In r df_all
                 /\ (PairExplorer.only_opportunities c = true ->
                     PairExplorer.opportunity r = true)
                 /\ fge (PairExplorer.corr r) (PairExplorer.min_correlation c) = true
                 /\ fge (fabs (PairExplorer.z r)) (PairExplorer.min_abs_z c) = true).
  { intros r. rewrite <- (apply_filters_In c df_all r). fold shown. split.
    - apply Permutation_in. now apply Permutation_sym.
    - now apply Permutation_in. }
  exists view. split; [exact Hview |].
  split; [unfold shown in Hperm; now rewrite apply_filters_filter in Hperm |].
  split; [exact Hmember |]. split; [| exact Horder].
  intros r Hr. apply Hmember in Hr as (Hall & _ & Hcorr & Hz).
  destruct (fge_defined _ _ Hcorr) as (Hcorr_def & _).
  destruct (fge_defined _ _ Hz) as (Hz_def & _). rewrite isnan_fabs in Hz_def.
  repeat split; try assumption.
  destruct (pairs_data_row _ _ _ _ Hall) as (ab & _ & [(_ & Hznan & _) | Hrow]).
  - rewrite Hznan in Hz_def. discriminate.
  - now apply pair_row_fields in Hrow.
Qed.

(** The Pair Explorer page shows no pair at all, whatever the controls,
    on a price table with fewer rows than the z-score window or with no
    more rows than the correlation window: the first log return of every
    column is missing, so the correlation needs one row more than its
    window. *)
Theorem pair_explorer_needs_history (prices_wide : DataFrame) (settings : Settings)
  (pairs : list (string * string)) (c : PairExplorer.Controls)
  (Hwf : wf_table prices_wide)
  (Hshort : nrows prices_wide < z_window settings
            \/ nrows prices_wide <= analytics_window settings) :
  PairExplorer.df_view c (PairExplorer.pairs_data prices_wide settings pairs) = Ok [].
Proof.
  assert (Hnone : PairExplorer.apply_filters c
                    (PairExplorer.pairs_data prices_wide settings pairs) = []).
  { destruct (PairExplorer.apply_filters c _) as [| r rest] eqn:Hshown; [reflexivity |].
    exfalso.
    assert (Hr : In r (PairExplorer.apply_filters c
                         (PairExplorer.pairs_data prices_wide settings pairs)))
      by (rewrite Hshown; now left).
    apply apply_filters_In in Hr as (Hall & _ & Hcorr & Hz).
    destruct (fge_defined _ _ Hcorr) as (Hcorr_def & _).
    destruct (fge_defined _ _ Hz) as (Hz_def & _). rewrite isnan_fabs in Hz_def.
    destruct (pairs_data_row _ _ _ _ Hall) as (ab & _ & [(_ & Hznan & _) | Hrow]).
    { rewrite Hznan in Hz_def. discriminate. }
    apply pair_row_fields in Hrow as (_ & _ & _ & (spread & Hspread & Hzval) & Hcorrval).
    destruct Hshort as [Hz_short | Hcorr_short].
    - apply spread_series_length in Hspread.
      rewrite Hzval, zscore_latest_warm_up in Hz_def by lia. discriminate.
    - apply (pair_corr_latest_warm_up _ _ _ _ _ Hwf Hcorr_short) in Hcorrval.
      rewrite Hcorrval in Hcorr_def. discriminate. }
  unfold PairExplorer.df_view. rewrite Hnone. unfold PairExplorer.apply_sorting.
  now destruct (PairExplorer.sort_by_key c).
Qed.

Lemma pair_explorer_needs_history_witness :
  PairExplorer.df_view
    (PairExplorer.mkControls false PairExplorer.AbsZDesc (Fin 0) (Fin 0))
    (PairExplorer.pairs_data sample_prices default_settings [("A", "B")]%string)
  = Ok [].
Proof.
  apply (pair_explorer_needs_history sample_prices default_settings [("A", "B")]%string
           (PairExplorer.mkControls false PairExplorer.AbsZDesc (Fin 0) (Fin 0))
           sample_prices_wf).
  left. cbn. lia.
Defined.

(** ** A pair read in either order *)

Lemma fmul_comm (x y : float) : fmul x y = fmul y x.
Proof. destruct x, y; cbn; try reflexivity. f_equal. ring. Qed.

Lemma fadd_comm (x y : float) : fadd x y = fadd y x.
Proof. destruct x, y; cbn; try reflexivity. f_equal. ring. Qed.

Lemma isnan_fneg (x : float) : isnan (fneg x) = isnan x.
Proof. now destruct x. Qed.

Lemma zip_with_swap (A B C : Type) (f : A -> B -> C) (l1 : list A) (l2 : list B) :
  zip_with f l1 l2 = zip_with (fun y x => f x y) l2 l1.
Proof.
  revert l2. induction l1 as [| x r IH]; intros [| y r2]; try reflexivity.
  cbn. now rewrite IH.
Qed.

Lemma zip_with_comm (A C : Type) (f : A -> A -> C) (l1 l2 : list A) :
  (forall x y, f x y = f y x) -> zip_with f l1 l2 = zip_with f l2 l1.
Proof.
  intros Hcomm. revert l2. induction l1 as [| x r IH]; intros [| y r2]; try reflexivity.
  cbn. now rewrite IH, Hcomm.
Qed.

Lemma length_zip_with_min (A B C : Type) (f : A -> B -> C) (l1 : list A) (l2 : list B) :
  length (zip_with f l1 l2) = Nat.min (length l1) (length l2).
Proof.
  revert l2. induction l1 as [| x r IH]; intros [| y r2]; try reflexivity.
  cbn. now rewrite IH.
Qed.

(** The rolling correlation does not depend on the order of its two
    operands. *)
Lemma rolling_corr_values_swap (w : nat) (xs ys : list float) :
  rolling_corr_values w ys xs = rolling_corr_values w xs ys.
Proof.
  unfold rolling_corr_values. cbn zeta.
  rewrite (zip_with_swap _ _ _ (fun x y => fadd x (fmul (Fin 0) y)) ys xs).
  rewrite (zip_with_swap _ _ _ (fun x y => fadd y (fmul (Fin 0) x)) ys xs).
  set (x_array := zip_with (fun x y => fadd x (fmul (Fin 0) y)) xs ys).
  set (y_array := zip_with (fun x y => fadd y (fmul (Fin 0) x)) xs ys).
  change (zip_with (fun y x => fadd x (fmul (Fin 0) y)) xs ys) with y_array.
  change (zip_with (fun y x => fadd y (fmul (Fin 0) x)) xs ys) with x_array.
  rewrite (zip_with_comm _ _ fmul y_array x_array fmul_comm).
  rewrite (zip_with_comm _ _ fadd y_array x_array fadd_comm).
  replace (length y_array) with (length x_array)
    by (unfold x_array, y_array; now rewrite !length_zip_with_min).
  apply map_ext. intros i.
  now rewrite (fmul_comm (roll_at agg_mean w y_array i)),
    (fmul_comm (roll_at agg_var w y_array i)).
Qed.

Lemma combine_index_short (A B : Type) (idx : list Z) (xs : list A) (vs : list B) :
  length vs <= length (combine idx xs) ->
  combine (index (combine idx xs)) vs = combine idx vs.
Proof.
  unfold index. revert xs vs.
  induction idx as [| t r IH]; intros [| x xr] [| v vr] Hlen; try reflexivity;
    cbn in *; try lia.
  f_equal. apply IH. lia.
Qed.

Lemma length_values_combine (A : Type) (idx : list Z) (xs : list A) :
  length (values (combine idx xs)) = length (combine idx xs).
Proof. apply length_values. Qed.

Lemma rolling_corr_series_swap (w : nat) (idx : list Z) (xs ys : list float) :
  rolling_corr_series w (combine idx ys) (combine idx xs)
  = rolling_corr_series w (combine idx xs) (combine idx ys).
Proof.
  unfold rolling_corr_series. rewrite rolling_corr_values_swap.
  set (vs := rolling_corr_values w _ _).
  assert (Hlen : length vs
                 = Nat.min (length (combine idx xs)) (length (combine idx ys))).
  { unfold vs, rolling_corr_values. cbn zeta.
    now rewrite length_map, length_seq, length_zip_with_min, !length_values. }
  rewrite !combine_index_short by lia. reflexivity.
Qed.

Lemma pair_corr_latest_swap (logret : DataFrame) (a b : string) (w : nat) :
  Metrics.pair_corr_latest logret b a w = Metrics.pair_corr_latest logret a b w.
Proof.
  unfold Metrics.pair_corr_latest, Metrics.rolling_corr. cbn [filter].
  destruct (in_columns a logret) eqn:Ha, (in_columns b logret) eqn:Hb;
    cbn [negb empty bind]; try reflexivity.
  destruct (lookup_in_columns _ _ Ha) as (xa & Hfa & _).
  destruct (lookup_in_columns _ _ Hb) as (xb & Hfb & _).
  unfold getitem. rewrite Hfa, Hfb. cbn [bind].
  now rewrite rolling_corr_series_swap.
Qed.

(** *** Volatility of a negated spread *)

Lemma removelast_map (A B : Type) (f : A -> B) (l : list A) :
  removelast (map f l) = map f (removelast l).
Proof.
  induction l as [| x rest IH]; [reflexivity |].
  destruct rest as [| y rest']; [reflexivity |].
  cbn [map removelast] in *. now rewrite IH.
Qed.

Lemma shift1_fneg (xs : list float) : shift1 (map fneg xs) = map fneg (shift1 xs).
Proof.
  destruct xs as [| x rest]; [reflexivity |].
  unfold shift1. cbn [map]. rewrite <- removelast_map. reflexivity.
Qed.

Lemma zip_with_fsub_fneg (xs ys : list float) :
  zip_with fsub (map fneg xs) (map fneg ys) = map fneg (zip_with fsub xs ys).
Proof.
  revert ys. induction xs as [| x r IH]; intros [| y r2]; try reflexivity.
  cbn. now rewrite IH, fsub_fneg.
Qed.

Lemma dropna_fneg (l : list float) : dropna (map fneg l) = map fneg (dropna l).
Proof.
  unfold dropna. induction l as [| x rest IH]; [reflexivity |].
  cbn [map filter]. rewrite isnan_fneg.
  destruct (isnan x); cbn [negb map]; now rewrite IH.
Qed.

Lemma nanstd_fneg (l : list float) : nanstd (map fneg l) = nanstd l.
Proof.
  unfold nanstd. rewrite dropna_fneg, all_finite_fneg.
  destruct (all_finite (dropna l)) as [obs |]; [| reflexivity].
  unfold agg_std, agg_var. now rewrite length_map, var_R_opp.
Qed.

Lemma tail_map (A B : Type) (f : A -> B) (n : nat) (l : list A) :
  tail n (map f l) = map f (tail n l).
Proof. unfold tail. now rewrite length_map, skipn_map. Qed.

Lemma spread_vol_fneg (series : Series float) (w : nat) :
  Spread.spread_vol (smap fneg series) w = Spread.spread_vol series w.
Proof.
  unfold Spread.spread_vol. rewrite length_smap, values_smap.
  destruct (length series <? 2); [reflexivity |].
  assert (Hdiff : Spread.diff_dropna (map fneg (values series))
                  = map fneg (Spread.diff_dropna (values series))).
  { unfold Spread.diff_dropna. now rewrite shift1_fneg, zip_with_fsub_fneg, dropna_fneg. }
  cbn zeta. rewrite Hdiff, length_map, tail_map, !nanstd_fneg. reflexivity.
Qed.

(** *** Breaches of a negated spread *)

Lemma breach_series_beyond (spread : Series float) (w : nat) (k : float) :
  Scanner._detect_bollinger_breach spread
    (fst (Scanner._compute_bollinger_bands spread w k))
    (snd (Scanner._compute_bollinger_bands spread w k))
  = smap (beyond k) (Spread.zscore spread w).
Proof.
  destruct (bands_lengths spread w k) as [Hu Hl].
  apply series_ext.
  - now rewrite detect_breach_index, index_smap, zscore_index.
  - apply nth_ext with (d := false) (d' := false).
    + now rewrite !length_values, detect_breach_length, length_smap, zscore_length.
    + intros i Hi. rewrite length_values, detect_breach_length in Hi by assumption.
      rewrite breach_row by assumption.
      symmetry. apply nth_values_smap. now rewrite zscore_length.
Qed.

Lemma smap_smap (A B C : Type) (f : A -> B) (g : B -> C) (s : Series A) :
  smap g (smap f s) = smap (fun x => g (f x)) s.
Proof. unfold smap. rewrite map_map. reflexivity. Qed.

Lemma smap_ext (A B : Type) (f g : A -> B) (s : Series A) :
  (forall x, f x = g x) -> smap f s = smap g s.
Proof. intros H. unfold smap. apply map_ext. intros p. now rewrite H. Qed.

Lemma breach_series_fneg (spread : Series float) (w : nat) (k : float) :
  Scanner._detect_bollinger_breach (smap fneg spread)
    (fst (Scanner._compute_bollinger_bands (smap fneg spread) w k))
    (snd (Scanner._compute_bollinger_bands (smap fneg spread) w k))
  = Scanner._detect_bollinger_breach spread
      (fst (Scanner._compute_bollinger_bands spread w k))
      (snd (Scanner._compute_bollinger_bands spread w k)).
Proof.
  rewrite !breach_series_beyond, zscore_fneg, smap_smap.
  apply smap_ext. intros z. apply beyond_fneg.
Qed.

Lemma latest_breach_fneg (spread : Series float) (w : nat) (k : float) :
  Spread.latest_boll_breach (smap fneg spread)
    (fst (Scanner._compute_bollinger_bands (smap fneg spread) w k))
    (snd (Scanner._compute_bollinger_bands (smap fneg spread) w k))
  = Spread.latest_boll_breach spread
      (fst (Scanner._compute_bollinger_bands spread w k))
      (snd (Scanner._compute_bollinger_bands spread w k)).
Proof.
  rewrite !latest_breach_by_zscore, zscore_fneg, latest_value_fneg.
  now rewrite beyond_fneg.
Qed.

(** The row the Pair Explorer page computes for a pair does not depend on
    which ticker comes first, except that the z-score changes its sign:
    breach flag, bars since the last breach, correlation, spread
    volatility and opportunity flag are the same, and the computation
    fails for one order exactly when it fails for the other, with the same
    exception.  So listing every pair once, as the pages do, loses
    nothing. *)
Theorem pair_row_symmetric (prices_wide logret : DataFrame) (settings : Settings)
  (a b : string) :
  PairExplorer.pair_row prices_wide logret settings (b, a)
  = (row <- PairExplorer.pair_row prices_wide logret settings (a, b) ;;
     Ok (mirrored row)).
Proof.
  unfold PairExplorer.pair_row. cbn [fst snd].
  rewrite spread_series_swap.
  destruct (Spread.spread_series prices_wide a b) as [spread | e]; [| reflexivity].
  cbn [bind]. rewrite !latest_or_nan_value. cbn [bind].
  unfold Spread.bollinger_bands. cbn zeta.
  pose proof (breach_series_fneg spread (z_window settings) (boll_k settings)) as Hseries.
  pose proof (latest_breach_fneg spread (z_window settings) (boll_k settings)) as Hlatest.
  unfold Scanner._detect_bollinger_breach, Scanner._compute_bollinger_bands in Hseries, Hlatest.
  cbn [fst snd] in Hseries, Hlatest.
  rewrite Hseries, Hlatest, (pair_corr_latest_swap logret a b), spread_vol_fneg.
  clear Hseries Hlatest. rewrite zscore_fneg, latest_value_fneg.
  destruct (Spread.latest_boll_breach _ _ _) as [breach | e]; [| reflexivity].
  cbn [bind].
  destruct (PairExplorer.compute_bars_since_breach _) as [bars | e]; [| reflexivity].
  cbn [bind].
  destruct (Metrics.pair_corr_latest _ _ _ _) as [corr_value | e]; [| reflexivity].
  cbn [bind]. unfold mirrored. cbn. now rewrite isnan_fneg, fabs_fneg.
Qed.

(** ** Top movers of a basket *)

Lemma select_columns_form (df : DataFrame) (tickers : list string) :
  (forall t, In t tickers -> in_columns t df = true) ->
  select_columns df tickers
  = Ok (map (fun t => (t, match lookup_column df t with Some xs => xs | None => [] end))
          tickers).
Proof.
  induction tickers as [| t rest IH]; intros Hall; [reflexivity |].
  cbn [select_columns map].
  destruct (lookup_in_columns df t (Hall t (or_introl eq_refl))) as (xs & -> & _).
  rewrite IH by (intros u Hu; apply Hall; now right). reflexivity.
Qed.

(** A sum of absolute values is a number or plus infinity, never
    missing. *)
Lemma fold_fadd_abs (l : list float) (acc : float) :
  Forall (fun x => x = PInf \/ exists r, x = Fin r) l ->
  acc = PInf \/ (exists r, acc = Fin r) ->
  isnan (fold_left fadd l acc) = false.
Proof.
  intros Hl. revert acc. induction Hl as [| x rest Hx Hrest IH]; intros acc Hacc.
  - cbn. now destruct Hacc as [-> | (r & ->)].
  - cbn [fold_left]. apply IH.
    destruct Hacc as [-> | (r & ->)], Hx as [-> | (r' & ->)]; cbn; eauto.
Qed.

Lemma nansum_abs_defined (xs : list float) : isnan (nansum (map fabs xs)) = false.
Proof.
  unfold nansum. apply fold_fadd_abs; [| right; now eexists].
  apply Forall_forall. intros x Hx. unfold dropna in Hx.
  apply filter_In in Hx as (Hin & Hdef). apply in_map_iff in Hin as (y & <- & _).
  destruct y; cbn in *; try discriminate; eauto.
Qed.

Lemma valid_tickers_in_columns (prices_wide : DataFrame) (tickers_raw : list string)
  (t : string) :
  In t (Scanner.valid_tickers prices_wide tickers_raw) -> in_columns t prices_wide = true.
Proof. unfold Scanner.valid_tickers. cbn zeta. intros H. now apply filter_In in H. Qed.

Lemma movement_defined (prices_wide : DataFrame) (lookback_bars : nat) (t : string) :
  in_columns t prices_wide = true ->
  isnan (movement (Metrics.log_returns prices_wide) lookback_bars t) = false.
Proof.
  intros Hin. unfold movement.
  rewrite <- in_columns_log_returns in Hin.
  destruct (lookup_in_columns _ _ Hin) as (xs & -> & _). apply nansum_abs_defined.
Qed.

(** The entries [nlargest] ranks, for tickers that are columns. *)
Lemma abs_returns_entries (logret : DataFrame) (lookback_bars : nat)
  (tickers : list string) :
  (forall t, In t tickers -> in_columns t logret = true) ->
  map (fun c => (fst c, nansum (map fabs (snd c))))
      (df_columns
         (if lookback_bars <=? nrows logret
          then df_tail lookback_bars
                 (mkDataFrame (df_index logret)
                    (map (fun t => (t, match lookup_column logret t with
                                       | Some xs => xs | None => [] end)) tickers))
          else mkDataFrame (df_index logret)
                 (map (fun t => (t, match lookup_column logret t with
                                    | Some xs => xs | None => [] end)) tickers)))
  = map (fun t => (t, movement logret lookback_bars t)) tickers.
Proof.
  intros Hall. unfold movement.
  destruct (lookback_bars <=? nrows logret); cbn [df_tail df_columns];
    rewrite ?map_map; apply map_ext_in; intros t Ht; cbn [fst snd];
    destruct (lookup_in_columns _ _ (Hall t Ht)) as (xs & -> & _); reflexivity.
Qed.

(** [nlargest] on entries without a missing value: the first [n] of a
    descending arrangement. *)
Lemma nlargest_spec (n : nat) (entries : list (string * float)) :
  Forall (fun e => isnan (snd e) = false) entries ->
  exists others,
    Permutation (Scanner.nlargest n entries ++ others) entries
    /\ length (Scanner.nlargest n entries) = Nat.min n (length entries)
    /\ StronglySorted (fun e1 e2 => fge (snd e1) (snd e2) = true)
         (Scanner.nlargest n entries)
    /\ Forall (fun e => Forall (fun o => fge (snd e) (snd o) = true) others)
         (Scanner.nlargest n entries).
Proof.
  intros Hdef. unfold Scanner.nlargest.
  pose proof (nargsort_perm _ snd false true entries) as Hperm.
  destruct (nargsort_desc_nan_last _ snd entries)
    as (defined & undefined & Hout & _ & Hundef & Hsorted).
  assert (Hnone : undefined = []).
  { destruct undefined as [| e rest]; [reflexivity |]. exfalso.
    inversion Hundef as [| ? ? He _]; subst.
    assert (Hin : In e entries).
    { apply Permutation_sym in Hperm. apply (Permutation_in _ Hperm).
      rewrite Hout. apply in_or_app. right. now left. }
    rewrite (proj1 (Forall_forall _ _) Hdef e Hin) in He. discriminate. }
  rewrite Hnone, app_nil_r in Hout. rewrite <- Hout in Hsorted.
  rewrite <- (firstn_skipn n (nargsort snd false true entries)) in Hsorted.
  apply StronglySorted_app_inv in Hsorted as (Htop & Hcross).
  exists (skipn n (nargsort snd false true entries)).
  split; [| split; [| split]].
  - rewrite firstn_skipn. now apply Permutation_sym.
  - now rewrite length_firstn, <- (Permutation_length Hperm).
  - exact Htop.
  - exact Hcross.
Qed.

(** The top movers of a basket with at least two valid tickers, on a
    price table with rows and for a positive lookback: the names listed
    are those of [min 3 n] valid tickers, in descending order of the sum
    of their absolute log returns over the lookback, and no ticker left
    out has a larger sum than a listed one.  Every sum is a number or
    infinite, never missing. *)
Theorem top_movers_are_largest (prices_wide : DataFrame) (settings : Settings)
  (lookback_bars : nat) (basket_name : string) (tickers_raw : list string)
  (Hbig : 2 <= length (Scanner.valid_tickers prices_wide tickers_raw))
  (Hrows : 0 < nrows prices_wide) (Hlook : 0 < lookback_bars) :
  exists top others,
    Scanner.top_movers
      (Scanner.scan_basket prices_wide (Metrics.log_returns prices_wide) settings
         lookback_bars basket_name tickers_raw)
    = String.concat ", " (map fst top)
    /\ Permutation (top ++ others)
         (map (fun t => (t, movement (Metrics.log_returns prices_wide) lookback_bars t))
            (Scanner.valid_tickers prices_wide tickers_raw))
    /\ length top = Nat.min 3 (length (Scanner.valid_tickers prices_wide tickers_raw))
    /\ Forall (fun e => isnan (snd e) = false) (top ++ others)
    /\ StronglySorted (fun e1 e2 => fge (snd e1) (snd e2) = true) top
    /\ Forall (fun e => Forall (fun o => fge (snd e) (snd o) = true) others) top.
Proof.
  set (valid := Scanner.valid_tickers prices_wide tickers_raw) in *.
  set (logret := Metrics.log_returns prices_wide).
  set (entries := map (fun t => (t, movement logret lookback_bars t)) valid).
  assert (Hcols : forall t, In t valid -> in_columns t logret = true).
  { intros t Ht. unfold logret. rewrite in_columns_log_returns.
    now apply (valid_tickers_in_columns prices_wide tickers_raw). }
  assert (Hdef : Forall (fun e => isnan (snd e) = false) entries).
  { unfold entries. apply Forall_forall. intros e He.
    apply in_map_iff in He as (t & <- & Ht). cbn [snd]. apply movement_defined.
    now apply (valid_tickers_in_columns prices_wide tickers_raw). }
  destruct (nlargest_spec 3 entries Hdef) as (others & Hperm & Hlen & Hsorted & Hcross).
  exists (Scanner.nlargest 3 entries), others.
  split; [| split; [exact Hperm | split; [| split; [| split]]]].
  - unfold Scanner.scan_basket. cbn zeta. fold valid.
    destruct (Nat.ltb_spec (length valid) 2) as [Hsmall | _]; [lia |].
    cbn [Scanner.top_movers]. unfold Scanner.top_movers_body, getitems.
    fold logret. rewrite (select_columns_form logret valid Hcols). cbn [bind].
    match goal with
    | |- context [negb (df_empty ?r) && (0 <? nrows ?r)] =>
        assert (Hrecent : negb (df_empty r) && (0 <? nrows r) = true)
    end.
    { assert (Hn : nrows logret = nrows prices_wide) by reflexivity.
      assert (Hidx : df_index logret <> []).
      { unfold nrows in *. intros E. rewrite E in Hn. cbn in Hn. lia. }
      assert (Hvalid : valid <> []) by (intros E; rewrite E in Hbig; cbn in Hbig; lia).
      unfold df_empty, nrows.
      destruct (lookback_bars <=? length (df_index logret)) eqn:Hcase;
        cbn [df_tail df_index df_columns].
      - apply Nat.leb_le in Hcase.
        assert (Hlen_tail : length (tail lookback_bars (df_index logret)) = lookback_bars).
        { unfold tail. rewrite length_skipn. lia. }
        destruct (tail lookback_bars (df_index logret)) as [| t0 rest0];
          [cbn in Hlen_tail; lia |].
        destruct valid as [| v0 vrest]; [contradiction | reflexivity].
      - destruct (df_index logret) as [| t0 rest0]; [contradiction |].
        destruct valid as [| v0 vrest]; [contradiction | reflexivity]. }
    rewrite Hrecent, (abs_returns_entries logret lookback_bars valid Hcols).
    reflexivity.
  - rewrite Hlen. unfold entries. now rewrite length_map.
  - eapply Permutation_Forall; [apply Permutation_sym, Hperm | exact Hdef].
  - exact Hsorted.
  - exact Hcross.
Qed.

Lemma top_movers_are_largest_witness :
  exists top others,
    Scanner.top_movers
      (Scanner.scan_basket sample_prices (Metrics.log_returns sample_prices)
         default_settings 24 "pair" ["A"; "B"]%string)
    = String.concat ", " (map fst top)
    /\ Permutation (top ++ others)
         (map (fun t => (t, movement (Metrics.log_returns sample_prices) 24 t))
            (Scanner.valid_tickers sample_prices ["A"; "B"]%string))
    /\ length top = Nat.min 3 (length (Scanner.valid_tickers sample_prices ["A"; "B"]%string)).
Proof.
  assert (Hbig : 2 <= length (Scanner.valid_tickers sample_prices ["A"; "B"]%string)).
  { vm_compute. lia. }
  assert (Hrows : 0 < nrows sample_prices) by (cbn; lia).
  destruct (top_movers_are_largest sample_prices default_settings 24 "pair"
              ["A"; "B"]%string Hbig Hrows (Nat.lt_0_succ 23))
    as (top & others & Hnames & Hperm & Hlen & _).
  exists top, others. split; [exact Hnames |]. split; [exact Hperm | exact Hlen].
Defined.

(** ** The Basket Explorer page *)

(** The opportunities table of the Basket Explorer page never gets a row,
    whatever the prices, the settings and the pairs: the flag of every
    pair is computed with [np.isna], which numpy does not have, and the
    handler of the loop skips the pair. *)
Theorem opportunities_table_always_empty (prices_wide logret : DataFrame)
  (settings : Settings) (pairs : list (string * string)) :
  BasketExplorer.opportunities_data prices_wide logret settings pairs = [].
Proof.
  assert (Hrow : forall ab,
             BasketExplorer.opportunity_row prices_wide logret settings ab = None).
  { intros ab. unfold BasketExplorer.opportunity_row.
    destruct (Spread.spread_series prices_wide (fst ab) (snd ab)) as [spread | e];
      [| reflexivity].
    cbn [BasketExplorer.caught BasketExplorer.obind].
    destruct (Scanner.latest_or_nan _) as [latest_z | e]; [| reflexivity].
    cbn [BasketExplorer.caught BasketExplorer.obind].
    unfold Spread.bollinger_bands. cbn zeta.
    destruct (Spread.latest_boll_breach _ _ _) as [latest_breach | e]; [| reflexivity].
    cbn [BasketExplorer.caught BasketExplorer.obind].
    destruct (BasketExplorer.compute_bars_since_breach _) as [bars_since | e];
      [| reflexivity].
    cbn [BasketExplorer.caught BasketExplorer.obind].
    destruct (Metrics.pair_corr_latest _ _ _ _) as [corr_value | e]; reflexivity. }
  induction pairs as [| ab rest IH]; [reflexivity |].
  cbn [BasketExplorer.opportunities_data]. now rewrite Hrow.
Qed.

Lemma basket_return_present (logret : DataFrame) (tickers : list string) :
  (forall t, In t tickers -> in_columns t logret = true) ->
  exists s, Metrics.basket_return logret tickers = Ok s /\ length s = nrows logret.
Proof.
  intros Hall. unfold Metrics.basket_return.
  destruct (filter (fun t => negb (in_columns t logret)) tickers) as [| t rest] eqn:Hf.
  - cbn [empty negb]. unfold getitems.
    rewrite (select_columns_form logret tickers Hall). cbn [bind].
    eexists. split; [reflexivity |].
    unfold mean_axis1, nrows. cbn [df_index].
    rewrite length_combine, length_map, length_seq. lia.
  - assert (Hin : In t (filter (fun t => negb (in_columns t logret)) tickers))
      by (rewrite Hf; now left).
    apply filter_In in Hin as [Hin Hneg]. rewrite (Hall t Hin) in Hneg. discriminate.
Qed.

(** The basket volatility on the Basket Explorer page is the one of the
    Overview page for the same basket and settings whenever more than one
    recent bar enters it; with at most one (a table with at most one row,
    or an analytics window of at most one bar) the page shows 0.0 where
    the Overview has NaN. *)
Theorem basket_vol_pages_agree (prices_wide : DataFrame) (settings : Settings)
  (lookback_bars : nat) (basket_name : string) (tickers_raw : list string)
  (Hbig : 2 <= length (BasketExplorer.valid_tickers prices_wide tickers_raw)) :
  exists page_vol,
    BasketExplorer.basket_vol_value (Metrics.log_returns prices_wide)
      (BasketExplorer.valid_tickers prices_wide tickers_raw) settings
    = Ok page_vol
    /\ (1 < Nat.min (analytics_window settings) (nrows prices_wide) ->
        page_vol
        = Scanner.basket_vol
            (Scanner.scan_basket prices_wide (Metrics.log_returns prices_wide) settings
               lookback_bars basket_name tickers_raw))
    /\ (Nat.min (analytics_window settings) (nrows prices_wide) <= 1 ->
        page_vol = Fin 0
        /\ Scanner.basket_vol
             (Scanner.scan_basket prices_wide (Metrics.log_returns prices_wide) settings
                lookback_bars basket_name tickers_raw)
           = NaN).
Proof.
  change (BasketExplorer.valid_tickers prices_wide tickers_raw)
    with (Scanner.valid_tickers prices_wide tickers_raw) in *.
  set (valid := Scanner.valid_tickers prices_wide tickers_raw) in *.
  set (logret := Metrics.log_returns prices_wide).
  assert (Hcols : forall t, In t valid -> in_columns t logret = true).
  { intros t Ht. unfold logret. rewrite in_columns_log_returns.
    now apply (valid_tickers_in_columns prices_wide tickers_raw). }
  destruct (basket_return_present logret valid Hcols) as (ret & Hret & Hlen).
  change (nrows logret) with (nrows prices_wide) in Hlen.
  unfold BasketExplorer.basket_vol_value, Scanner.scan_basket. cbn zeta. fold valid.
  destruct (Nat.ltb_spec (length valid) 2) as [Hsmall | _]; [lia |].
  cbn [Scanner.basket_vol]. unfold Scanner.basket_vol_body.
  rewrite Hret. cbn [bind]. rewrite Hlen.
  destruct (Nat.leb_spec (analytics_window settings) (nrows prices_wide)) as [Hfull | Hpart].
  - assert (Htail : length (tail (analytics_window settings) ret) = analytics_window settings).
    { unfold tail. rewrite length_skipn. lia. }
    rewrite Htail. cbn [try_except]. eexists. split; [reflexivity |].
    rewrite Nat.min_l by assumption.
    destruct (Nat.ltb_spec 1 (analytics_window settings)); split; intros; try lia; auto.
  - rewrite Hlen. rewrite Nat.min_r by lia.
    destruct (Nat.ltb_spec 1 (nrows prices_wide)); cbn [try_except];
      eexists; (split; [reflexivity |]); split; intros; try lia; auto.
Qed.

Lemma basket_vol_pages_agree_witness :
  exists page_vol,
    BasketExplorer.basket_vol_value (Metrics.log_returns sample_prices)
      (BasketExplorer.valid_tickers sample_prices ["A"; "B"]%string) default_settings
    = Ok page_vol.
Proof.
  assert (Hbig : 2 <= length (BasketExplorer.valid_tickers sample_prices ["A"; "B"]%string)).
  { vm_compute. lia. }
  destruct (basket_vol_pages_agree sample_prices default_settings 24 "pair"
              ["A"; "B"]%string Hbig) as (page_vol & Hvol & _).
  exists page_vol. exact Hvol.
Defined.

(** ** Spread volatility and log returns *)

Lemma length_all_finite (l : list float) (obs : list R) :
  all_finite l = Some obs -> length obs = length l.
Proof.
  revert obs. induction l as [| x rest IH]; intros obs; cbn [all_finite].
  - now intros [= <-].
  - destruct x; try discriminate.
    destruct (all_finite rest) as [rs |]; [| discriminate].
    intros [= <-]. cbn [length]. now rewrite (IH rs).
Qed.

(** The deviation of at most one observation is missing. *)
Lemma nanstd_few (l : list float) : length (dropna l) <= 1 -> nanstd l = NaN.
Proof.
  intros Hfew. unfold nanstd.
  destruct (all_finite (dropna l)) as [obs |] eqn:Hobs; [| reflexivity].
  apply length_all_finite in Hobs. unfold agg_std, agg_var.
  destruct (Nat.leb_spec (length obs) 1); [reflexivity | lia].
Qed.

Lemma length_dropna_le (l : list float) : length (dropna l) <= length l.
Proof. apply filter_length_le. Qed.

Lemma dropna_idempotent (l : list float) : dropna (dropna l) = dropna l.
Proof.
  unfold dropna. induction l as [| x rest IH]; [reflexivity |].
  cbn [filter]. destruct (isnan x) eqn:Hx; cbn [negb]; [exact IH |].
  cbn [filter]. rewrite Hx. cbn [negb]. now rewrite IH.
Qed.

(** The first difference of a series is missing, so differencing loses a
    row. *)
Lemma length_diff_dropna (xs : list float) :
  length (Spread.diff_dropna xs) <= length xs - 1.
Proof.
  unfold Spread.diff_dropna. destruct xs as [| x rest]; [cbn; lia |].
  unfold shift1. cbn [zip_with].
  assert (Hfirst : fsub x NaN = NaN) by now destruct x.
  rewrite Hfirst. unfold dropna. cbn [filter isnan negb].
  etransitivity; [apply filter_length_le |].
  rewrite length_zip_with_min. cbn [length]. lia.
Qed.

Lemma diff_dropna_clean (xs : list float) :
  dropna (Spread.diff_dropna xs) = Spread.diff_dropna xs.
Proof. unfold Spread.diff_dropna. apply dropna_idempotent. Qed.

(** [spread_vol] returns NaN or a number that is not negative.  It is NaN
    for a series with fewer than three rows (two rows give one
    difference, and a deviation needs two) and for a window of at most
    one bar; and it is the same for a series and its negation, that is,
    for a pair read in either order. *)
Theorem spread_vol_cases (series : Series float) (w : nat) :
  (Spread.spread_vol series w = NaN
   \/ exists v, Spread.spread_vol series w = Fin v /\ (0 <= v)%R)
  /\ (length series < 3 -> Spread.spread_vol series w = NaN)
  /\ (w <= 1 -> Spread.spread_vol series w = NaN)
  /\ Spread.spread_vol (smap fneg series) w = Spread.spread_vol series w.
Proof.
  split; [| split; [| split]].
  - unfold Spread.spread_vol. destruct (length series <? 2); [now left |].
    cbn zeta. destruct (length (Spread.diff_dropna (values series)) <? w).
    + destruct (1 <? length (Spread.diff_dropna (values series)));
        [apply nanstd_nonneg | now left].
    + apply nanstd_nonneg.
  - intros Hshort. unfold Spread.spread_vol.
    destruct (Nat.ltb_spec (length series) 2); [reflexivity |]. cbn zeta.
    pose proof (length_diff_dropna (values series)) as Hdiff.
    rewrite length_values in Hdiff.
    destruct (Nat.ltb_spec (length (Spread.diff_dropna (values series))) w).
    + destruct (Nat.ltb_spec 1 (length (Spread.diff_dropna (values series))));
        [lia | reflexivity].
    + apply nanstd_few. etransitivity; [apply length_dropna_le |].
      unfold tail. rewrite length_skipn. lia.
  - intros Hw. unfold Spread.spread_vol.
    destruct (length series <? 2); [reflexivity |]. cbn zeta.
    destruct (Nat.ltb_spec (length (Spread.diff_dropna (values series))) w).
    + destruct (Nat.ltb_spec 1 (length (Spread.diff_dropna (values series))));
        [lia | reflexivity].
    + apply nanstd_few. etransitivity; [apply length_dropna_le |].
      unfold tail. rewrite length_skipn. lia.
  - apply spread_vol_fneg.
Qed.

Lemma nth_skipn_shift (A : Type) (k i : nat) (l : list A) (d : A) :
  nth i (skipn k l) d = nth (k + i) l d.
Proof.
  revert l. induction k as [| k IH]; intros l; [reflexivity |].
  destruct l as [| x rest]; [now destruct i |]. cbn [skipn Nat.add nth]. apply IH.
Qed.

(** *** Log returns add up *)

Lemma zip_with_removelast (A B C : Type) (f : A -> B -> C) (l : list A) (x : B)
  (l' : list B) :
  length l' = length l ->
  zip_with f l (removelast (x :: l')) = zip_with f l (x :: l').
Proof.
  revert x l'. induction l as [| a r IH]; intros x [| y r'] Hlen; try discriminate;
    [reflexivity |].
  injection Hlen as Hlen. cbn [removelast zip_with]. f_equal. now apply IH.
Qed.

(** The log returns of a column of positive prices: a missing first row,
    then the logarithm of each price over the one before. *)
Lemma log_returns_positive (ps : list R) :
  Forall (fun p => (0 < p)%R) ps -> ps <> [] ->
  map flog (zip_with fdiv (map Fin ps) (shift1 (map Fin ps)))
  = NaN :: map Fin (zip_with (fun q p => ln (q / p)) (tl ps) ps).
Proof.
  intros Hpos Hne. destruct ps as [| p0 rest]; [contradiction |].
  cbn [map]. unfold shift1. cbn [zip_with map tl fdiv flog]. f_equal.
  rewrite zip_with_removelast by reflexivity.
  clear Hne. revert p0 Hpos.
  induction rest as [| q r IH]; intros p0 Hpos; [reflexivity |].
  inversion Hpos as [| ? ? Hp0 Hrest]; subst.
  inversion Hrest as [| ? ? Hq _]; subst.
  cbn [map zip_with]. rewrite (IH q Hrest). f_equal.
  cbn [fdiv]. rewrite Reqb_false by lra. cbn [flog].
  now rewrite Rltb_true by (apply Rdiv_lt_0_compat; assumption).
Qed.

(** The log returns between the first and the last price add up to the
    logarithm of the last price over the first. *)
Lemma log_returns_sum (ps : list R) :
  Forall (fun p => (0 < p)%R) ps -> ps <> [] ->
  Rsum (zip_with (fun q p => ln (q / p)) (tl ps) ps)
  = (ln (nth (length ps - 1) ps 0) - ln (nth 0 ps 0))%R.
Proof.
  intros Hpos Hne. destruct ps as [| p0 rest]; [contradiction |]. clear Hne.
  revert p0 Hpos. induction rest as [| q r IH]; intros p0 Hpos.
  - cbn. lra.
  - inversion Hpos as [| ? ? Hp0 Hrest]; subst.
    inversion Hrest as [| ? ? Hq _]; subst.
    cbn [tl zip_with]. rewrite Rsum_cons.
    specialize (IH q Hrest). cbn [tl] in IH. rewrite IH.
    replace (length (p0 :: q :: r) - 1) with (S (length r)) by (cbn [length]; lia).
    replace (length (q :: r) - 1) with (length r) by (cbn [length]; lia).
    cbn [nth].
    unfold Rdiv. rewrite ln_mult by (try assumption; now apply Rinv_0_lt_compat).
    rewrite ln_Rinv by assumption. lra.
Qed.

Lemma zip_with_skipn (A B C : Type) (f : A -> B -> C) (m : nat)
  (l1 : list A) (l2 : list B) :
  skipn m (zip_with f l1 l2) = zip_with f (skipn m l1) (skipn m l2).
Proof.
  revert l1 l2. induction m as [| m IH]; intros l1 l2; [reflexivity |].
  destruct l1 as [| x r1]; [reflexivity |].
  destruct l2 as [| y r2]; [cbn; now destruct (skipn m r1) |].
  cbn [zip_with skipn]. apply IH.
Qed.

Lemma skipn_tl (A : Type) (m : nat) (l : list A) : skipn m (tl l) = tl (skipn m l).
Proof.
  revert l. induction m as [| m IH]; intros l; [reflexivity |].
  destruct l as [| x rest]; [reflexivity |].
  cbn [tl skipn]. destruct rest as [| y r]; [now destruct m |].
  rewrite <- IH. reflexivity.
Qed.

Lemma nansum_numbers (rs : list R) : nansum (map Fin rs) = Fin (Rsum rs).
Proof.
  unfold nansum, dropna. rewrite forallb_filter_id.
  - rewrite fold_fadd_finite. f_equal. lra.
  - apply forallb_forall. intros x Hx. apply in_map_iff in Hx as (r & <- & _).
    reflexivity.
Qed.

(** The return over 24 bars of the members table of the Basket Explorer
    page, for a ticker whose prices are all positive numbers, is the
    logarithm of the latest price over the price 24 bars before, in
    percent; on a table with at most 24 rows, over the first price (the
    first log return is missing and the sum skips it).  The log returns
    of the bars in between cancel (finite arithmetic exact). *)
Theorem return_24_telescopes (prices_wide : DataFrame) (ticker : string) (ps : list R)
  (Hwf : wf_table prices_wide)
  (Hcol : lookup_column prices_wide ticker = Some (map Fin ps))
  (Hpos : Forall (fun p => (0 < p)%R) ps)
  (Hrows : ps <> []) :
  BasketExplorer.return_24_pct (Metrics.log_returns prices_wide) ticker
  = Ok (Fin ((ln (nth (length ps - 1) ps 0)
              - ln (nth (length ps - 1 - Nat.min 24 (length ps - 1)) ps 0)) * 100)%R).
Proof.
  destruct (lookup_column_In _ _ _ Hcol) as (name & Hin).
  pose proof (proj1 (Forall_forall _ _) Hwf _ Hin) as Hlen.
  cbn [snd] in Hlen. rewrite length_map in Hlen.
  assert (Hn : 0 < length ps) by (destruct ps; [contradiction | cbn [length]; lia]).
  unfold BasketExplorer.return_24_pct, getitem, Metrics.log_returns.
  rewrite lookup_map_columns, Hcol. cbn [bind df_index map_columns]. cbn zeta.
  rewrite (log_returns_positive ps Hpos Hrows).
  set (diffs := zip_with (fun q p => ln (q / p)) (tl ps) ps).
  assert (Hdiffs : length diffs = length ps - 1).
  { unfold diffs. rewrite length_zip_with_min.
    destruct ps as [| p0 rest]; [contradiction |]. cbn [tl length]. lia. }
  set (column := NaN :: map Fin diffs).
  assert (Hcolumn : length column = nrows prices_wide).
  { unfold column. cbn [length]. rewrite length_map, Hdiffs. lia. }
  set (returns := combine (df_index prices_wide) column).
  assert (Hreturns : length returns = length ps).
  { unfold returns. rewrite length_combine. unfold nrows in *. lia. }
  assert (Hnonempty : empty (tail 24 returns) = false).
  { assert (Ht : 0 < length (tail 24 returns)).
    { unfold tail. rewrite length_skipn. lia. }
    destruct (tail 24 returns); [cbn in Ht; lia | reflexivity]. }
  rewrite Hnonempty. cbn [negb]. do 2 f_equal.
  assert (Hvalues : values (tail 24 returns) = tail 24 column).
  { unfold values. rewrite <- tail_map. fold (values returns).
    unfold returns. now rewrite values_combine by (unfold nrows in *; congruence). }
  rewrite Hvalues. unfold tail.
  assert (Hcl : length column = length ps) by lia. rewrite Hcl.
  destruct (Nat.le_gt_cases (length ps) 24) as [Hshort | Hlong].
  - replace (length ps - 24) with 0 by lia. cbn [skipn]. unfold column.
    unfold nansum, dropna. cbn [filter isnan negb].
    fold (dropna (map Fin diffs)). fold (nansum (map Fin diffs)).
    rewrite nansum_numbers. cbn [fmul]. f_equal. unfold diffs.
    rewrite (log_returns_sum ps Hpos Hrows).
    rewrite Nat.min_r by lia. now replace (length ps - 1 - (length ps - 1)) with 0 by lia.
  - replace (length ps - 24) with (S (length ps - 25)) by lia.
    unfold column. cbn [skipn]. rewrite skipn_map, nansum_numbers. cbn [fmul]. f_equal.
    unfold diffs. rewrite zip_with_skipn, skipn_tl.
    assert (Hsuffix_pos : Forall (fun p => (0 < p)%R) (skipn (length ps - 25) ps)).
    { apply Forall_forall. intros p Hp. apply (proj1 (Forall_forall _ _) Hpos).
      rewrite <- (firstn_skipn (length ps - 25) ps). apply in_or_app. now right. }
    assert (Hsuffix_len : length (skipn (length ps - 25) ps) = 25).
    { rewrite length_skipn. lia. }
    assert (Hsuffix_ne : skipn (length ps - 25) ps <> []).
    { intros E. rewrite E in Hsuffix_len. discriminate. }
    rewrite (log_returns_sum _ Hsuffix_pos Hsuffix_ne), Hsuffix_len.
    rewrite !nth_skipn_shift. rewrite Nat.min_l by lia.
    replace (length ps - 25 + (25 - 1)) with (length ps - 1) by lia.
    replace (length ps - 25 + 0) with (length ps - 1 - 24) by lia.
    reflexivity.
Qed.

Lemma return_24_telescopes_witness :
  BasketExplorer.return_24_pct
    (Metrics.log_returns
       (mkDataFrame [0; 1; 2]%Z [("A"%string, [Fin 1; Fin 2; Fin 4])])) "A"
  = Ok (Fin ((ln 4 - ln 1) * 100)%R).
Proof.
  assert (Hwf : wf_table (mkDataFrame [0; 1; 2]%Z [("A"%string, [Fin 1; Fin 2; Fin 4])])).
  { repeat constructor. }
  assert (Hpos : Forall (fun p => (0 < p)%R) [1; 2; 4]%R).
  { repeat constructor; lra. }
  exact (return_24_telescopes
           (mkDataFrame [0; 1; 2]%Z [("A"%string, [Fin 1; Fin 2; Fin 4])]) "A"
           [1; 2; 4]%R Hwf eq_refl Hpos ltac:(discriminate)).
Defined.

(** ** Trimming and the spread *)

Lemma values_skipn (A : Type) (k : nat) (s : Series A) :
  values (skipn k s) = skipn k (values s).
Proof. unfold values. symmetry. apply skipn_map. Qed.


Lemma latest_value_skipn (s : Series float) (k : nat) :
  k < length s -> latest_value (skipn k s) = latest_value s.
Proof.
  intros Hk.
  assert (Hlen : length (skipn k s) = length s - k) by apply length_skipn.
  assert (Hne : forall t : Series float, 0 < length t -> t <> [])
    by (intros t Ht E; rewrite E in Ht; cbn in Ht; lia).
  rewrite !latest_value_nth by (apply Hne; rewrite ?Hlen; lia).
  rewrite Hlen, values_skipn, nth_skipn_shift. f_equal. lia.
Qed.

(** On an index in ascending order the rows from a timestamp on are a
    suffix. *)
Lemma filter_sorted_skipn (A : Type) (c : Z) (s : list (Z * A)) :
  StronglySorted Z.le (map fst s) ->
  filter (fun r => (c <=? fst r)%Z) s
  = skipn (length s - length (filter (fun r => (c <=? fst r)%Z) s)) s.
Proof.
  induction s as [| r rest IH]; [reflexivity |].
  cbn [map]. intros Hsorted. inversion Hsorted as [| ? ? Hrest Hall]; subst.
  cbn [filter]. destruct (Z.leb_spec c (fst r)) as [Hkeep | Hdrop].
  - assert (Hall_kept : filter (fun r0 => (c <=? fst r0)%Z) rest = rest).
    { apply forallb_filter_id. apply forallb_forall. intros q Hq.
      apply Z.leb_le.
      assert (Hle : (fst r <= fst q)%Z).
      { apply (proj1 (Forall_forall _ _) Hall). now apply in_map. }
      lia. }
    rewrite Hall_kept. cbn [length]. now rewrite Nat.sub_diag.
  - rewrite (IH Hrest) at 1.
    pose proof (filter_length_le (fun r0 => (c <=? fst r0)%Z) rest) as Hle.
    cbn [length].
    replace (S (length rest) - length (filter (fun r0 => (c <=? fst r0)%Z) rest))
      with (S (length rest - length (filter (fun r0 => (c <=? fst r0)%Z) rest))) by lia.
    reflexivity.
Qed.

Lemma length_filter_combine (A : Type) (f : Z -> bool) (idx : list Z) (xs : list A) :
  length xs = length idx ->
  length (filter (fun r => f (fst r)) (combine idx xs)) = length (filter f idx).
Proof.
  revert xs. induction idx as [| t rest IH]; intros [| x xr] Hlen; try discriminate;
    [reflexivity |].
  injection Hlen as Hlen. cbn [combine filter fst].
  destruct (f t); cbn [length]; now rewrite IH.
Qed.

Lemma combine_skipn (A B : Type) (k : nat) (l1 : list A) (l2 : list B) :
  combine (skipn k l1) (skipn k l2) = skipn k (combine l1 l2).
Proof.
  revert l1 l2. induction k as [| k IH]; intros l1 l2; [reflexivity |].
  destruct l1 as [| x r1]; [reflexivity |].
  destruct l2 as [| y r2]; [cbn; now destruct (skipn k r1) |].
  cbn [skipn combine]. apply IH.
Qed.

Lemma szip_skipn (A B C : Type) (f : A -> B -> C) (k : nat)
  (s1 : Series A) (s2 : Series B) :
  szip f (skipn k s1) (skipn k s2) = skipn k (szip f s1 s2).
Proof. unfold szip. now rewrite combine_skipn, skipn_map. Qed.

Lemma smap_skipn (A B : Type) (f : A -> B) (k : nat) (s : Series A) :
  smap f (skipn k s) = skipn k (smap f s).
Proof. unfold smap. symmetry. apply skipn_map. Qed.

Lemma getitem_df_mask (f : Z -> bool) (df : DataFrame) (a : string) :
  getitem (df_mask (map f (df_index df)) df) a
  = (prices <- getitem df a ;; Ok (filter (fun r => f (fst r)) prices)).
Proof.
  unfold getitem. rewrite lookup_df_mask.
  destruct (lookup_column df a) as [xs |]; [| reflexivity].
  cbn [bind]. f_equal. unfold df_mask. cbn [df_index]. apply mask_select_combine.
Qed.

Lemma getitem_wf (df : DataFrame) (a : string) (s : Series float) :
  wf_table df -> getitem df a = Ok s -> index s = df_index df /\ length s = nrows df.
Proof.
  intros Hwf. unfold getitem.
  destruct (lookup_column df a) as [xs |] eqn:Hlookup; [| discriminate].
  intros [= <-]. destruct (lookup_column_In _ _ _ Hlookup) as (name & Hin).
  pose proof (proj1 (Forall_forall _ _) Hwf _ Hin) as Hlen. cbn [snd] in Hlen.
  unfold nrows in *. split; [now apply index_combine |].
  rewrite length_combine. lia.
Qed.

(** The spread of a pair on a masked table whose index is in ascending
    order: the spread on the whole table without its first rows. *)
Lemma spread_series_df_mask (c : Z) (df : DataFrame) (a b : string) :
  wf_table df -> StronglySorted Z.le (df_index df) ->
  Spread.spread_series (df_mask (map (fun t => (c <=? t)%Z) (df_index df)) df) a b
  = (spread <- Spread.spread_series df a b ;;
     Ok (skipn (nrows df - length (filter (fun t => (c <=? t)%Z) (df_index df))) spread)).
Proof.
  intros Hwf Hsorted. unfold Spread.spread_series.
  rewrite !(getitem_df_mask (fun t => (c <=? t)%Z)).
  destruct (getitem df a) as [pa |] eqn:Ha; [| reflexivity].
  destruct (getitem df b) as [pb |] eqn:Hb; [| reflexivity].
  cbn [bind].
  destruct (getitem_wf _ _ _ Hwf Ha) as (Hia & Hla).
  destruct (getitem_wf _ _ _ Hwf Hb) as (Hib & Hlb).
  assert (Hkept : forall p : Series float,
             index p = df_index df -> length p = nrows df ->
             filter (fun r => (c <=? fst r)%Z) p
             = skipn (nrows df - length (filter (fun t => (c <=? t)%Z) (df_index df))) p).
  { intros p Hip Hlp. rewrite filter_sorted_skipn by (fold (index p); now rewrite Hip).
    f_equal. rewrite Hlp. f_equal.
    rewrite <- Hip. unfold index. clear.
    induction p as [| r rest IH]; [reflexivity |].
    cbn [map filter]. destruct (c <=? fst r)%Z; cbn [length]; now rewrite IH. }
  rewrite (Hkept pa Hia Hla), (Hkept pb Hib Hlb).
  now rewrite !smap_skipn, szip_skipn.
Qed.

Lemma spread_series_wf_length (df : DataFrame) (a b : string) (spread : Series float) :
  wf_table df -> Spread.spread_series df a b = Ok spread -> length spread = nrows df.
Proof.
  intros Hwf. unfold Spread.spread_series.
  destruct (getitem df a) as [pa |] eqn:Ha; [| discriminate].
  destruct (getitem df b) as [pb |] eqn:Hb; [| discriminate].
  cbn [bind]. intros [= <-].
  destruct (getitem_wf _ _ _ Hwf Ha) as (_ & Hla).
  destruct (getitem_wf _ _ _ Hwf Hb) as (_ & Hlb).
  rewrite szip_length; rewrite !length_smap; congruence.
Qed.

(** The spread of a pair on the trimmed table of a well-formed price
    table with an index in ascending order is the spread on the whole
    table without its first rows, as many as trimming dropped: row by row
    the trimmed table shows the spread of the whole one.  For a number of
    days that is not negative the latest spread is the same. *)
Theorem trimmed_spread_is_suffix (prices_wide : DataFrame) (days_display : Z)
  (a b : string)
  (Hwf : wf_table prices_wide)
  (Hsorted : StronglySorted Z.le (df_index prices_wide)) :
  Spread.spread_series (trim_history prices_wide days_display) a b
  = (spread <- Spread.spread_series prices_wide a b ;;
     Ok (skipn (nrows prices_wide - nrows (trim_history prices_wide days_display))
           spread))
  /\ nrows (trim_history prices_wide days_display) <= nrows prices_wide
  /\ ((0 <= days_display)%Z ->
      forall spread,
        Spread.spread_series prices_wide a b = Ok spread ->
        exists trimmed,
          Spread.spread_series (trim_history prices_wide days_display) a b = Ok trimmed
          /\ length trimmed = nrows (trim_history prices_wide days_display)
          /\ latest_value trimmed = latest_value spread).
Proof.
  destruct (df_empty prices_wide) eqn:Hrows.
  { assert (Hsame : trim_history prices_wide days_display = prices_wide)
      by (unfold trim_history; now rewrite Hrows).
    rewrite Hsame, Nat.sub_diag. split; [| split; [lia |]].
    - now destruct (Spread.spread_series prices_wide a b).
    - intros _ spread Hs. exists spread. split; [assumption |].
      split; [now apply (spread_series_wf_length _ a b) | reflexivity]. }
  assert (Hidx : empty (df_index prices_wide) = false).
  { unfold df_empty in Hrows. now apply orb_false_iff in Hrows. }
  destruct (index_max_some _ Hidx) as (end_date & Hmax).
  destruct (index_max_spec _ _ Hmax) as (Hin & _).
  rewrite (trim_history_rows _ days_display _ Hrows Hmax).
  set (c := (end_date - timedelta_days days_display)%Z).
  assert (Hkept : nrows (df_mask (map (fun t => (c <=? t)%Z) (df_index prices_wide))
                           prices_wide)
                  = length (filter (fun t => (c <=? t)%Z) (df_index prices_wide))).
  { unfold nrows, df_mask. cbn [df_index]. now rewrite mask_select_index. }
  rewrite Hkept.
  pose proof (filter_length_le (fun t => (c <=? t)%Z) (df_index prices_wide)) as Hle.
  fold (nrows prices_wide) in Hle.
  split; [apply (spread_series_df_mask c _ a b Hwf Hsorted) |].
  split; [exact Hle |].
  intros Hdays spread Hs.
  rewrite (spread_series_df_mask c _ a b Hwf Hsorted), Hs. cbn [bind].
  eexists. split; [reflexivity |].
  pose proof (spread_series_wf_length _ _ _ _ Hwf Hs) as Hlen.
  assert (Hlatest : In end_date (filter (fun t => (c <=? t)%Z) (df_index prices_wide))).
  { apply filter_In. split; [assumption |]. apply Z.leb_le.
    unfold c, timedelta_days. lia. }
  assert (Hpos : 0 < length (filter (fun t => (c <=? t)%Z) (df_index prices_wide))).
  { destruct (filter (fun t => (c <=? t)%Z) (df_index prices_wide));
      [contradiction | cbn [length]; lia]. }
  split.
  - rewrite length_skipn, Hlen. lia.
  - apply latest_value_skipn. rewrite Hlen. lia.
Qed.

Lemma trimmed_spread_is_suffix_witness :
  exists spread,
    Spread.spread_series
      (mkDataFrame [0; 86400000; 259200000]%Z
         [("A", [Fin 1; Fin 2; Fin 3]); ("B", [Fin 1; Fin 1; Fin 1])]%string) "A" "B"
    = Ok spread
    /\ Spread.spread_series
         (trim_history
            (mkDataFrame [0; 86400000; 259200000]%Z
               [("A", [Fin 1; Fin 2; Fin 3]); ("B", [Fin 1; Fin 1; Fin 1])]%string) 2)
         "A" "B"
       = Ok (skipn 1 spread).
Proof.
  assert (Hwf : wf_table
                  (mkDataFrame [0; 86400000; 259200000]%Z
                     [("A", [Fin 1; Fin 2; Fin 3]); ("B", [Fin 1; Fin 1; Fin 1])]%string)).
  { repeat constructor. }
  assert (Hsorted : StronglySorted Z.le [0; 86400000; 259200000]%Z).
  { repeat constructor; lia. }
  pose proof (proj1 (trimmed_spread_is_suffix
                       (mkDataFrame [0; 86400000; 259200000]%Z
                          [("A", [Fin 1; Fin 2; Fin 3]); ("B", [Fin 1; Fin 1; Fin 1])]%string)
                       2 "A" "B" Hwf Hsorted)) as Htrim.
  destruct (Spread.spread_series
              (mkDataFrame [0; 86400000; 259200000]%Z
                 [("A", [Fin 1; Fin 2; Fin 3]); ("B", [Fin 1; Fin 1; Fin 1])]%string)
              "A" "B") as [spread | e] eqn:Hs; [| discriminate].
  exists spread. split; [reflexivity |]. exact Htrim.
Defined.

(** ** The breach flag of the Pair Deep Dive page *)

Lemma deep_dive_latest_value (s : Series float) :
  PairDeepDive.latest s = Ok (latest_value s).
Proof. exact (latest_or_nan_value s). Qed.

Lemma iloc_last_value (s : Series float) :
  s <> [] -> iloc_last s = Ok (latest_value s).
Proof.
  intros Hne. unfold latest_value, iloc_last.
  destruct s as [| p rest]; [contradiction |].
  destruct (exists_last (l := p :: rest)) as [front [q Hq]]; [discriminate |].
  rewrite Hq. unfold values. rewrite map_app. cbn [map]. now rewrite last_opt_snoc.
Qed.

(** The Pair Deep Dive page works its breach flag out by itself, from the
    latest spread and the latest bands with missing values guarded; the
    flag is the one [latest_boll_breach] returns, for any three series.
    Neither raises: both return true exactly when the three latest values
    exist and are not missing and the latest spread is above the latest
    upper band or below the latest lower band. *)
Theorem deep_dive_breach_agrees (spread upper lower : Series float) :
  PairDeepDive.boll_breach spread upper lower
  = Spread.latest_boll_breach spread upper lower
  /\ Spread.latest_boll_breach spread upper lower
     = Ok (negb (isnan (latest_value spread)) && negb (isnan (latest_value upper))
           && negb (isnan (latest_value lower))
           && (fgt (latest_value spread) (latest_value upper)
               || flt (latest_value spread) (latest_value lower))).
Proof.
  unfold PairDeepDive.boll_breach, Spread.latest_boll_breach.
  rewrite !deep_dive_latest_value. cbn [bind]. cbn zeta.
  destruct spread as [| ps rs]; [split; reflexivity |].
  destruct upper as [| pu ru].
  { cbn [empty orb latest_value values map last_opt rev isnan negb andb].
    rewrite andb_false_r. split; reflexivity. }
  destruct lower as [| pl rl].
  { cbn [empty orb latest_value values map last_opt rev isnan negb andb].
    rewrite !andb_false_r. split; reflexivity. }
  cbn [empty orb]. rewrite !iloc_last_value by discriminate. cbn [bind].
  destruct (isnan (latest_value (ps :: rs))), (isnan (latest_value (pu :: ru))),
    (isnan (latest_value (pl :: rl))); split; reflexivity.
Qed.

(** ** Rolling correlation *)

Lemma values_combine_short (A : Type) (idx : list Z) (vs : list A) :
  length vs <= length idx -> values (combine idx vs) = vs.
Proof.
  unfold values. revert vs. induction idx as [| t r IH]; intros [| v vr] Hlen;
    cbn in *; try reflexivity; try lia.
  f_equal. apply IH. lia.
Qed.

Lemma rolling_corr_row_warm_up (w : nat) (xs ys : list float) (i : nat) :
  i + 1 < w -> nth i (rolling_corr_values w xs ys) NaN = NaN.
Proof.
  intros Hshort. unfold rolling_corr_values. cbn zeta.
  set (x_array := zip_with (fun x y => fadd x (fmul (Fin 0) y)) xs ys).
  destruct (Nat.lt_ge_cases i (length x_array)) as [Hi | Hi].
  - rewrite nth_map_seq by assumption. unfold roll_at.
    destruct (Nat.ltb_spec (i + 1) w); [reflexivity | lia].
  - apply nth_overflow. now rewrite length_map, length_seq.
Qed.

(** [rolling_corr] raises ValueError when one of the two columns is not
    in the table; with both it returns a series whose rows before the
    window is full are missing.  Neither [rolling_corr] nor
    [pair_corr_latest] depends on the order of the two columns. *)
Theorem rolling_corr_cases (logret : DataFrame) (a b : string) (w : nat) :
  Metrics.rolling_corr logret b a w = Metrics.rolling_corr logret a b w
  /\ Metrics.pair_corr_latest logret b a w = Metrics.pair_corr_latest logret a b w
  /\ (in_columns a logret && in_columns b logret = false ->
      Metrics.rolling_corr logret a b w = Raise ValueError)
  /\ (in_columns a logret && in_columns b logret = true ->
      exists s,
        Metrics.rolling_corr logret a b w = Ok s
        /\ length s <= nrows logret
        /\ forall i, i + 1 < w -> nth i (values s) NaN = NaN).
Proof.
  split; [| split; [apply pair_corr_latest_swap | split]].
  - unfold Metrics.rolling_corr. cbn [filter].
    destruct (in_columns a logret) eqn:Ha, (in_columns b logret) eqn:Hb;
      cbn [negb empty bind]; try reflexivity.
    destruct (lookup_in_columns _ _ Ha) as (xa & Hfa & _).
    destruct (lookup_in_columns _ _ Hb) as (xb & Hfb & _).
    unfold getitem. rewrite Hfa, Hfb. cbn [bind].
    now rewrite rolling_corr_series_swap.
  - intros Hmissing. unfold Metrics.rolling_corr. cbn [filter].
    destruct (in_columns a logret), (in_columns b logret); try discriminate; reflexivity.
  - intros Hboth. apply andb_true_iff in Hboth as [Ha Hb].
    unfold Metrics.rolling_corr. cbn [filter]. rewrite Ha, Hb. cbn [negb empty].
    destruct (lookup_in_columns _ _ Ha) as (xa & Hfa & _).
    destruct (lookup_in_columns _ _ Hb) as (xb & Hfb & _).
    unfold getitem. rewrite Hfa, Hfb. cbn [bind]. eexists. split; [reflexivity |].
    unfold rolling_corr_series.
    set (vs := rolling_corr_values w _ _).
    assert (Hlen : length vs
                   = Nat.min (length (combine (df_index logret) xa))
                       (length (combine (df_index logret) xb))).
    { unfold vs, rolling_corr_values. cbn zeta.
      now rewrite length_map, length_seq, length_zip_with_min, !length_values. }
    rewrite combine_index_short by lia.
    assert (Hidx : length vs <= length (df_index logret)).
    { rewrite Hlen, !length_combine. lia. }
    split.
    + rewrite length_combine. unfold nrows. lia.
    + intros i Hi. rewrite values_combine_short by assumption.
      now apply rolling_corr_row_warm_up.
Qed.

(** ** Rows that cannot breach *)

Lemma roll_at_missing (agg : list R -> float) (w i : nat) (xs : list float) :
  i + 1 < w \/ all_finite (window w i xs) = None -> roll_at agg w xs i = NaN.
Proof.
  intros [Hwarm | Hmissing]; unfold roll_at.
  - destruct (Nat.ltb_spec (i + 1) w); [reflexivity | lia].
  - rewrite Hmissing. now destruct (i + 1 <? w).
Qed.

(** The breach series of the scanner has the index of the spread.  A row
    is no breach while its window is not full, when a value of its window
    is missing or infinite, and when the row itself is missing.  For a
    multiplier [k >= 0] no row lies above the upper band and below the
    lower band at once. *)
Theorem breach_needs_full_window (spread : Series float) (w : nat) (k : float) :
  index (Scanner._detect_bollinger_breach spread
           (fst (Scanner._compute_bollinger_bands spread w k))
           (snd (Scanner._compute_bollinger_bands spread w k)))
  = index spread
  /\ (forall i, i < length spread ->
      i + 1 < w \/ all_finite (window w i (values spread)) = None ->
      nth i (values (Scanner._detect_bollinger_breach spread
                       (fst (Scanner._compute_bollinger_bands spread w k))
                       (snd (Scanner._compute_bollinger_bands spread w k)))) false
      = false)
  /\ (forall i, i < length spread ->
      isnan (nth i (values spread) NaN) = true ->
      nth i (values (Scanner._detect_bollinger_breach spread
                       (fst (Scanner._compute_bollinger_bands spread w k))
                       (snd (Scanner._compute_bollinger_bands spread w k)))) false
      = false)
  /\ (fge k (Fin 0) = true ->
      forall i, i < length spread ->
      fgt (nth i (values spread) NaN)
          (nth i (values (fst (Scanner._compute_bollinger_bands spread w k))) NaN)
      && flt (nth i (values spread) NaN)
             (nth i (values (snd (Scanner._compute_bollinger_bands spread w k))) NaN)
      = false).
Proof.
  destruct (bands_lengths spread w k) as [Hu Hl].
  split; [now apply detect_breach_index |].
  split; [| split].
  - intros i Hi Hmissing. rewrite breach_at by assumption.
    destruct (bands_at spread w k i Hi) as [-> ->].
    rewrite !(roll_at_missing _ _ _ _ Hmissing).
    now destruct (nth i (values spread) NaN), k.
  - intros i Hi Hnan. rewrite breach_at by assumption.
    destruct (nth i (values spread) NaN); try discriminate.
    now destruct (nth i (values (fst (Scanner._compute_bollinger_bands spread w k))) NaN),
      (nth i (values (snd (Scanner._compute_bollinger_bands spread w k))) NaN).
  - intros Hk i Hi. destruct (bands_at spread w k i Hi) as [-> ->].
    assert (Hx : i < length (values spread)) by now rewrite length_values.
    destruct (rolling_stats_cases w i (values spread) Hx)
      as [-> | (r & mu & sd & -> & -> & -> & Hsd & _)].
    + destruct (nth i (values spread) NaN), (roll_at agg_mean w (values spread) i), k;
        reflexivity.
    + destruct (fge_zero_cases k Hk) as [-> | (kappa & -> & Hkappa)].
      * cbn [fmul]. destruct (Req_dec_T sd 0) as [-> | Hnz].
        -- now rewrite inf_of_sign_zero.
        -- rewrite inf_of_sign_pos by lra. reflexivity.
      * cbn [fmul fsub fneg fadd fgt flt].
        assert (Hprod : (0 <= kappa * sd)%R) by now apply Rmult_le_pos.
        destruct (Rlt_dec (mu + kappa * sd) r) as [Habove | Hnot].
        -- rewrite (Rltb_false r (mu + - (kappa * sd))) by lra. apply andb_false_r.
        -- now rewrite (Rltb_false (mu + kappa * sd) r) by lra.
Qed.
